(** * go-mongodb-generic: the connector and the generic record controller

    A shallow embedding of [mongodb/genericrud.go] (the controller
    [genericObjectDBCtrl[T]]) and of the connector [Connect].

    The controller is a set of thin methods over a [*mongo.Collection].  The
    methods are embedded as state-passing functions over a [World] that holds
    what a call can read or change: the clock, the Go heap (the records and
    maps the caller passes by reference), the collection behind [c.db], the
    sequence of driver calls issued so far and the debug log.  A Go panic is
    an outcome of its own.

    The MongoDB driver is an external dependency.  Its part is played by a
    small reference store ([Module mongo]): equality filters combined with
    AND, [$set] updates, cursors over a snapshot.  Everything above it follows
    the Go source statement by statement. *)

From Stdlib Require Import ZArith.
From stdpp Require Import gmap strings list fin_maps pretty.

Open Scope string_scope.
Open Scope list_scope.
Open Scope Z_scope.

(* ===================================================================== *)
(** ** Go values, slices, contexts and errors *)
(* ===================================================================== *)

Module Go.

(** [time.Time]: an instant, as nanoseconds since the Unix epoch (negative
    before it). *)
Definition Time := Z.

(** The zero [time.Time]: January 1 of year 1, 00:00 UTC. *)
Definition zero_time : Time := -62135596800000000000.

(** The static types a struct field can have, and the dynamic values an
    [any] can hold.  [TDateTime] is [primitive.DateTime], which counts
    milliseconds since the Unix epoch.  [TFunc sig] stands for the kinds
    BSON has no encoder for (functions, channels); [sig] is the type as Go
    prints it, [func()] or [chan int]. *)
Inductive GoType :=
| TBool | TInt | TInt32 | TInt64 | TString | TTime | TDateTime | TObjectID
| TFunc (sig : string) | TAny.

Inductive GoValue :=
| GNil
| GBool (b : bool)
| GInt (z : Z)
| GInt32 (z : Z)
| GInt64 (z : Z)
| GString (s : string)
| GTime (t : Time)
| GDateTime (ms : Z)
| GObjectID (n : nat)
| GFunc (sig : string).

#[global] Instance GoType_eq_dec : EqDecision GoType.
Proof. solve_decision. Defined.

#[global] Instance GoValue_eq_dec : EqDecision GoValue.
Proof. solve_decision. Defined.

(** The dynamic type of a value; [None] for the nil interface. *)
Definition type_of (v : GoValue) : option GoType :=
  match v with
  | GNil => None
  | GBool _ => Some TBool
  | GInt _ => Some TInt
  | GInt32 _ => Some TInt32
  | GInt64 _ => Some TInt64
  | GString _ => Some TString
  | GTime _ => Some TTime
  | GDateTime _ => Some TDateTime
  | GObjectID _ => Some TObjectID
  | GFunc sig => Some (TFunc sig)
  end.

(** The zero value of a type. *)
Definition zero_value (ty : GoType) : GoValue :=
  match ty with
  | TBool => GBool false
  | TInt => GInt 0
  | TInt32 => GInt32 0
  | TInt64 => GInt64 0
  | TString => GString ""
  | TTime => GTime zero_time
  | TDateTime => GDateTime 0
  | TObjectID => GObjectID 0
  | TFunc _ => GNil
  | TAny => GNil
  end.

(** [reflect]'s assignability of a value to a field of type [ty]: the
    types are identical, or the field is an empty interface. *)
Definition assignable (v : GoValue) (ty : GoType) : bool :=
  match ty with
  | TAny => true
  | _ => bool_decide (type_of v = Some ty)
  end.

(** A slice is nil or refers to a sequence; [[]T{}] is empty but not nil. *)
Inductive slice (A : Type) :=
| nil_slice
| make_slice (l : list A).
Arguments nil_slice {A}.
Arguments make_slice {A} l.

Definition elems {A} (s : slice A) : list A :=
  match s with
  | nil_slice => []
  | make_slice l => l
  end.

Definition is_nil {A} (s : slice A) : bool :=
  match s with
  | nil_slice => true
  | make_slice _ => false
  end.

(** The builtin [append(s, x)]. *)
Definition append {A} (s : slice A) (x : A) : slice A :=
  make_slice (elems s ++ [x]).

(** [context.Context]: the background context, or a context derived from
    it ([WithCancel], [WithTimeout]) that is done or not at the time of the
    call. *)
Inductive Context :=
| Background
| Derived (id : nat) (done : bool).

#[global] Instance Context_eq_dec : EqDecision Context.
Proof. solve_decision. Defined.

(** Errors.  [ErrNoEncoder ty] and [ErrNoDecoder ty] are the codec's
    errors for a type it has no encoder or decoder for; they name the type.
    [ErrWriteNull] is the codec's error for a nil value at the top of a
    document.  [MarshalError ty cause] is what a collection call returns
    when an argument of type [ty] does not encode; it has no [Unwrap]
    method.  [Wrapped] is an error with an [Unwrap] method. *)
Inductive error :=
| ErrNoDocuments
| ErrCanceled
| ErrNetwork
| ErrNoEncoder (ty : string)
| ErrNoDecoder (ty : string)
| ErrWriteNull
| MarshalError (ty : string) (cause : error)
| ErrDecode (what : string)
| ErrWrite (what : string)
| errorString (s : string)
| Wrapped (msg : string) (inner : error).

#[global] Instance error_eq_dec : EqDecision error.
Proof. solve_decision. Defined.

(** [ctx.Err()]. *)
Definition ctx_Err (ctx : Context) : option error :=
  match ctx with
  | Background => None
  | Derived _ done => if done then Some ErrCanceled else None
  end.

(** [err.Error()]. *)
Fixpoint Error (e : error) : string :=
  match e with
  | ErrNoDocuments => "mongo: no documents in result"
  | ErrCanceled => "context canceled"
  | ErrNetwork => "server selection error"
  | ErrNoEncoder ty => "no encoder found for " +:+ ty
  | ErrNoDecoder ty => "no decoder found for " +:+ ty
  | ErrWriteNull =>
      "WriteNull can only write while positioned on a Element or Value but is positioned on a TopLevel"
  | MarshalError ty cause =>
      "cannot transform type " +:+ ty +:+ " to a BSON Document: " +:+ Error cause
  | ErrDecode what => "cannot decode: " +:+ what
  | ErrWrite what => "write exception: " +:+ what
  | errorString s => s
  | Wrapped msg inner => msg +:+ ": " +:+ Error inner
  end.

(** [errors.Is(err, target)]: walks the [Unwrap] chain. *)
Fixpoint errors_Is (err target : error) : bool :=
  if bool_decide (err = target) then true
  else match err with
       | Wrapped _ inner => errors_Is inner target
       | _ => false
       end.

(** [fmt.Errorf(prefix + "%s", err)]: the verb is [%s], so the result
    carries the text of [err] and does not wrap it. *)
Definition fmt_Errorf_s (prefix : string) (err : error) : error :=
  errorString (prefix +:+ Error err).

(** Go leaves the order of [for k, v := range m] unspecified.  A
    [MapRange] is one choice of order: some permutation of the entries. *)
Class MapRange := {
  range_of : ∀ {V : Type}, gmap string V → list (string * V);
  range_of_perm : ∀ (V : Type) (m : gmap string V),
      range_of m ≡ₚ map_to_list m
}.

(** The order in which stdpp lists a map is one such choice. *)
Definition listed_order : MapRange :=
  {| range_of := λ V (m : gmap string V), map_to_list m;
     range_of_perm := λ V m, reflexivity _ |}.

(** The same entries from the last to the first are another. *)
Definition reversed_order : MapRange :=
  {| range_of := λ V (m : gmap string V), reverse (map_to_list m);
     range_of_perm := λ V m, reverse_Permutation _ |}.

(** The first rune of an exported identifier is an upper-case letter. *)
Definition is_exported (name : string) : bool :=
  match name with
  | String c _ =>
      let n := Ascii.nat_of_ascii c in
      (Nat.leb 65 n && Nat.leb n 90)%bool
  | EmptyString => false
  end.

End Go.
Export Go.

(* ===================================================================== *)
(** ** Records of type [T] and the BSON codec *)
(* ===================================================================== *)

Module bson.

(** BSON values as the store holds them.  An integer is held in 32 or in
    64 bits.  A date-time counts milliseconds since the Unix epoch. *)
Inductive BValue :=
| BNull
| BBool (b : bool)
| BInt32 (z : Z)
| BInt64 (z : Z)
| BString (s : string)
| BDateTime (ms : Z)
| BObjectID (n : nat).

#[global] Instance BValue_eq_dec : EqDecision BValue.
Proof. solve_decision. Defined.

(** Queries and indexes compare numbers by value, whatever their width:
    the value a comparison looks at. *)
Definition numeric (v : BValue) : BValue :=
  match v with
  | BInt32 z => BInt64 z
  | _ => v
  end.

(** The integer fits into 32 bits. *)
Definition fits32 (z : Z) : bool :=
  (-2147483648 <=? z) && (z <=? 2147483647).

(** A stored document: its fields in order. *)
Abbreviation Document := (list (string * BValue)).

(** [bson.E] and [bson.D]; the value of an element is an [any]. *)
Record E := mkE { Key : string; Value : GoValue }.

Abbreviation D := (slice E).

(** [bson.M], a [map[string]interface{}]. *)
Abbreviation M := (gmap string GoValue).

(** The struct type [T] the controller is instantiated at: the declared
    fields, each with its Go name, its BSON key and its type.  Structs are
    flat: embedded structs and their promoted fields are left out. *)
Record FieldDecl := mkFieldDecl {
  f_name : string;
  f_key : string;
  f_type : GoType
}.

Abbreviation StructType := (list FieldDecl).

(** A value of type [T]. *)
Record Field := mkField { f_decl : FieldDecl; f_val : GoValue }.

Abbreviation Struct := (list Field).

(** [new(T)], [var result T]: every field at its zero value. *)
Definition zero_struct (T : StructType) : Struct :=
  map (λ d, mkField d (zero_value (f_type d))) T.

Definition nanos_per_milli : Z := 1000000.

(** The encoder of one Go value.  An [int] is written in 32 bits when it
    fits and in 64 bits otherwise; a [time.Time] is cut to milliseconds.
    There is no encoder for a function or a channel, and the error names
    the type. *)
Definition encode_value (v : GoValue) : error + BValue :=
  match v with
  | GNil => inr BNull
  | GBool b => inr (BBool b)
  | GInt z => inr (if fits32 z then BInt32 z else BInt64 z)
  | GInt32 z => inr (BInt32 z)
  | GInt64 z => inr (BInt64 z)
  | GString s => inr (BString s)
  | GTime t => inr (BDateTime (t `div` nanos_per_milli))
  | GDateTime ms => inr (BDateTime ms)
  | GObjectID n => inr (BObjectID n)
  | GFunc sig => inl (ErrNoEncoder sig)
  end.

(** Encoding [(key, value)] entries in the order given. *)
Fixpoint encode_entries (l : list (string * GoValue)) : error + Document :=
  match l with
  | [] => inr []
  | (k, v) :: rest =>
      match encode_value v with
      | inl e => inl e
      | inr bv =>
          match encode_entries rest with
          | inl e => inl e
          | inr d => inr ((k, bv) :: d)
          end
      end
  end.

(** The struct encoder: exported fields in declaration order, under their
    BSON keys; a field whose type has no encoder fails the whole value. *)
Fixpoint encode_struct (s : Struct) : error + Document :=
  match s with
  | [] => inr []
  | f :: rest =>
      if negb (is_exported (f_name (f_decl f))) then encode_struct rest
      else
        match f_type (f_decl f) with
        | TFunc sig => inl (ErrNoEncoder sig)
        | _ =>
            match encode_value (f_val f) with
            | inl e => inl e
            | inr bv =>
                match encode_struct rest with
                | inl e => inl e
                | inr d => inr ((f_key (f_decl f), bv) :: d)
                end
            end
        end
  end.

(** What a BSON value decodes to in an [interface{}]: an integer comes
    back as [int32] or [int64], by its width, and a date-time as
    [primitive.DateTime]. *)
Definition decode_any (bv : BValue) : GoValue :=
  match bv with
  | BNull => GNil
  | BBool b => GBool b
  | BInt32 z => GInt32 z
  | BInt64 z => GInt64 z
  | BString s => GString s
  | BDateTime ms => GDateTime ms
  | BObjectID n => GObjectID n
  end.

(** The decoder of one BSON value into a field of type [ty].  Null
    decodes to the zero value.  An integer of either width decodes into
    every integer type that holds it.  The conversions the driver has
    between kinds (a number into a bool, a text into a time) are not part
    of this model: here a value decodes into a field of its own kind or
    into an [any]. *)
Definition decode_value (ty : GoType) (bv : BValue) : error + GoValue :=
  match ty with
  | TFunc sig => inl (ErrNoDecoder sig)
  | TAny => inr (decode_any bv)
  | _ =>
      match bv, ty with
      | BNull, _ => inr (zero_value ty)
      | BBool b, TBool => inr (GBool b)
      | (BInt32 z | BInt64 z), TInt => inr (GInt z)
      | BInt32 z, TInt32 => inr (GInt32 z)
      | BInt64 z, TInt32 =>
          if fits32 z then inr (GInt32 z)
          else inl (ErrDecode "value overflows int32")
      | (BInt32 z | BInt64 z), TInt64 => inr (GInt64 z)
      | BString s, TString => inr (GString s)
      | BDateTime ms, TTime => inr (GTime (ms * nanos_per_milli))
      | BDateTime ms, TDateTime => inr (GDateTime ms)
      | BObjectID n, TObjectID => inr (GObjectID n)
      | _, _ => inl (ErrDecode "cannot decode value into field")
      end
  end.

(** The first value stored under [k]. *)
Fixpoint doc_lookup (k : string) (d : Document) : option BValue :=
  match d with
  | [] => None
  | (k', v) :: rest => if bool_decide (k' = k) then Some v else doc_lookup k rest
  end.

(** The struct decoder, into an existing value: an exported field whose key
    the document has is overwritten, the others are kept. *)
Fixpoint decode_struct (d : Document) (s : Struct) : error + Struct :=
  match s with
  | [] => inr []
  | f :: rest =>
      let keep :=
        match decode_struct d rest with
        | inl e => inl e
        | inr rest' => inr (f :: rest')
        end in
      if negb (is_exported (f_name (f_decl f))) then keep
      else
        match doc_lookup (f_key (f_decl f)) d with
        | None => keep
        | Some bv =>
            match decode_value (f_type (f_decl f)) bv with
            | inl e => inl e
            | inr v =>
                match decode_struct d rest with
                | inl e => inl e
                | inr rest' => inr (mkField (f_decl f) v :: rest')
                end
            end
        end
  end.

(** [bson.Unmarshal(data, &m)] for [m] a [bson.M]: every value is decoded
    as into an [interface{}] and the entries are assigned in order, a later
    duplicate key replacing an earlier one. *)
Definition Unmarshal_M (data : Document) : error + M :=
  inr (foldl (λ (m : M) kv, <[kv.1 := decode_any kv.2]> m) ∅ data).

End bson.

(* ===================================================================== *)
(** ** The world a call runs in *)
(* ===================================================================== *)

(** The driver calls the controller can issue, each logged with the context
    it was handed. *)
Inductive Method :=
| MInsertOne | MFindOne | MFind | MCursorNext | MUpdateOne | MUpdateMany
| MDeleteOne | MDeleteMany | MIndexCreateOne.

#[global] Instance Method_eq_dec : EqDecision Method.
Proof. solve_decision. Defined.

Record Call := mkCall { method : Method; call_ctx : Context }.

#[global] Instance Call_eq_dec : EqDecision Call.
Proof. solve_decision. Defined.

(** [mongo.IndexModel] with [options.Index().SetUnique(unique)]. *)
Record IndexModel := mkIndexModel { Keys : bson.D; Unique : bool }.

(** A pointer: nil or an address in the heap. *)
Definition ptr := option nat.

(** What [$set] makes of a document under a dotted name.  A dotted name is
    a path into embedded documents, which the documents of this model do
    not have; what the server answers is taken as it comes. *)
Abbreviation PathSet :=
  (string → bson.BValue → bson.Document → error + bson.Document).

Record World := mkWorld {
  clock : Time;                          (* what [time.Now()] reads next *)
  heap : gmap nat bson.Struct;           (* the records behind [*T] *)
  maps : gmap nat (gmap string GoValue); (* the Go map objects *)
  coll : list bson.Document;             (* the collection behind [c.db] *)
  indexes : list IndexModel;             (* its secondary indexes *)
  server_up : bool;                      (* the deployment is reachable *)
  next_oid : nat;                        (* the next generated ObjectID *)
  calls : list Call;                     (* driver calls, oldest first *)
  logs : list string;                    (* debug log, oldest first *)
  cursor_fault : option nat;
    (* [Some n]: a cursor gets its first batch, of [n + 1] documents, with
       the reply to the query and loses its connection when it asks for
       more; [None]: cursors deliver all they have *)
  set_path : PathSet                     (* [$set] under a dotted name *)
}.

Definition set_clock (t : Time) (w : World) : World :=
  mkWorld t (heap w) (maps w) (coll w) (indexes w) (server_up w)
          (next_oid w) (calls w) (logs w)
          (cursor_fault w) (set_path w).

Definition set_heap (h : gmap nat bson.Struct) (w : World) : World :=
  mkWorld (clock w) h (maps w) (coll w) (indexes w) (server_up w)
          (next_oid w) (calls w) (logs w)
          (cursor_fault w) (set_path w).

Definition set_maps (m : gmap nat (gmap string GoValue)) (w : World) : World :=
  mkWorld (clock w) (heap w) m (coll w) (indexes w) (server_up w)
          (next_oid w) (calls w) (logs w)
          (cursor_fault w) (set_path w).

Definition set_coll (c : list bson.Document) (w : World) : World :=
  mkWorld (clock w) (heap w) (maps w) c (indexes w) (server_up w)
          (next_oid w) (calls w) (logs w)
          (cursor_fault w) (set_path w).

Definition set_indexes (ix : list IndexModel) (w : World) : World :=
  mkWorld (clock w) (heap w) (maps w) (coll w) ix (server_up w)
          (next_oid w) (calls w) (logs w)
          (cursor_fault w) (set_path w).

Definition set_next_oid (n : nat) (w : World) : World :=
  mkWorld (clock w) (heap w) (maps w) (coll w) (indexes w) (server_up w)
          n (calls w) (logs w) (cursor_fault w) (set_path w).

Definition set_calls (cs : list Call) (w : World) : World :=
  mkWorld (clock w) (heap w) (maps w) (coll w) (indexes w) (server_up w)
          (next_oid w) cs (logs w) (cursor_fault w) (set_path w).

Definition set_logs (ls : list string) (w : World) : World :=
  mkWorld (clock w) (heap w) (maps w) (coll w) (indexes w) (server_up w)
          (next_oid w) (calls w) ls (cursor_fault w) (set_path w).

(** A call returns or panics; either way it leaves a world behind. *)
Inductive Outcome (A : Type) :=
| Done (a : A)
| Panic (msg : string).
Arguments Done {A} a.
Arguments Panic {A} msg.

Definition Exec (A : Type) : Type := World → Outcome A * World.

Definition exec_ret {A} (a : A) : Exec A := λ w, (Done a, w).

Definition exec_bind {A B} (m : Exec A) (k : A → Exec B) : Exec B :=
  λ w, match m w with
       | (Done a, w') => k a w'
       | (Panic msg, w') => (Panic msg, w')
       end.

Declare Scope exec_scope.
Delimit Scope exec_scope with exec.
Notation "x <- m ;; k" := (exec_bind m (λ x, k))
  (at level 100, m at next level, right associativity) : exec_scope.
Notation "m ;;; k" := (exec_bind m (λ _, k))
  (at level 100, right associativity) : exec_scope.
Open Scope exec_scope.

(** [defer d] at the top of a function body: [d] runs when the body is
    left, also by a panic. *)
Definition with_defer {A} (d : Exec unit) (body : Exec A) : Exec A :=
  λ w, let '(r, w') := body w in (r, (d w').2).

(** [log.Debug(msg)]. *)
Definition log_Debug (msg : string) : Exec unit :=
  λ w, (Done tt, set_logs (logs w ++ [msg]) w).

(** [time.Now()]: reads the clock, which then moves on. *)
Definition time_Now : Exec Time :=
  λ w, (Done (clock w), set_clock (clock w + 1) w).

(** *** [reflect] on the record behind [item] *)

Module reflect.

(** A [reflect.Value]: the zero Value, or field [index] of the struct at
    [addr]. *)
Inductive Value :=
| Invalid
| FieldOf (addr : nat) (index : nat) (name : string).

Fixpoint field_index (name : string) (s : bson.Struct) : option nat :=
  match s with
  | [] => None
  | f :: rest =>
      if bool_decide (bson.f_name (bson.f_decl f) = name) then Some 0%nat
      else S <$> field_index name rest
  end.

(** [reflect.ValueOf(item).Elem().FieldByName(name)].  [Elem] of a nil
    pointer is the zero Value, on which [FieldByName] panics. *)
Definition ValueOf_Elem_FieldByName (item : ptr) (name : string) : Exec Value :=
  λ w, match item with
       | None =>
           (Panic "reflect: call of reflect.Value.FieldByName on zero Value", w)
       | Some p =>
           match heap w !! p with
           | None =>
               (Panic "reflect: call of reflect.Value.FieldByName on zero Value", w)
           | Some s =>
               match field_index name s with
               | None => (Done Invalid, w)
               | Some i => (Done (FieldOf p i name), w)
               end
           end
       end.

Definition IsValid (v : Value) : bool :=
  match v with
  | Invalid => false
  | FieldOf _ _ _ => true
  end.

(** The field was reached through a pointer, so it is addressable; it can
    be set when it is exported. *)
Definition CanSet (v : Value) : bool :=
  match v with
  | Invalid => false
  | FieldOf _ _ name => is_exported name
  end.

(** [v.Set(reflect.ValueOf(x))]: panics unless [v] can be set and [x] is
    assignable to the field's type. *)
Definition Set_ (v : Value) (x : GoValue) : Exec unit :=
  λ w, match v with
       | Invalid => (Panic "reflect: call of reflect.Value.Set on zero Value", w)
       | FieldOf p i name =>
           if negb (is_exported name) then
             (Panic "reflect: reflect.Value.Set using unexported field", w)
           else
             match heap w !! p with
             | None => (Panic "invalid memory address", w)
             | Some s =>
                 match s !! i with
                 | None => (Panic "reflect: Field index out of range", w)
                 | Some f =>
                     if assignable x (bson.f_type (bson.f_decl f)) then
                       (Done tt,
                        set_heap
                          (<[p := <[i := bson.mkField (bson.f_decl f) x]> s]>
                             (heap w)) w)
                     else
                       (Panic "reflect.Set: value is not assignable to type", w)
                 end
             end
       end.

End reflect.

(* ===================================================================== *)
(** ** The store behind [*mongo.Collection] *)
(* ===================================================================== *)

(** A reference document store standing in for the driver and the server:
    a filter is a conjunction of field equalities, where [null] also
    matches a missing field; [$set] assigns fields, refuses the empty name
    and a name that starts with a dollar sign, and takes a dotted name for
    a path; the [_id] and every unique index allow no duplicate.  A call
    first encodes its arguments, and a nil [bson.D] does not encode; then
    it needs a live context and a reachable server.  A cursor gets its
    first batch with the reply and can fail when it asks for more. *)
Module mongo.

(** What a call hands over as a filter: a [bson.D] or a map. *)
Inductive Filter :=
| FilterD (d : bson.D)
| FilterM (m : gmap string GoValue).

(** An update document [bson.D{bson.E{Key: op, Value: fields}}] whose
    values are [bson.M]s. *)
Record UpdateE := mkUpdateE { Op : string; Fields : bson.M }.

Abbreviation Update := (slice UpdateE).

(** An update document as the server gets it: each operator with the
    encoded fields it applies to. *)
Abbreviation Modifiers := (list (string * bson.Document)).

Record SingleResult := mkSingleResult {
  sr_err : option error;
  sr_doc : option bson.Document
}.

Record UpdateResult := mkUpdateResult {
  MatchedCount : nat;
  ModifiedCount : nat
}.

(** A [*mongo.Collection]: the handle of the collection of the world. *)
Record Collection := mkCollection { Name : string }.

(** A cursor: the matching documents it has yet to deliver, and how many
    of them it still delivers before its connection fails ([None]: all of
    them). *)
Record Cursor := mkCursor {
  pending : list bson.Document;
  served : option nat
}.

Definition log_call (m : Method) (ctx : Context) : Exec unit :=
  λ w, (Done tt, set_calls (calls w ++ [mkCall m ctx]) w).

(** The round trip to the server under [ctx]. *)
Definition round_trip (ctx : Context) (w : World) : option error :=
  match ctx_Err ctx with
  | Some e => Some e
  | None => if server_up w then None else Some ErrNetwork
  end.

(** One constraint of a filter: the field equals the value, numbers being
    compared by value; [null] also matches a missing field. *)
Definition field_matches (d : bson.Document) (kv : string * bson.BValue) : bool :=
  match bson.doc_lookup kv.1 d with
  | Some v => bool_decide (bson.numeric v = bson.numeric kv.2)
  | None => bool_decide (kv.2 = bson.BNull)
  end.

(** Document [d] satisfies every constraint of [filter]. *)
Definition matches (filter : bson.Document) (d : bson.Document) : bool :=
  forallb (field_matches d) filter.

(** Assigning one field: in place when present, else appended. *)
Fixpoint doc_set (k : string) (v : bson.BValue) (d : bson.Document)
  : bson.Document :=
  match d with
  | [] => [(k, v)]
  | (k', v') :: rest =>
      if bool_decide (k' = k) then (k, v) :: rest
      else (k', v') :: doc_set k v rest
  end.

Definition index_fields (ix : IndexModel) : list string :=
  map bson.Key (elems (Keys ix)).

(** The key of a document in an index over [fields]: a missing field
    counts as null, and numbers count by value. *)
Definition key_of (fields : list string) (d : bson.Document)
  : list bson.BValue :=
  map (λ k, bson.numeric (default bson.BNull (bson.doc_lookup k d))) fields.

Fixpoint no_dup_keys (fields : list string) (docs : list bson.Document)
  : bool :=
  match docs with
  | [] => true
  | d :: rest =>
      negb (existsb (λ d', bool_decide (key_of fields d' = key_of fields d))
                    rest)
      && no_dup_keys fields rest
  end.

(** The uniqueness constraints of the collection hold of [docs]. *)
Definition unique_ok (ixs : list IndexModel) (docs : list bson.Document)
  : bool :=
  no_dup_keys ["_id"] docs
  && forallb (λ ix, negb (Unique ix) || no_dup_keys (index_fields ix) docs)
             ixs.

(** Replacing the first element that satisfies [p]. *)
Fixpoint update_first {A} (p : A → bool) (f : A → A) (l : list A)
  : option (list A) :=
  match l with
  | [] => None
  | x :: rest =>
      if p x then Some (f x :: rest)
      else cons x <$> update_first p f rest
  end.

(** Removing the first element that satisfies [p]. *)
Fixpoint remove_first {A} (p : A → bool) (l : list A) : list A :=
  match l with
  | [] => []
  | x :: rest => if p x then rest else x :: remove_first p rest
  end.

(** The name the server gives an index: [field_direction] joined by [_]. *)
Definition index_part (e : bson.E) : string :=
  bson.Key e +:+ "_" +:+
  match bson.Value e with
  | GInt z => pretty z
  | GString s => s
  | _ => ""
  end.

Fixpoint join_with (sep : string) (parts : list string) : string :=
  match parts with
  | [] => ""
  | [p] => p
  | p :: rest => p +:+ sep +:+ join_with sep rest
  end.

Definition index_name (keys : bson.D) : string :=
  join_with "_" (map index_part (elems keys)).

(** The name starts with a dollar sign (code 36). *)
Definition dollar_prefixed (k : string) : bool :=
  match k with
  | String c _ => Nat.eqb (Ascii.nat_of_ascii c) 36
  | EmptyString => false
  end.

(** The name has a dot (code 46) in it. *)
Fixpoint dotted (k : string) : bool :=
  match k with
  | String c rest => Nat.eqb (Ascii.nat_of_ascii c) 46 || dotted rest
  | EmptyString => false
  end.

(** [$set] of one field.  The server refuses the empty name and a name
    that starts with a dollar sign; a dotted name is a path ([set_path] of
    the world); any other name is the name of a field of the document. *)
Definition set_field (sp : PathSet) (k : string) (v : bson.BValue)
    (d : bson.Document) : error + bson.Document :=
  if bool_decide (k = "") then
    inl (ErrWrite "An empty update path is not valid.")
  else if dollar_prefixed k then
    inl (ErrWrite "The dollar ($) prefixed field is not valid for storage.")
  else if dotted k then sp k v d
  else inr (doc_set k v d).

(** [$set] with encoded fields, in their order. *)
Definition apply_set (sp : PathSet) (fields : bson.Document)
    (d : bson.Document) : error + bson.Document :=
  foldl (λ acc kv,
           match acc with
           | inl e => inl e
           | inr d' => set_field sp kv.1 kv.2 d'
           end)
        (inr d) fields.

(** Applying an update document; [$set] is the operator it knows. *)
Definition apply_update (sp : PathSet) (u : Modifiers) (d : bson.Document)
  : error + bson.Document :=
  foldl (λ acc ue,
           match acc with
           | inl e => inl e
           | inr d' =>
               if bool_decide (ue.1 = "$set") then apply_set sp ue.2 d'
               else inl (ErrWrite "unknown modifier")
           end)
        (inr d) u.

(** One document under an update: the operators applied; [_id] must come
    out as it went in. *)
Definition update_doc (sp : PathSet) (u : Modifiers) (d : bson.Document)
  : error + bson.Document :=
  match apply_update sp u d with
  | inl e => inl e
  | inr d' =>
      if bool_decide (bson.doc_lookup "_id" d' = bson.doc_lookup "_id" d)
      then inr d'
      else inl (ErrWrite "_id is immutable")
  end.

(** A multi-document update is no transaction: the documents are written
    one after the other, and a document that cannot be written ends the
    update with the documents before it written.  [before] are the
    documents already gone through, [todo] the ones to come. *)
Fixpoint update_each (sp : PathSet) (ixs : list IndexModel)
    (f : bson.Document) (u : Modifiers)
    (before todo : list bson.Document) : option error * list bson.Document :=
  match todo with
  | [] => (None, before)
  | d :: rest =>
      if matches f d then
        match update_doc sp u d with
        | inl e => (Some e, before ++ d :: rest)
        | inr d' =>
            if unique_ok ixs (before ++ d' :: rest) then
              update_each sp ixs f u (before ++ [d']) rest
            else
              (Some (ErrWrite "E11000 duplicate key error"),
               before ++ d :: rest)
        end
      else update_each sp ixs f u (before ++ [d]) rest
  end.

(** What a collection call returns for an argument of type [ty] that does
    not encode. *)
Definition or_MarshalError {A} (ty : string) (r : error + A) : error + A :=
  match r with
  | inl e => inl (MarshalError ty e)
  | inr a => inr a
  end.

Section Collection.
Context {R : MapRange}.

Definition filter_entries (f : Filter) : list (string * GoValue) :=
  match f with
  | FilterD d => map (λ e, (bson.Key e, bson.Value e)) (elems d)
  | FilterM m => range_of m
  end.

(** The filter as the driver encodes it.  A nil [bson.D] is no empty
    document: a nil slice encodes as null, which cannot stand at the top of
    a document, and the call fails before anything is sent. *)
Definition encode_filter (f : Filter) : error + bson.Document :=
  match f with
  | FilterD nil_slice => inl (MarshalError "primitive.D" ErrWriteNull)
  | FilterD (make_slice _) =>
      or_MarshalError "primitive.D" (bson.encode_entries (filter_entries f))
  | FilterM _ =>
      or_MarshalError "primitive.M" (bson.encode_entries (filter_entries f))
  end.

Fixpoint encode_ops (l : list UpdateE) : error + Modifiers :=
  match l with
  | [] => inr []
  | ue :: rest =>
      match bson.encode_entries (range_of (Fields ue)) with
      | inl e => inl e
      | inr fields =>
          match encode_ops rest with
          | inl e => inl e
          | inr ops => inr ((Op ue, fields) :: ops)
          end
      end
  end.

(** The update document as the driver encodes it; the fields of a
    [bson.M] go out in the order the runtime ranges over the map. *)
Definition encode_update (u : Update) : error + Modifiers :=
  match u with
  | nil_slice => inl (MarshalError "primitive.D" ErrWriteNull)
  | make_slice l => or_MarshalError "primitive.D" (encode_ops l)
  end.

(** [coll.InsertOne(ctx, document)] for a document given as [&item]: a
    pointer to the pointer to the record, of type [**T].  A document
    without [_id] gets a generated one in front. *)
Definition InsertOne (ctx : Context) (item : ptr) : Exec (option error) :=
  log_call MInsertOne ctx ;;;
  λ w, match item ≫= (λ p, heap w !! p) with
       | None => (Done (Some (MarshalError "**T" ErrWriteNull)), w)
       | Some s =>
           match bson.encode_struct s with
           | inl e => (Done (Some (MarshalError "**T" e)), w)
           | inr d =>
               let '(d', w1) :=
                 match bson.doc_lookup "_id" d with
                 | Some _ => (d, w)
                 | None =>
                     (("_id", bson.BObjectID (next_oid w)) :: d,
                      set_next_oid (S (next_oid w)) w)
                 end in
               match round_trip ctx w1 with
               | Some e => (Done (Some e), w1)
               | None =>
                   if unique_ok (indexes w1) (coll w1 ++ [d']) then
                     (Done None, set_coll (coll w1 ++ [d']) w1)
                   else
                     (Done (Some (ErrWrite "E11000 duplicate key error")), w1)
               end
           end
       end.

(** [coll.FindOne(ctx, filter)]. *)
Definition FindOne (ctx : Context) (filter : Filter) : Exec SingleResult :=
  log_call MFindOne ctx ;;;
  λ w, match encode_filter filter with
       | inl e => (Done (mkSingleResult (Some e) None), w)
       | inr f =>
           match round_trip ctx w with
           | Some e => (Done (mkSingleResult (Some e) None), w)
           | None => (Done (mkSingleResult None (find (matches f) (coll w))), w)
           end
       end.

(** [SingleResult.Decode(result)] for [result := new(T)]: the decoded
    record, or the error of the query, [ErrNoDocuments] when it found
    nothing, or a decoding error. *)
Definition SingleResult_Decode (sr : SingleResult) (result : bson.Struct)
  : error + bson.Struct :=
  match sr_err sr with
  | Some e => inl e
  | None =>
      match sr_doc sr with
      | None => inl ErrNoDocuments
      | Some d => bson.decode_struct d result
      end
  end.

(** [coll.Find(ctx, filter)]: a cursor over the matching documents, or
    the error.  The first batch comes with the reply. *)
Definition Find (ctx : Context) (filter : Filter) : Exec (error + Cursor) :=
  log_call MFind ctx ;;;
  λ w, match encode_filter filter with
       | inl e => (Done (inl e), w)
       | inr f =>
           match round_trip ctx w with
           | Some e => (Done (inl e), w)
           | None =>
               (Done (inr (mkCursor (List.filter (matches f) (coll w))
                                    (S <$> cursor_fault w))), w)
           end
       end.

(** [cursor.Next(ctx)]: whether there is a next document to decode.  It
    is [false] at the end of the matches and also when the cursor fails;
    the two differ in [cursor.Err()] only. *)
Definition Cursor_Next (ctx : Context) (cur : Cursor) : Exec bool :=
  log_call MCursorNext ctx ;;;
  λ w, match round_trip ctx w, served cur, pending cur with
       | None, Some O, _ => (Done false, w)
       | None, _, _ :: _ => (Done true, w)
       | _, _, _ => (Done false, w)
       end.

(** [coll.UpdateOne(ctx, filter, update)], without upsert: the first
    matching document is updated; none matching is not an error. *)
Definition UpdateOne (ctx : Context) (filter : Filter) (update : Update)
  : Exec (option UpdateResult * option error) :=
  log_call MUpdateOne ctx ;;;
  λ w, match encode_filter filter with
       | inl e => (Done (None, Some e), w)
       | inr f =>
           match encode_update update with
           | inl e => (Done (None, Some e), w)
           | inr u =>
               match round_trip ctx w with
               | Some e => (Done (None, Some e), w)
               | None =>
                   match find (matches f) (coll w) with
                   | None => (Done (Some (mkUpdateResult 0 0), None), w)
                   | Some d =>
                       match update_doc (set_path w) u d with
                       | inl e => (Done (None, Some e), w)
                       | inr d' =>
                           let docs :=
                             default (coll w)
                               (update_first (matches f) (λ _, d') (coll w)) in
                           if unique_ok (indexes w) docs then
                             (Done (Some (mkUpdateResult 1 1), None),
                              set_coll docs w)
                           else
                             (Done (None,
                                    Some (ErrWrite
                                            "E11000 duplicate key error")),
                              w)
                       end
                   end
               end
           end
       end.

(** [coll.UpdateMany(ctx, filter, update)]. *)
Definition UpdateMany (ctx : Context) (filter : Filter) (update : Update)
  : Exec (option UpdateResult * option error) :=
  log_call MUpdateMany ctx ;;;
  λ w, match encode_filter filter with
       | inl e => (Done (None, Some e), w)
       | inr f =>
           match encode_update update with
           | inl e => (Done (None, Some e), w)
           | inr u =>
               match round_trip ctx w with
               | Some e => (Done (None, Some e), w)
               | None =>
                   match update_each (set_path w) (indexes w) f u []
                           (coll w) with
                   | (Some e, docs) => (Done (None, Some e), set_coll docs w)
                   | (None, docs) =>
                       let n := length (List.filter (matches f) (coll w)) in
                       (Done (Some (mkUpdateResult n n), None),
                        set_coll docs w)
                   end
               end
           end
       end.

(** [coll.DeleteOne(ctx, filter)]: removes the first matching document. *)
Definition DeleteOne (ctx : Context) (filter : Filter)
  : Exec (option error) :=
  log_call MDeleteOne ctx ;;;
  λ w, match encode_filter filter with
       | inl e => (Done (Some e), w)
       | inr f =>
           match round_trip ctx w with
           | Some e => (Done (Some e), w)
           | None => (Done None, set_coll (remove_first (matches f) (coll w)) w)
           end
       end.

(** [coll.DeleteMany(ctx, filter)]: removes every matching document. *)
Definition DeleteMany (ctx : Context) (filter : Filter)
  : Exec (option error) :=
  log_call MDeleteMany ctx ;;;
  λ w, match encode_filter filter with
       | inl e => (Done (Some e), w)
       | inr f =>
           match round_trip ctx w with
           | Some e => (Done (Some e), w)
           | None =>
               (Done None,
                set_coll (List.filter (λ d, negb (matches f d)) (coll w)) w)
           end
       end.

(** [coll.Indexes().CreateOne(ctx, model)]: the name of the new index. *)
Definition Indexes_CreateOne (ctx : Context) (model : IndexModel)
  : Exec (string * option error) :=
  log_call MIndexCreateOne ctx ;;;
  λ w, match encode_filter (FilterD (Keys model)) with
       | inl e => (Done ("", Some e), w)
       | inr keys =>
           match round_trip ctx w with
           | Some e => (Done ("", Some e), w)
           | None =>
               if bool_decide (keys = []) then
                 (Done ("", Some (ErrWrite "index keys cannot be empty")), w)
               else if unique_ok (indexes w ++ [model]) (coll w) then
                 (Done (index_name (Keys model), None),
                  set_indexes (indexes w ++ [model]) w)
               else
                 (Done ("", Some (ErrWrite "E11000 duplicate key error")), w)
           end
       end.

End Collection.
End mongo.

(* ===================================================================== *)
(** ** The generic record controller, [genericObjectDBCtrl[T]] *)
(* ===================================================================== *)

(** [bson.Marshal(item)] for [item] a [*T]. *)
Definition bson_Marshal_ptr (item : ptr) : Exec (error + bson.Document) :=
  λ w, match item ≫= (λ p, heap w !! p) with
       | None => (Done (inl ErrWriteNull), w)
       | Some s => (Done (bson.encode_struct s), w)
       end.

(** [m[k] = v] for the map object behind [m]; assigning into a nil map
    panics. *)
Definition map_assign (m : ptr) (k : string) (v : GoValue) : Exec unit :=
  λ w, match m ≫= (λ p, (λ o, (p, o)) <$> maps w !! p) with
       | None => (Panic "assignment to entry in nil map", w)
       | Some (p, o) => (Done tt, set_maps (<[p := <[k := v]> o]> (maps w)) w)
       end.

(** Reading the map object behind [m]; a nil map reads as empty. *)
Definition map_read (m : ptr) : Exec (gmap string GoValue) :=
  λ w, (Done (default ∅ (m ≫= (λ p, maps w !! p))), w).

(** The controller: a handle of the collection, which is the one the
    world holds. *)
Record genericObjectDBCtrl := mkCtrl { db : mongo.Collection }.

Definition NewGenericObjectDBCtrl (dbCollection : mongo.Collection)
  : genericObjectDBCtrl :=
  {| db := dbCollection |}.

Section Controller.
Context {R : MapRange}.

(** The record type the controller is instantiated at. *)
Variable T : bson.StructType.

(** [var filter bson.D; for k, v := range sels { filter = append(filter,
    bson.E{k, v}) }]. *)
Definition filter_of_sels (sels : gmap string GoValue) : bson.D :=
  foldl (λ filter kv, append filter (bson.mkE kv.1 kv.2))
        nil_slice (range_of sels).

Definition Create (c : genericObjectDBCtrl) (ctx : Context) (item : ptr)
  : Exec (option error) :=
  log_Debug "DB DEBUG: Started c.db.InsertOne(ctx, &item)" ;;;
  with_defer (log_Debug "DB DEBUG: finished c.db.InsertOne(ctx, &item)")
    (now <- time_Now ;;
     createdAtField <- reflect.ValueOf_Elem_FieldByName item "CreatedAt" ;;
     (if reflect.IsValid createdAtField && reflect.CanSet createdAtField
      then reflect.Set_ createdAtField (GTime now)
      else exec_ret tt) ;;;
     updatedAtField <- reflect.ValueOf_Elem_FieldByName item "UpdatedAt" ;;
     (if reflect.IsValid updatedAtField && reflect.CanSet updatedAtField
      then reflect.Set_ updatedAtField (GTime now)
      else exec_ret tt) ;;;
     err <- mongo.InsertOne ctx item ;;
     match err with
     | Some e => exec_ret (Some e)
     | None => exec_ret None
     end).

Definition Get (c : genericObjectDBCtrl) (ctx : Context) (id : GoValue)
  : Exec (option bson.Struct * option error) :=
  log_Debug "DB DEBUG: Started c.db.FindOne(ctx, filter)" ;;;
  with_defer (log_Debug "DB DEBUG: finished c.db.FindOne(ctx, filter)")
    (let result := bson.zero_struct T in
     let filter := make_slice [bson.mkE "_id" id] in
     sr <- mongo.FindOne ctx (mongo.FilterD filter) ;;
     match mongo.SingleResult_Decode sr result with
     | inl err => exec_ret (None, Some err)
     | inr result => exec_ret (Some result, None)
     end).

Definition Find (c : genericObjectDBCtrl) (ctx : Context)
    (sels : gmap string GoValue)
  : Exec (option bson.Struct * option error) :=
  log_Debug "DB DEBUG: Started c.db.FindOne(ctx, filter)" ;;;
  with_defer (log_Debug "DB DEBUG: finished c.db.FindOne(ctx, filter)")
    (let result := bson.zero_struct T in
     let filter := filter_of_sels sels in
     sr <- mongo.FindOne ctx (mongo.FilterD filter) ;;
     match mongo.SingleResult_Decode sr result with
     | inl err => exec_ret (None, Some err)
     | inr result => exec_ret (Some result, None)
     end).

Definition Exists (c : genericObjectDBCtrl) (ctx : Context)
    (sels : gmap string GoValue)
  : Exec (option bson.Struct * bool * option error) :=
  log_Debug "DB DEBUG: Started c.Find(ctx, sels)" ;;;
  with_defer (log_Debug "DB DEBUG: finished c.Find(ctx, sels)")
    (r <- Find c ctx sels ;;
     match r with
     | (_, Some err) =>
         if errors_Is err ErrNoDocuments then exec_ret (None, false, None)
         else exec_ret (None, false, Some err)
     | (result, None) => exec_ret (result, true, None)
     end).

Definition Update (c : genericObjectDBCtrl) (ctx : Context) (id : GoValue)
    (item : ptr) : Exec (option error) :=
  log_Debug "DB DEBUG: Started c.db.UpdateOne" ;;;
  with_defer (log_Debug "DB DEBUG: finished c.db.UpdateOne")
    (now <- time_Now ;;
     updatedAtField <- reflect.ValueOf_Elem_FieldByName item "UpdatedAt" ;;
     (if reflect.IsValid updatedAtField && reflect.CanSet updatedAtField
      then reflect.Set_ updatedAtField (GTime now)
      else exec_ret tt) ;;;
     marshalled <- bson_Marshal_ptr item ;;
     match marshalled with
     | inl err => exec_ret (Some err)
     | inr dataByte =>
         match bson.Unmarshal_M dataByte with
         | inl err => exec_ret (Some err)
         | inr update =>
             r <- mongo.UpdateOne ctx
                    (mongo.FilterM {[ "_id" := id ]})
                    (make_slice [mongo.mkUpdateE "$set" update]) ;;
             match r.2 with
             | Some err => exec_ret (Some err)
             | None => exec_ret None
             end
         end
     end).

Definition UpdateAttributes (c : genericObjectDBCtrl) (ctx : Context)
    (sels : gmap string GoValue) (attrs : ptr) : Exec (option error) :=
  log_Debug "DB DEBUG: Started c.db.UpdateMany" ;;;
  with_defer (log_Debug "DB DEBUG: finished c.db.UpdateMany")
    (let filter := filter_of_sels sels in
     now <- time_Now ;;
     map_assign attrs "updated_at" (GTime now) ;;;
     m <- map_read attrs ;;
     match bson.encode_entries (range_of m) with
     | inl err => exec_ret (Some err)
     | inr dataByte =>
         match bson.Unmarshal_M dataByte with
         | inl err => exec_ret (Some err)
         | inr update =>
             r <- mongo.UpdateMany ctx
                    (mongo.FilterD filter)
                    (make_slice [mongo.mkUpdateE "$set" update]) ;;
             match r.2 with
             | Some err => exec_ret (Some err)
             | None => exec_ret None
             end
         end
     end).

Definition Delete (c : genericObjectDBCtrl) (ctx : Context) (id : GoValue)
  : Exec (option error) :=
  let filter := make_slice [bson.mkE "_id" id] in
  err <- mongo.DeleteOne ctx (mongo.FilterD filter) ;;
  match err with
  | Some e => exec_ret (Some e)
  | None => exec_ret None
  end.

Definition DeleteRange (c : genericObjectDBCtrl) (ctx : Context)
    (sels : gmap string GoValue) : Exec (option error) :=
  let filter := filter_of_sels sels in
  err <- mongo.DeleteMany ctx (mongo.FilterD filter) ;;
  match err with
  | Some e => exec_ret (Some e)
  | None => exec_ret None
  end.

(** [for cursor.Next(ctx) { var result T; err := cursor.Decode(&result);
    if err != nil { return nil, err }; results = append(results, result) };
    return results, nil].  The cursor is a mutable object; here its state,
    the pending documents and what it still delivers, goes from one turn
    of the loop to the next.  The loop does not look at [cursor.Err()]. *)
Fixpoint decode_all (ctx : Context) (pending : list bson.Document)
    (served : option nat) (results : slice bson.Struct)
  : Exec (slice bson.Struct * option error) :=
  more <- mongo.Cursor_Next ctx (mongo.mkCursor pending served) ;;
  match pending with
  | current :: rest =>
      if more then
        match bson.decode_struct current (bson.zero_struct T) with
        | inl err => exec_ret (nil_slice, Some err)
        | inr result =>
            decode_all ctx rest (Nat.pred <$> served) (append results result)
        end
      else exec_ret (results, None)
  | [] => exec_ret (results, None)
  end.

(** The filter of [ListAll]: [bson.D{bson.E{}}], one element with the zero
    key and the zero value. *)
Definition ListAll_filter : bson.D := make_slice [bson.mkE "" GNil].

Definition ListAll (c : genericObjectDBCtrl) (ctx : Context)
  : Exec (slice bson.Struct * option error) :=
  log_Debug "DB DEBUG: Started c.db.Find(ctx, filter)" ;;;
  with_defer (log_Debug "DB DEBUG: finished c.db.Find(ctx, filter)")
    (let filter := ListAll_filter in
     r <- mongo.Find ctx (mongo.FilterD filter) ;;
     match r with
     | inl err => exec_ret (nil_slice, Some err)
     | inr cursor =>
         decode_all ctx (mongo.pending cursor) (mongo.served cursor)
           (make_slice [])
     end).

Definition List (c : genericObjectDBCtrl) (ctx : Context)
    (sels : gmap string GoValue)
  : Exec (slice bson.Struct * option error) :=
  log_Debug "DB DEBUG: Started c.db.Find(ctx, filter)" ;;;
  with_defer (log_Debug "DB DEBUG: finished c.db.Find(ctx, filter)")
    (let filter := filter_of_sels sels in
     r <- mongo.Find ctx (mongo.FilterD filter) ;;
     match r with
     | inl err => exec_ret (nil_slice, Some err)
     | inr cursor =>
         decode_all ctx (mongo.pending cursor) (mongo.served cursor)
           (make_slice [])
     end).

Definition CreateIndex (c : genericObjectDBCtrl) (ctx : Context)
    (sels : gmap string Z) (unique : bool) : Exec (string * option error) :=
  let indexKeys :=
    foldl (λ indexKeys kv, append indexKeys (bson.mkE kv.1 (GInt kv.2)))
          nil_slice (range_of sels) in
  let indexModel := {| Keys := indexKeys; Unique := unique |} in
  r <- mongo.Indexes_CreateOne Background indexModel ;;
  match r with
  | (_, Some err) => exec_ret ("", Some err)
  | (indexName, None) => exec_ret (indexName, None)
  end.

End Controller.

(** The interface [CRUDDBService[T]], and the controller as its
    implementation at record type [T]. *)
Class CRUDDBService (C : Type) := {
  svc_Create : C → Context → ptr → Exec (option error);
  svc_Get : C → Context → GoValue → Exec (option bson.Struct * option error);
  svc_Update : C → Context → GoValue → ptr → Exec (option error);
  svc_UpdateAttributes :
    C → Context → gmap string GoValue → ptr → Exec (option error);
  svc_Delete : C → Context → GoValue → Exec (option error);
  svc_DeleteRange : C → Context → gmap string GoValue → Exec (option error);
  svc_ListAll : C → Context → Exec (slice bson.Struct * option error);
  svc_Find :
    C → Context → gmap string GoValue →
    Exec (option bson.Struct * option error);
  svc_Exists :
    C → Context → gmap string GoValue →
    Exec (option bson.Struct * bool * option error);
  svc_List :
    C → Context → gmap string GoValue →
    Exec (slice bson.Struct * option error);
  svc_CreateIndex :
    C → Context → gmap string Z → bool → Exec (string * option error)
}.

Definition genericObjectDBCtrl_service {R : MapRange} (T : bson.StructType)
  : CRUDDBService genericObjectDBCtrl :=
  {| svc_Create := Create;
     svc_Get := Get T;
     svc_Update := Update;
     svc_UpdateAttributes := UpdateAttributes;
     svc_Delete := Delete;
     svc_DeleteRange := DeleteRange;
     svc_ListAll := ListAll T;
     svc_Find := Find T;
     svc_Exists := Exists T;
     svc_List := List T;
     svc_CreateIndex := CreateIndex |}.

(* ===================================================================== *)
(** ** The connector, [Connect] *)
(* ===================================================================== *)

(** The deployment as the connector meets it.  Each attempt to construct a
    client and each ping consumes the next scripted outcome ([None] is
    success); an exhausted script means the server cannot be reached. *)
Module connector.

Record ClientOptions := mkClientOptions { uri : string }.

Record Client := mkClient { client_options : ClientOptions }.

(** A [*mongo.Database]: a client and the name it is scoped to. *)
Record Database := mkDatabase { db_client : Client; db_name : string }.

Inductive DriverCall :=
| CallConnect (ctx : Context) (opts : ClientOptions)
| CallPing (ctx : Context)
| CallOther (what : string).

Record Net := mkNet {
  connect_script : list (option error);
  ping_script : list (option error);
  net_calls : list DriverCall
}.

Definition Conn (A : Type) : Type := Net → A * Net.

(** The outcome the next attempt meets. *)
Definition next_outcome (script : list (option error)) : option error :=
  match script with
  | [] => Some ErrNetwork
  | o :: _ => o
  end.

(** [options.Client().ApplyURI(uri)]. *)
Definition options_Client_ApplyURI (u : string) : ClientOptions :=
  {| uri := u |}.

(** [mongo.Connect(ctx, opts)]. *)
Definition mongo_Connect (ctx : Context) (opts : ClientOptions)
  : Conn (error + Client) :=
  λ n,
    let calls' := net_calls n ++ [CallConnect ctx opts] in
    match connect_script n with
    | [] => (inl ErrNetwork, mkNet [] (ping_script n) calls')
    | Some e :: rest => (inl e, mkNet rest (ping_script n) calls')
    | None :: rest => (inr (mkClient opts), mkNet rest (ping_script n) calls')
    end.

(** [client.Ping(ctx, nil)]. *)
Definition Client_Ping (cl : Client) (ctx : Context) : Conn (option error) :=
  λ n,
    let calls' := net_calls n ++ [CallPing ctx] in
    match ctx_Err ctx with
    | Some e => (Some e, mkNet (connect_script n) (ping_script n) calls')
    | None =>
        match ping_script n with
        | [] => (Some ErrNetwork, mkNet (connect_script n) [] calls')
        | o :: rest => (o, mkNet (connect_script n) rest calls')
        end
    end.

(** [client.Database(name)]: a handle, no round trip. *)
Definition Client_Database (cl : Client) (name : string) : Database :=
  {| db_client := cl; db_name := name |}.

Definition Connect (ctx : Context) (dbConnectionUrl : string) (dbName : string)
  : Conn (option Database * option error) :=
  λ n,
    let clientOptions := options_Client_ApplyURI dbConnectionUrl in
    match mongo_Connect ctx clientOptions n with
    | (inl err, n1) =>
        let err := fmt_Errorf_s "failed to mongo.Connect: " err in
        ((None, Some err), n1)
    | (inr dbClient, n1) =>
        match Client_Ping dbClient ctx n1 with
        | (Some err, n2) =>
            let err := fmt_Errorf_s "failed to dbClient.Ping: " err in
            ((None, Some err), n2)
        | (None, n2) => ((Some (Client_Database dbClient dbName), None), n2)
        end
    end.

End connector.

(* ===================================================================== *)
(** ** Reading a record: the vocabulary of the statements *)
(* ===================================================================== *)

(** The value of the field called [name], as
    [reflect.ValueOf(item).Elem().FieldByName(name).Interface()] reads it;
    [None] when the record type declares no such field. *)
Definition field_value (name : string) (s : bson.Struct) : option GoValue :=
  i ← reflect.field_index name s; bson.f_val <$> s !! i.

(** The field called [name], when declared, is a timestamp attribute: a
    [time.Time] can be assigned to it. *)
Definition timestamp_typed (name : string) (s : bson.Struct) : bool :=
  match reflect.field_index name s with
  | None => true
  | Some i =>
      match s !! i with
      | Some f => assignable (GTime 0) (bson.f_type (bson.f_decl f))
      | None => true
      end
  end.

(** The record [s] with time [t] stored in its field [name], when it has
    one. *)
Definition stamped (name : string) (t : Time) (s : bson.Struct) : bson.Struct :=
  match reflect.field_index name s with
  | None => s
  | Some i =>
      match s !! i with
      | Some f => <[i := bson.mkField (bson.f_decl f) (GTime t)]> s
      | None => s
      end
  end.

(** [bson.Marshal] accepts the record. *)
Definition serializable (s : bson.Struct) : bool :=
  match bson.encode_struct s with
  | inr _ => true
  | inl _ => false
  end.

(** The world with the record at [p] replaced. *)
Definition store_record (p : nat) (s : bson.Struct) (w : World) : World :=
  set_heap (<[p := s]> (heap w)) w.

(** Decoding a batch of documents in order; the first failure aborts. *)
Fixpoint decode_list (T : bson.StructType) (docs : list bson.Document)
  : error + list bson.Struct :=
  match docs with
  | [] => inr []
  | d :: rest =>
      match bson.decode_struct d (bson.zero_struct T) with
      | inl e => inl e
      | inr r =>
          match decode_list T rest with
          | inl e => inl e
          | inr rs => inr (r :: rs)
          end
      end
  end.

(** No document of [docs] satisfies [filter]. *)
Definition none_matches (filter : bson.Document) (docs : list bson.Document)
  : bool :=
  forallb (λ d, negb (mongo.matches filter d)) docs.

(** The value has a BSON encoding. *)
Definition encodable (v : GoValue) : bool :=
  match bson.encode_value v with
  | inr _ => true
  | inl _ => false
  end.

(** No document of [docs] has the identifier [id].  An identifier
    without a BSON encoding is the identifier of no document. *)
Definition id_matches_none (id : GoValue) (docs : list bson.Document) : bool :=
  match bson.encode_value id with
  | inr bid => none_matches [("_id", bid)] docs
  | inl _ => true
  end.

(** Running [m] keeps the collection as it is when it is [docs]. *)
Definition keeps_coll {A} (docs : list bson.Document) (m : Exec A) : Prop :=
  ∀ w, coll w = docs → coll (m w).2 = docs.

(** The world in which [Create] issues its store call: the start line is
    logged, the clock has been read once, and the record is stamped. *)
Definition Create_stamped_world (p : nat) (s : bson.Struct) (w : World) : World :=
  store_record p
    (stamped "UpdatedAt" (clock w) (stamped "CreatedAt" (clock w) s))
    (set_clock (clock w + 1)
       (set_logs (logs w ++ ["DB DEBUG: Started c.db.InsertOne(ctx, &item)"]) w)).

(** The world in which [Update] serializes the record and issues its store
    call. *)
Definition Update_stamped_world (p : nat) (s : bson.Struct) (w : World) : World :=
  store_record p (stamped "UpdatedAt" (clock w) s)
    (set_clock (clock w + 1)
       (set_logs (logs w ++ ["DB DEBUG: Started c.db.UpdateOne"]) w)).

Definition Update_finished (w : World) : World :=
  set_logs (logs w ++ ["DB DEBUG: finished c.db.UpdateOne"]) w.

(** The [bson.M] that [bson.Unmarshal] makes of serialized data. *)
Definition unmarshalled (dataByte : bson.Document) : bson.M :=
  foldl (λ (m : bson.M) kv, <[kv.1 := bson.decode_any kv.2]> m) ∅ dataByte.

(** The [$set] document [Update] builds from the serialized record. *)
Definition Update_set_doc (dataByte : bson.Document) : mongo.Update :=
  make_slice [mongo.mkUpdateE "$set" (unmarshalled dataByte)].

(** What a cursor over [matched] delivers in the world [w]: all of it, or
    its first batch when the cursor then fails. *)
Definition delivered (w : World) (matched : list bson.Document)
  : list bson.Document :=
  match cursor_fault w with
  | None => matched
  | Some n => take (S n) matched
  end.

(** Every store call that [m] issues is handed the context [ctx]. *)
Definition calls_under {A} (ctx : Context) (m : Exec A) : Prop :=
  ∀ w, ∃ l, calls (m w).2 = calls w ++ l
            ∧ Forall (λ c, call_ctx c = ctx) l.

Section Answers.
Context {R : MapRange}.

(** What [FindOne] answers: it depends on the world through the
    collection and the reachability of the server only. *)
Definition FindOne_answer (ctx : Context) (filter : mongo.Filter) (w : World)
  : mongo.SingleResult :=
  match mongo.encode_filter filter with
  | inl e => mongo.mkSingleResult (Some e) None
  | inr f =>
      match mongo.round_trip ctx w with
      | Some e => mongo.mkSingleResult (Some e) None
      | None => mongo.mkSingleResult None (find (mongo.matches f) (coll w))
      end
  end.

(** What a listing returns for the filter it submits. *)
Definition query_answer (T : bson.StructType) (ctx : Context)
    (filter : mongo.Filter) (w : World) : slice bson.Struct * option error :=
  match mongo.encode_filter filter with
  | inl e => (nil_slice, Some e)
  | inr f =>
      match mongo.round_trip ctx w with
      | Some e => (nil_slice, Some e)
      | None =>
          match decode_list T
                  (delivered w (List.filter (mongo.matches f) (coll w))) with
          | inl e => (nil_slice, Some e)
          | inr rs => (make_slice rs, None)
          end
      end
  end.

End Answers.

(* ===================================================================== *)
(** ** Further vocabulary: frames, stored forms, well-formed records *)
(* ===================================================================== *)

(** [w'] differs from [w] in the call log and the debug log at most. *)
Definition same_state (w w' : World) : Prop :=
  clock w' = clock w ∧ heap w' = heap w ∧ maps w' = maps w
  ∧ coll w' = coll w ∧ indexes w' = indexes w
  ∧ server_up w' = server_up w ∧ next_oid w' = next_oid w
  ∧ cursor_fault w' = cursor_fault w ∧ set_path w' = set_path w.

(** Running [m] changes nothing but the two logs. *)
Definition reads_only {A} (m : Exec A) : Prop :=
  ∀ w, same_state w (m w).2.

(** The value of a field of type [ty] after a trip through BSON.  In a
    field of its own type a time is cut to milliseconds.  In a field of
    type [any] the value comes back with the type the decoder gives it: a
    time as [primitive.DateTime], an [int] as [int32] or [int64]. *)
Definition stored_value (ty : GoType) (v : GoValue) : GoValue :=
  match ty, v with
  | TAny, GInt z => if bson.fits32 z then GInt32 z else GInt64 z
  | TAny, GTime t => GDateTime (t `div` bson.nanos_per_milli)
  | _, GTime t => GTime (t `div` bson.nanos_per_milli * bson.nanos_per_milli)
  | _, _ => v
  end.

(** The record that decoding the encoding of [s] gives: exported fields
    with their values as stored, unexported fields at zero. *)
Definition as_stored (s : bson.Struct) : bson.Struct :=
  map (λ f, bson.mkField (bson.f_decl f)
              (if is_exported (bson.f_name (bson.f_decl f))
               then stored_value (bson.f_type (bson.f_decl f)) (bson.f_val f)
               else zero_value (bson.f_type (bson.f_decl f)))) s.

(** The value is one a field of type [ty] holds and BSON encodes. *)
Definition value_fits (v : GoValue) (ty : GoType) : bool :=
  match ty with
  | TFunc _ => false
  | TAny => encodable v
  | _ => bool_decide (type_of v = Some ty)
  end.

Definition field_ok (f : bson.Field) : bool :=
  negb (is_exported (bson.f_name (bson.f_decl f)))
  || value_fits (bson.f_val f) (bson.f_type (bson.f_decl f)).

(** The BSON keys of the exported fields, in declaration order. *)
Definition exported_keys (s : bson.Struct) : list string :=
  map (λ f, bson.f_key (bson.f_decl f))
      (List.filter (λ f, is_exported (bson.f_name (bson.f_decl f))) s).

(** A record as the Go compiler and the struct codec accept it: every
    exported field holds a value of its type that BSON encodes, and no two
    exported fields share a BSON key. *)
Definition record_ok (s : bson.Struct) : bool :=
  forallb field_ok s && bool_decide (NoDup (exported_keys s)).

(** The identifier under which the record is stored: the value its
    encoding has under [_id]. *)
Definition record_id (s : bson.Struct) : option bson.BValue :=
  match bson.encode_struct s with
  | inr d => bson.doc_lookup "_id" d
  | inl _ => None
  end.

(** The document as [InsertOne] submits it: one without [_id] gets the
    generated identifier [n] in front. *)
Definition with_id (n : nat) (d : bson.Document) : bson.Document :=
  match bson.doc_lookup "_id" d with
  | Some _ => d
  | None => ("_id", bson.BObjectID n) :: d
  end.

(** The world in which [UpdateAttributes] serializes the attribute map and
    issues its store call: the caller's map [m] at [p] holds the stamp. *)
Definition UpdateAttributes_world (p : nat) (m : gmap string GoValue)
    (w : World) : World :=
  set_maps (<[p := <["updated_at" := GTime (clock w)]> m]> (maps w))
    (set_clock (clock w + 1)
       (set_logs (logs w ++ ["DB DEBUG: Started c.db.UpdateMany"]) w)).

Definition UpdateAttributes_finished (w : World) : World :=
  set_logs (logs w ++ ["DB DEBUG: finished c.db.UpdateMany"]) w.

(** Two outcomes of encoding the entries of one map in two orders: an
    error each, or the same constraints in some order. *)
Definition same_filter (a b : error + bson.Document) : Prop :=
  match a, b with
  | inr d1, inr d2 => d1 ≡ₚ d2
  | inl _, inl _ => True
  | _, _ => False
  end.

(** A name the store reads as the name of a field of the document itself:
    no operator and no path. *)
Definition field_name (k : string) : bool :=
  negb (mongo.dollar_prefixed k) && negb (mongo.dotted k).

(** A field name that [$set] can assign. *)
Definition settable_name (k : string) : bool :=
  negb (bool_decide (k = "")) && field_name k.

(** Document [d] holds value [v] under [k]: the encoding of [v], numbers
    compared by value, and for [nil] also no field at all. *)
Definition holds (d : bson.Document) (k : string) (v : GoValue) : bool :=
  match bson.encode_value v with
  | inr bv => mongo.field_matches d (k, bv)
  | inl _ => false
  end.

(** Document [d] satisfies the selector map: it holds, under every key of
    the map, the value of the map. *)
Definition selected (sels : gmap string GoValue) (d : bson.Document) : bool :=
  bool_decide (map_Forall (λ k v, holds d k v = true) sels).

(** From [docs] to [docs'] at most the first document with identifier
    [bid] was rewritten, in its place and under its identifier. *)
Definition rewrites_one_id (bid : bson.BValue)
    (docs docs' : list bson.Document) : Prop :=
  docs' = docs
  ∨ ∃ l1 d0 d' l2,
      docs = l1 ++ d0 :: l2 ∧ docs' = l1 ++ d' :: l2
      ∧ none_matches [("_id", bid)] l1 = true
      ∧ mongo.matches [("_id", bid)] d0 = true
      ∧ bson.doc_lookup "_id" d' = bson.doc_lookup "_id" d0.

(** Started on the collection [docs], [m] ends on one that satisfies [Q]. *)
Definition coll_post {A} (docs : list bson.Document)
    (Q : list bson.Document → Prop) (m : Exec A) : Prop :=
  ∀ w, coll w = docs → Q (coll (m w).2).

(** What a cursor hands out of its pending documents when it still
    delivers [served] of them. *)
Definition handed_out (served : option nat) (pending : list bson.Document)
  : list bson.Document :=
  match served with
  | None => pending
  | Some n => take n pending
  end.

(* ===================================================================== *)
(** ** A sample instantiation *)
(* ===================================================================== *)

(** [type User struct { ID int `bson:"_id"`; Name string `bson:"name"`;
    CreatedAt time.Time `bson:"created_at"`; UpdatedAt time.Time
    `bson:"updated_at"` }], a controller for it, and a few worlds. *)
Module Sample.

Definition idF := bson.mkFieldDecl "ID" "_id" TInt.
Definition nameF := bson.mkFieldDecl "Name" "name" TString.
Definition createdF := bson.mkFieldDecl "CreatedAt" "created_at" TTime.
Definition updatedF := bson.mkFieldDecl "UpdatedAt" "updated_at" TTime.

Definition User : bson.StructType := [idF; nameF; createdF; updatedF].

Definition user (id : Z) (name : string) (created updated : Time)
  : bson.Struct :=
  [ bson.mkField idF (GInt id); bson.mkField nameF (GString name);
    bson.mkField createdF (GTime created);
    bson.mkField updatedF (GTime updated) ].

(** A record type without timestamp attributes. *)
Definition Tag : bson.StructType := [idF; nameF].

Definition tag (id : Z) (name : string) : bson.Struct :=
  [ bson.mkField idF (GInt id); bson.mkField nameF (GString name) ].

Definition ann_doc : bson.Document :=
  [("_id", bson.BInt32 7); ("name", bson.BString "ann");
   ("created_at", bson.BDateTime 1); ("updated_at", bson.BDateTime 2)].

Definition bob_doc : bson.Document :=
  [("_id", bson.BInt32 8); ("name", bson.BString "bob");
   ("created_at", bson.BDateTime 3); ("updated_at", bson.BDateTime 4)].

(** A record type whose [CreatedAt] is a string, and one with a field
    BSON has no encoder for. *)
Definition memo : bson.Struct :=
  [ bson.mkField idF (GInt 4);
    bson.mkField (bson.mkFieldDecl "CreatedAt" "created_at" TString)
      (GString "yesterday") ].

Definition hook : bson.Struct :=
  [ bson.mkField idF (GInt 5);
    bson.mkField (bson.mkFieldDecl "Callback" "callback" (TFunc "func()"))
      (GFunc "func()") ].

(** A document with a field whose name is the empty string. *)
Definition odd_doc : bson.Document :=
  [("_id", bson.BInt32 9); ("", bson.BInt32 5); ("name", bson.BString "odd")].

(** The sample documents have no embedded documents and the sample calls
    set no dotted name; the sample worlds answer such a [$set] with an
    error. *)
Definition no_paths : PathSet :=
  λ _ _ _, inl (ErrWrite "Cannot create field in element").

(** The caller holds a [User] at address 1, a [Tag] at address 2, the two
    odd records at addresses 3 and 4, and an attribute map at address 1.
    Cursors deliver all they have. *)
Definition world (docs : list bson.Document) (up : bool) : World :=
  {| clock := 5000000;
     heap := {[ 1%nat := user 7 "ann" 11 22; 2%nat := tag 3 "red";
                3%nat := memo; 4%nat := hook ]};
     maps := {[ 1%nat := {[ "name" := GString "eve";
                            "updated_at" := GString "stale" ]} ]};
     coll := docs;
     indexes := [];
     server_up := up;
     next_oid := 0;
     calls := [];
     logs := [];
     cursor_fault := None;
     set_path := no_paths |}.

Definition c : genericObjectDBCtrl :=
  NewGenericObjectDBCtrl (mongo.mkCollection "users").

Definition live : Context := Derived 1 false.
Definition cancelled : Context := Derived 2 true.

End Sample.

(** Further documents for the sample collection. *)
Module Scene.

(** Another document with the name of the [Tag] at address 2. *)
Definition red_doc : bson.Document :=
  [("_id", bson.BInt32 99); ("name", bson.BString "red")].

(** A document whose [name] is a number: it does not decode into a
    [User]. *)
Definition bad_doc : bson.Document :=
  [("_id", bson.BInt32 1); ("name", bson.BInt32 5)].

(** A second document with the name of [ann_doc]. *)
Definition ann_twin : bson.Document :=
  [("_id", bson.BInt32 17); ("name", bson.BString "ann");
   ("created_at", bson.BDateTime 5); ("updated_at", bson.BDateTime 6)].

(** A document with the same name whose [created_at] is a string: it does
    not decode into a [User]. *)
Definition bad_ann : bson.Document :=
  [("_id", bson.BInt32 2); ("name", bson.BString "ann");
   ("created_at", bson.BString "soon")].

(** [type Note struct { ID int `bson:"_id"`; Extra any `bson:"extra"` }]. *)
Definition Note : bson.StructType :=
  [Sample.idF; bson.mkFieldDecl "Extra" "extra" TAny].

Definition note (extra : GoValue) : bson.Struct :=
  [ bson.mkField Sample.idF (GInt 6);
    bson.mkField (bson.mkFieldDecl "Extra" "extra" TAny) extra ].

(** The [User] at address 1 as [Create] at clock 5000000 stores it. *)
Definition ann_stored : bson.Struct := Sample.user 7 "ann" 5000000 5000000.

(** The world [w] with cursors that fail after a first batch of [n + 1]
    documents. *)
Definition with_fault (n : nat) (w : World) : World :=
  mkWorld (clock w) (heap w) (maps w) (coll w) (indexes w) (server_up w)
          (next_oid w) (calls w) (logs w) (Some n) (set_path w).

End Scene.

(* ===================================================================== *)
(** ** Lemmas on records and stamping *)
(* ===================================================================== *)

Lemma field_index_lookup name s i :
  reflect.field_index name s = Some i →
  ∃ f, s !! i = Some f ∧ bson.f_name (bson.f_decl f) = name.
Proof.
  revert i. induction s as [|f s IH]; intros i; simpl; [done|].
  case_bool_decide as Hn.
  - intros [= <-]. eauto.
  - destruct (reflect.field_index name s) as [j|] eqn:Hj; simpl; [|done].
    intros [= <-]. destruct (IH j eq_refl) as (g & Hg & Hname). eauto.
Qed.

Lemma field_index_first name s i j f :
  reflect.field_index name s = Some i →
  s !! j = Some f → bson.f_name (bson.f_decl f) = name → (i ≤ j)%nat.
Proof.
  revert i j. induction s as [|g s IH]; intros i j; simpl; [done|].
  case_bool_decide as Hn.
  - intros [= <-] _ _. lia.
  - destruct (reflect.field_index name s) as [k|] eqn:Hk; simpl; [|done].
    intros [= <-]. destruct j as [|j]; simpl.
    + intros [= ->] Hname. done.
    + intros Hj Hname. specialize (IH k j eq_refl Hj Hname). lia.
Qed.

Lemma assignable_time t t' ty : assignable (GTime t) ty = assignable (GTime t') ty.
Proof. by destruct ty. Qed.

(** Replacing the value of a field keeps every field where it is. *)
Lemma field_index_set_val name s i f v :
  s !! i = Some f →
  reflect.field_index name (<[i := bson.mkField (bson.f_decl f) v]> s)
  = reflect.field_index name s.
Proof.
  revert i. induction s as [|g s IH]; intros i; [done|].
  destruct i as [|i]; simpl.
  - intros [= ->]. done.
  - intros Hi. case_bool_decide; [done|]. f_equal. exact (IH i Hi).
Qed.

Lemma field_index_stamped name name' t s :
  reflect.field_index name (stamped name' t s) = reflect.field_index name s.
Proof.
  unfold stamped. destruct (reflect.field_index name' s) as [i|]; [|done].
  destruct (s !! i) as [f|] eqn:Hf; [|done].
  by apply field_index_set_val.
Qed.

Lemma stamped_decl name t s j :
  bson.f_decl <$> stamped name t s !! j = bson.f_decl <$> s !! j.
Proof.
  unfold stamped. destruct (reflect.field_index name s) as [i|]; [|done].
  destruct (s !! i) as [f|] eqn:Hf; [|done].
  destruct (decide (i = j)) as [->|Hne].
  - rewrite list_lookup_insert_eq; [|by eapply lookup_lt_Some].
    by rewrite Hf.
  - by rewrite list_lookup_insert_ne.
Qed.

Lemma timestamp_typed_stamped name name' t s :
  timestamp_typed name (stamped name' t s) = timestamp_typed name s.
Proof.
  unfold timestamp_typed. rewrite field_index_stamped.
  destruct (reflect.field_index name s) as [i|]; [|done].
  pose proof (stamped_decl name' t s i) as Hd.
  destruct (stamped name' t s !! i) as [f'|], (s !! i) as [f|];
    simpl in Hd; try done.
  by injection Hd as ->.
Qed.

(** A declared field reads as the stamp afterwards. *)
Lemma field_value_stamped_eq name t s :
  is_Some (field_value name s) →
  field_value name (stamped name t s) = Some (GTime t).
Proof.
  unfold field_value. rewrite field_index_stamped. unfold stamped.
  destruct (reflect.field_index name s) as [i|]; simpl; [|by intros [? ?]].
  destruct (s !! i) as [f|] eqn:Hf; simpl; [|by intros [? ?]].
  intros _. rewrite list_lookup_insert_eq; [done|by eapply lookup_lt_Some].
Qed.

(** Every other field reads as before. *)
Lemma field_value_stamped_ne name name' t s :
  name ≠ name' → field_value name (stamped name' t s) = field_value name s.
Proof.
  intros Hne. unfold field_value. rewrite field_index_stamped.
  destruct (reflect.field_index name s) as [j|] eqn:Hj; simpl; [|done].
  unfold stamped.
  destruct (reflect.field_index name' s) as [i|] eqn:Hi; [|done].
  destruct (s !! i) as [f|] eqn:Hf; [|done].
  destruct (field_index_lookup _ _ _ Hj) as (g & Hg & Hgn).
  destruct (field_index_lookup _ _ _ Hi) as (f' & Hf' & Hfn).
  assert (i ≠ j) by (intros ->; congruence).
  by rewrite list_lookup_insert_ne.
Qed.

(** A record without the field is left as it is. *)
Lemma stamped_absent name t s : field_value name s = None → stamped name t s = s.
Proof.
  unfold field_value, stamped.
  destruct (reflect.field_index name s) as [i|] eqn:Hi; simpl; [|done].
  destruct (field_index_lookup _ _ _ Hi) as (f & -> & _). done.
Qed.

(* ===================================================================== *)
(** ** Stamping through [reflect] *)
(* ===================================================================== *)

Lemma store_record_same p s w : heap w !! p = Some s → store_record p s w = w.
Proof.
  intros Hp. unfold store_record, set_heap. rewrite insert_id by done.
  by destruct w.
Qed.

Lemma store_record_twice p s s' w :
  store_record p s' (store_record p s w) = store_record p s' w.
Proof. unfold store_record, set_heap. simpl. by rewrite insert_insert_eq. Qed.

Lemma heap_store_record p s w : heap (store_record p s w) !! p = Some s.
Proof. unfold store_record. simpl. apply lookup_insert_eq. Qed.

(** One stamping step of [Create] and [Update], followed by the rest [k] of
    the body: the field lookup, the guard and the [Set] come to storing
    the stamped record. *)
Lemma stamp_then {B} p name t s w (k : Exec B) :
  heap w !! p = Some s →
  is_exported name = true →
  timestamp_typed name s = true →
  (v <- reflect.ValueOf_Elem_FieldByName (Some p) name ;;
   (if reflect.IsValid v && reflect.CanSet v
    then reflect.Set_ v (GTime t)
    else exec_ret tt) ;;;
   k) w
  = k (store_record p (stamped name t s) w).
Proof.
  intros Hp Hexp Hty.
  unfold exec_bind at 1, reflect.ValueOf_Elem_FieldByName. rewrite Hp.
  unfold timestamp_typed in Hty. unfold stamped.
  destruct (reflect.field_index name s) as [i|] eqn:Hi.
  - destruct (field_index_lookup _ _ _ Hi) as (f & Hf & _).
    rewrite Hf in Hty |- *.
    unfold exec_bind, reflect.Set_. simpl. rewrite Hexp. simpl.
    rewrite Hp, Hf, (assignable_time t 0), Hty. done.
  - unfold exec_bind. simpl. by rewrite store_record_same.
Qed.

Lemma is_exported_CreatedAt : is_exported "CreatedAt" = true.
Proof. reflexivity. Qed.

Lemma is_exported_UpdatedAt : is_exported "UpdatedAt" = true.
Proof. reflexivity. Qed.

Section ControllerFacts.
Context {R : MapRange}.

(** [Create] on a record whose timestamp attributes can hold a time: the
    store call runs in the stamped world, and the finish line is logged
    after it. *)
Lemma Create_run c ctx p s w :
  heap w !! p = Some s →
  timestamp_typed "CreatedAt" s = true →
  timestamp_typed "UpdatedAt" s = true →
  Create c ctx (Some p) w =
    ((mongo.InsertOne ctx (Some p) (Create_stamped_world p s w)).1,
     set_logs
       (logs (mongo.InsertOne ctx (Some p) (Create_stamped_world p s w)).2
          ++ ["DB DEBUG: finished c.db.InsertOne(ctx, &item)"])
       (mongo.InsertOne ctx (Some p) (Create_stamped_world p s w)).2).
Proof.
  intros Hp Hc Hu. unfold Create.
  unfold exec_bind at 1. simpl. unfold with_defer.
  unfold exec_bind at 1. simpl.
  erewrite stamp_then; [|exact Hp|exact is_exported_CreatedAt|exact Hc].
  erewrite stamp_then;
    [|apply heap_store_record|exact is_exported_UpdatedAt
     |by rewrite timestamp_typed_stamped].
  rewrite store_record_twice. fold (Create_stamped_world p s w).
  unfold exec_bind.
  destruct (mongo.InsertOne ctx (Some p) (Create_stamped_world p s w))
    as [[[e|]|msg] w2]; done.
Qed.

Lemma Update_run c ctx id p s w :
  heap w !! p = Some s →
  timestamp_typed "UpdatedAt" s = true →
  Update c ctx id (Some p) w =
    match bson.encode_struct (stamped "UpdatedAt" (clock w) s) with
    | inl err => (Done (Some err), Update_finished (Update_stamped_world p s w))
    | inr dataByte =>
        let r := mongo.UpdateOne ctx (mongo.FilterM {[ "_id" := id ]})
                   (Update_set_doc dataByte) (Update_stamped_world p s w) in
        (match r.1 with
         | Done x => Done x.2
         | Panic msg => Panic msg
         end, Update_finished r.2)
    end.
Proof.
  intros Hp Hu. unfold Update.
  unfold exec_bind at 1. simpl. unfold with_defer.
  unfold exec_bind at 1. simpl.
  erewrite stamp_then; [|exact Hp|exact is_exported_UpdatedAt|exact Hu].
  fold (Update_stamped_world p s w).
  unfold exec_bind at 1, bson_Marshal_ptr. simpl.
  rewrite lookup_insert_eq.
  destruct (bson.encode_struct (stamped "UpdatedAt" (clock w) s))
    as [err|dataByte]; [done|].
  simpl. unfold exec_bind.
  fold (unmarshalled dataByte). fold (Update_set_doc dataByte).
  destruct (mongo.UpdateOne ctx (mongo.FilterM {[ "_id" := id ]})
              (Update_set_doc dataByte) (Update_stamped_world p s w))
    as [[[res [e|]]|msg] w2]; done.
Qed.

(** *** The store calls *)

Lemma range_of_empty {V} : range_of (∅ : gmap string V) = [].
Proof.
  apply Permutation_nil_r. rewrite range_of_perm. by rewrite map_to_list_empty.
Qed.

Lemma range_of_singleton {V} (k : string) (v : V) :
  range_of ({[ k := v ]} : gmap string V) = [(k, v)].
Proof.
  apply Permutation_singleton_r. rewrite range_of_perm.
  by rewrite map_to_list_singleton.
Qed.

Lemma encode_filter_id id bid :
  bson.encode_value id = inr bid →
  mongo.encode_filter (mongo.FilterM {[ "_id" := id ]}) = inr [("_id", bid)].
Proof.
  intros Hid. unfold mongo.encode_filter, mongo.filter_entries.
  rewrite range_of_singleton. simpl. by rewrite Hid.
Qed.

Lemma encode_filter_D_id id bid :
  bson.encode_value id = inr bid →
  mongo.encode_filter (mongo.FilterD (make_slice [bson.mkE "_id" id]))
  = inr [("_id", bid)].
Proof.
  intros Hid. unfold mongo.encode_filter, mongo.filter_entries.
  simpl. by rewrite Hid.
Qed.

Lemma find_none_of_all {A} (p : A → bool) (l : list A) :
  (∀ x, x ∈ l → p x = false) → find p l = None.
Proof.
  induction l as [|x l IH]; intros Hall; [done|]. simpl.
  rewrite (Hall x) by left. apply IH. intros y Hy. apply Hall. by right.
Qed.

Lemma none_matches_find f docs :
  none_matches f docs = true → find (mongo.matches f) docs = None.
Proof.
  intros Hnone. apply find_none_of_all. intros d Hd.
  unfold none_matches in Hnone. rewrite forallb_forall in Hnone.
  apply negb_true_iff, Hnone. by apply list_elem_of_In.
Qed.

(** What was decoded from BSON encodes again, to what it was. *)
Lemma encode_decode_any bv :
  bson.encode_value (bson.decode_any bv) = inr bv.
Proof. by destruct bv. Qed.

Lemma encode_entries_ok l :
  Forall (λ kv : string * GoValue, encodable kv.2 = true) l →
  ∃ d, bson.encode_entries l = inr d.
Proof.
  induction 1 as [|[k v] l Hv _ [d IH]]; simpl; [eauto|].
  unfold encodable in Hv. simpl in Hv.
  destruct (bson.encode_value v); [done|]. rewrite IH. eauto.
Qed.

Lemma unmarshalled_encodable dataByte k v :
  unmarshalled dataByte !! k = Some v → encodable v = true.
Proof.
  unfold unmarshalled.
  assert (∀ acc : bson.M,
            map_Forall (λ _ v, encodable v = true) acc →
            map_Forall (λ _ v, encodable v = true)
              (foldl (λ (m : bson.M) kv, <[kv.1 := bson.decode_any kv.2]> m)
                     acc dataByte)) as Hinv.
  { induction dataByte as [|[k1 v1] data IH]; intros acc Hacc; [done|].
    simpl. apply IH. apply map_Forall_insert_2; [|done].
    unfold encodable. by rewrite encode_decode_any. }
  intros Hk. by eapply (Hinv ∅ (map_Forall_empty _)).
Qed.

(** The update document of [Update] and [UpdateAttributes] always
    encodes: the one operator [$set] with the encoded fields. *)
Lemma encode_update_set_doc dataByte :
  ∃ fields,
    bson.encode_entries (range_of (unmarshalled dataByte)) = inr fields
    ∧ mongo.encode_update (Update_set_doc dataByte) = inr [("$set", fields)].
Proof.
  destruct (encode_entries_ok (range_of (unmarshalled dataByte)))
    as [fields Hf].
  { apply Forall_forall. intros [k v] Hin. simpl.
    rewrite range_of_perm in Hin. apply elem_of_map_to_list in Hin.
    by eapply unmarshalled_encodable. }
  exists fields. split; [done|].
  unfold mongo.encode_update, Update_set_doc. simpl. by rewrite Hf.
Qed.

(** [UpdateOne] when nothing matches the filter: no error, zero matched,
    and only the call log grows. *)
Lemma UpdateOne_no_match ctx filter f update u w :
  mongo.encode_filter filter = inr f →
  mongo.encode_update update = inr u →
  ctx_Err ctx = None →
  server_up w = true →
  (∀ d, d ∈ coll w → mongo.matches f d = false) →
  mongo.UpdateOne ctx filter update w =
    (Done (Some (mongo.mkUpdateResult 0 0), None),
     set_calls (calls w ++ [mkCall MUpdateOne ctx]) w).
Proof.
  intros Hf Hu Hctx Hup Hnone.
  unfold mongo.UpdateOne, exec_bind, mongo.log_call, mongo.round_trip.
  simpl. rewrite Hf, Hu, Hctx, Hup.
  by rewrite find_none_of_all.
Qed.

(** Storing an encodable value in a field keeps the record serializable. *)
Lemma serializable_set_val s i f v bv :
  s !! i = Some f →
  bson.encode_value v = inr bv →
  serializable s = true →
  serializable (<[i := bson.mkField (bson.f_decl f) v]> s) = true.
Proof.
  unfold serializable. revert i.
  induction s as [|g s IH]; intros i Hi Hv; [done|].
  destruct i as [|i]; simpl in Hi |- *.
  - injection Hi as ->. simpl.
    destruct (is_exported _); simpl; [|done].
    destruct (bson.f_type (bson.f_decl f)); try done;
      rewrite Hv; destruct (bson.encode_value (bson.f_val f)); try done;
      by destruct (bson.encode_struct s).
  - specialize (IH i Hi Hv).
    destruct (is_exported _); simpl; [|done].
    destruct (bson.f_type (bson.f_decl g)); try done;
      destruct (bson.encode_value (bson.f_val g)); try done;
      destruct (bson.encode_struct s); try done; intros _;
      by destruct (bson.encode_struct _); [discriminate (IH eq_refl)|].
Qed.

Lemma serializable_stamped name t s :
  serializable s = true → serializable (stamped name t s) = true.
Proof.
  intros Hs. unfold stamped.
  destruct (reflect.field_index name s) as [i|]; [|done].
  destruct (s !! i) as [f|] eqn:Hf; [|done].
  by eapply serializable_set_val.
Qed.

(** The store calls leave the Go heap alone. *)
Lemma heap_InsertOne ctx item w : heap (mongo.InsertOne ctx item w).2 = heap w.
Proof.
  unfold mongo.InsertOne, exec_bind, mongo.log_call. simpl.
  repeat case_match; simplify_eq; done.
Qed.

Lemma heap_UpdateOne ctx filter update w :
  heap (mongo.UpdateOne ctx filter update w).2 = heap w.
Proof.
  unfold mongo.UpdateOne, exec_bind, mongo.log_call. simpl.
  repeat case_match; simplify_eq; done.
Qed.

Lemma calls_InsertOne ctx item w :
  calls (mongo.InsertOne ctx item w).2 = calls w ++ [mkCall MInsertOne ctx].
Proof.
  unfold mongo.InsertOne, exec_bind, mongo.log_call. simpl.
  repeat case_match; simplify_eq; done.
Qed.

Lemma calls_UpdateOne ctx filter update w :
  calls (mongo.UpdateOne ctx filter update w).2
  = calls w ++ [mkCall MUpdateOne ctx].
Proof.
  unfold mongo.UpdateOne, exec_bind, mongo.log_call. simpl.
  repeat case_match; simplify_eq; done.
Qed.

(** What the caller finds behind [item] after [Create]. *)
Lemma Create_heap c ctx p s w :
  heap w !! p = Some s →
  timestamp_typed "CreatedAt" s = true →
  timestamp_typed "UpdatedAt" s = true →
  heap (Create c ctx (Some p) w).2 !! p
  = Some (stamped "UpdatedAt" (clock w) (stamped "CreatedAt" (clock w) s)).
Proof.
  intros Hp Hc Hu. rewrite (Create_run c ctx p s w Hp Hc Hu). simpl.
  rewrite heap_InsertOne. apply heap_store_record.
Qed.

(** What the caller finds behind [item] after [Update]. *)
Lemma Update_heap c ctx id p s w :
  heap w !! p = Some s →
  timestamp_typed "UpdatedAt" s = true →
  heap (Update c ctx id (Some p) w).2 !! p
  = Some (stamped "UpdatedAt" (clock w) s).
Proof.
  intros Hp Hu. rewrite (Update_run c ctx id p s w Hp Hu).
  destruct (bson.encode_struct (stamped "UpdatedAt" (clock w) s)); simpl.
  - apply lookup_insert_eq.
  - rewrite heap_UpdateOne. apply heap_store_record.
Qed.

(** *** [Update] of an identifier that matches nothing *)

Lemma keeps_coll_silent {A} docs (m : Exec A) :
  (∀ w, coll (m w).2 = coll w) → keeps_coll docs m.
Proof. intros Hm w Hw. by rewrite Hm. Qed.

Lemma keeps_coll_bind {A B} docs (m : Exec A) (k : A → Exec B) :
  keeps_coll docs m → (∀ a, keeps_coll docs (k a)) →
  keeps_coll docs (exec_bind m k).
Proof.
  intros Hm Hk w Hw. unfold exec_bind. specialize (Hm w Hw).
  destruct (m w) as [[a|msg] w1]; simpl in Hm; [|done].
  by apply Hk.
Qed.

Lemma keeps_coll_defer {A} docs (d : Exec unit) (body : Exec A) :
  keeps_coll docs d → keeps_coll docs body →
  keeps_coll docs (with_defer d body).
Proof.
  intros Hd Hb w Hw. unfold with_defer. specialize (Hb w Hw).
  destruct (body w) as [r w1]. simpl in *. by apply Hd.
Qed.

Lemma keeps_coll_FieldByName docs item name :
  keeps_coll docs (reflect.ValueOf_Elem_FieldByName item name).
Proof.
  apply keeps_coll_silent. intros w.
  unfold reflect.ValueOf_Elem_FieldByName. by repeat case_match.
Qed.

Lemma keeps_coll_Set docs v x : keeps_coll docs (reflect.Set_ v x).
Proof.
  apply keeps_coll_silent. intros w.
  unfold reflect.Set_. by repeat case_match.
Qed.

Lemma keeps_coll_Marshal docs item : keeps_coll docs (bson_Marshal_ptr item).
Proof.
  apply keeps_coll_silent. intros w.
  unfold bson_Marshal_ptr. by repeat case_match.
Qed.

(** [UpdateOne] on an identifier no document has writes nothing,
    whatever else happens to the call. *)
Lemma keeps_coll_UpdateOne docs ctx id update :
  id_matches_none id docs = true →
  keeps_coll docs
    (mongo.UpdateOne ctx (mongo.FilterM {[ "_id" := id ]}) update).
Proof.
  intros Hnone w Hw. unfold id_matches_none in Hnone.
  unfold mongo.UpdateOne, exec_bind, mongo.log_call,
    mongo.encode_filter, mongo.filter_entries.
  rewrite range_of_singleton. simpl.
  destruct (bson.encode_value id) as [e|bid]; [done|]. simpl.
  destruct (mongo.encode_update update) as [e|u]; [done|].
  destruct (mongo.round_trip ctx _); [done|]. simpl. rewrite Hw.
  by rewrite none_matches_find.
Qed.

Lemma Update_keeps_coll docs c ctx id item :
  id_matches_none id docs = true → keeps_coll docs (Update c ctx id item).
Proof.
  intros Hnone. unfold Update.
  repeat lazymatch goal with
    | |- keeps_coll _ (exec_bind _ _) => apply keeps_coll_bind; [|intros ?]
    | |- keeps_coll _ (with_defer _ _) => apply keeps_coll_defer
    | |- keeps_coll _ (mongo.UpdateOne _ _ _) => by apply keeps_coll_UpdateOne
    | |- keeps_coll _ (match ?x with _ => _ end) => destruct x
    | |- keeps_coll _ (reflect.ValueOf_Elem_FieldByName _ _) =>
        apply keeps_coll_FieldByName
    | |- keeps_coll _ (reflect.Set_ _ _) => apply keeps_coll_Set
    | |- keeps_coll _ (bson_Marshal_ptr _) => apply keeps_coll_Marshal
    | |- _ => by apply keeps_coll_silent
    end.
Qed.

(** C2. When the identifier matches no document, [Update] leaves the
    collection as it was, whatever the record, the context and the state
    of the server; and where the call reaches the store and is served
    (the record serializes, the context is live, the server is
    reachable), it returns no error. *)
Theorem Update_nonexistent_id_is_silent_noop c ctx id item w :
  id_matches_none id (coll w) = true →
  coll (Update c ctx id item w).2 = coll w
  ∧ (∀ p s,
       item = Some p →
       heap w !! p = Some s →
       timestamp_typed "UpdatedAt" s = true →
       serializable s = true →
       encodable id = true →
       ctx_Err ctx = None →
       server_up w = true →
       (Update c ctx id item w).1 = Done None).
Proof.
  intros Hnone. split; [by apply (Update_keeps_coll (coll w))|].
  intros p s -> Hp Hty Hser Hid Hctx Hup.
  unfold id_matches_none in Hnone. unfold encodable in Hid.
  destruct (bson.encode_value id) as [e|bid] eqn:Hbid; [done|].
  rewrite (Update_run c ctx id p s w Hp Hty).
  pose proof (serializable_stamped "UpdatedAt" (clock w) s Hser) as Hser'.
  unfold serializable in Hser'.
  destruct (bson.encode_struct (stamped "UpdatedAt" (clock w) s))
    as [err|dataByte]; [done|].
  destruct (encode_update_set_doc dataByte) as (fields & _ & Hupd).
  rewrite (UpdateOne_no_match ctx _ [("_id", bid)] _ _ _
             (encode_filter_id id bid Hbid) Hupd); try done.
  intros d Hd. unfold none_matches in Hnone.
    rewrite forallb_forall in Hnone. apply negb_true_iff, Hnone.
    by apply list_elem_of_In.
Qed.

(** C6. For a record whose [CreatedAt]/[UpdatedAt] attributes, where
    declared, are timestamps: after [Create] each declared one holds the
    time read at the call, whatever the caller had put there, and no other
    field has changed; after [Update] this holds of [UpdatedAt] alone, and
    [CreatedAt] is among the fields left as they were.  A record that
    declares neither is left exactly as it was. *)
Theorem timestamps_are_set_by_the_controller c ctx id p s w :
  heap w !! p = Some s →
  timestamp_typed "CreatedAt" s = true →
  timestamp_typed "UpdatedAt" s = true →
  (∃ s', heap (Create c ctx (Some p) w).2 !! p = Some s'
     ∧ (is_Some (field_value "CreatedAt" s) →
        field_value "CreatedAt" s' = Some (GTime (clock w)))
     ∧ (is_Some (field_value "UpdatedAt" s) →
        field_value "UpdatedAt" s' = Some (GTime (clock w)))
     ∧ (∀ name, name ≠ "CreatedAt" → name ≠ "UpdatedAt" →
        field_value name s' = field_value name s)
     ∧ (field_value "CreatedAt" s = None → field_value "UpdatedAt" s = None →
        s' = s))
  ∧ (∃ s', heap (Update c ctx id (Some p) w).2 !! p = Some s'
     ∧ (is_Some (field_value "UpdatedAt" s) →
        field_value "UpdatedAt" s' = Some (GTime (clock w)))
     ∧ (∀ name, name ≠ "UpdatedAt" →
        field_value name s' = field_value name s)
     ∧ (field_value "UpdatedAt" s = None → s' = s)).
Proof.
  intros Hp Hc Hu. split.
  - eexists. split; [by apply Create_heap|]. repeat split.
    + intros Hdecl. rewrite field_value_stamped_ne by done.
      by apply field_value_stamped_eq.
    + intros Hdecl. apply field_value_stamped_eq.
      by rewrite field_value_stamped_ne.
    + intros name Hn1 Hn2. by rewrite !field_value_stamped_ne.
    + intros Hn1 Hn2. rewrite (stamped_absent "CreatedAt") by done.
      by apply stamped_absent.
  - eexists. split; [by apply Update_heap|]. repeat split.
    + apply field_value_stamped_eq.
    + intros name Hn. by apply field_value_stamped_ne.
    + apply stamped_absent.
Qed.

Lemma doc_lookup_with_id n d bid :
  bson.doc_lookup "_id" d = Some bid → with_id n d = d.
Proof. unfold with_id. by intros ->. Qed.

(** [InsertOne] that returns no error has appended the encoding of the
    record, which the collection admitted, on a served call. *)
Lemma InsertOne_success ctx p s w :
  heap w !! p = Some s →
  (mongo.InsertOne ctx (Some p) w).1 = Done None →
  ∃ d, bson.encode_struct s = inr d
       ∧ mongo.round_trip ctx (mongo.InsertOne ctx (Some p) w).2 = None
       ∧ mongo.unique_ok (indexes w) (coll w ++ [with_id (next_oid w) d]) = true
       ∧ coll (mongo.InsertOne ctx (Some p) w).2
         = coll w ++ [with_id (next_oid w) d].
Proof.
  intros Hp. unfold mongo.InsertOne, exec_bind, mongo.log_call, with_id.
  simpl. rewrite Hp.
  destruct (bson.encode_struct s) as [e|d]; [done|].
  destruct (bson.doc_lookup "_id" d) as [v|] eqn:Hid.
  - destruct (mongo.round_trip ctx _) as [e|] eqn:Hrt; [done|].
    simpl. destruct (mongo.unique_ok _ _) eqn:Hu; [|done].
    intros _. exists d. by rewrite Hid.
  - destruct (mongo.round_trip ctx _) as [e|] eqn:Hrt; [done|].
    simpl. destruct (mongo.unique_ok _ _) eqn:Hu; [|done].
    intros _. exists d. by rewrite Hid.
Qed.

(** C10. [Create] and [Update] write the time through the pointer before
    they issue the store call.  The call runs in the world in which the
    record behind [item] is already the stamped one and no store call has
    been logged: what [Create] returns and stores is what [InsertOne]
    returns and stores in that world, so a document that gets stored is
    the encoding of the stamped record; what [Update] returns and writes
    is what [UpdateOne] does there with the serialized stamped record.
    The caller finds the stamped record behind [item] whatever the call
    returned.  At [Create] both attributes hold the one time read. *)
Theorem stamps_are_written_in_place_before_the_store_call c ctx id p s w :
  heap w !! p = Some s →
  (is_Some (field_value "CreatedAt" s) →
   is_Some (field_value "UpdatedAt" s) →
   timestamp_typed "CreatedAt" s = true →
   timestamp_typed "UpdatedAt" s = true →
   let s1 := stamped "UpdatedAt" (clock w) (stamped "CreatedAt" (clock w) s) in
   let w1 := Create_stamped_world p s w in
   field_value "CreatedAt" s1 = Some (GTime (clock w))
   ∧ field_value "UpdatedAt" s1 = Some (GTime (clock w))
   ∧ heap w1 !! p = Some s1
   ∧ calls w1 = calls w
   ∧ coll w1 = coll w
   ∧ (Create c ctx (Some p) w).1 = (mongo.InsertOne ctx (Some p) w1).1
   ∧ coll (Create c ctx (Some p) w).2
     = coll (mongo.InsertOne ctx (Some p) w1).2
   ∧ calls (Create c ctx (Some p) w).2 = calls w ++ [mkCall MInsertOne ctx]
   ∧ heap (Create c ctx (Some p) w).2 !! p = Some s1
   ∧ ((Create c ctx (Some p) w).1 = Done None →
      ∃ d, bson.encode_struct s1 = inr d
           ∧ coll (Create c ctx (Some p) w).2
             = coll w ++ [with_id (next_oid w) d]))
  ∧ (is_Some (field_value "UpdatedAt" s) →
     timestamp_typed "UpdatedAt" s = true →
     let s1 := stamped "UpdatedAt" (clock w) s in
     let w1 := Update_stamped_world p s w in
     field_value "UpdatedAt" s1 = Some (GTime (clock w))
     ∧ heap w1 !! p = Some s1
     ∧ calls w1 = calls w
     ∧ coll w1 = coll w
     ∧ heap (Update c ctx id (Some p) w).2 !! p = Some s1
     ∧ match bson.encode_struct s1 with
       | inl err =>
           (Update c ctx id (Some p) w).1 = Done (Some err)
           ∧ calls (Update c ctx id (Some p) w).2 = calls w
           ∧ coll (Update c ctx id (Some p) w).2 = coll w
       | inr dataByte =>
           (Update c ctx id (Some p) w).1 =
             match (mongo.UpdateOne ctx (mongo.FilterM {[ "_id" := id ]})
                      (Update_set_doc dataByte) w1).1 with
             | Done x => Done x.2
             | Panic msg => Panic msg
             end
           ∧ coll (Update c ctx id (Some p) w).2
             = coll (mongo.UpdateOne ctx (mongo.FilterM {[ "_id" := id ]})
                       (Update_set_doc dataByte) w1).2
           ∧ calls (Update c ctx id (Some p) w).2
             = calls w ++ [mkCall MUpdateOne ctx]
       end).
Proof.
  intros Hp. split.
  - intros Hdc Hdu Hc Hu. cbv zeta.
    assert (field_value "CreatedAt"
              (stamped "UpdatedAt" (clock w) (stamped "CreatedAt" (clock w) s))
            = Some (GTime (clock w))) as Hcv.
    { rewrite field_value_stamped_ne by done.
      by apply field_value_stamped_eq. }
    assert (field_value "UpdatedAt"
              (stamped "UpdatedAt" (clock w) (stamped "CreatedAt" (clock w) s))
            = Some (GTime (clock w))) as Huv.
    { apply field_value_stamped_eq. by rewrite field_value_stamped_ne. }
    assert (heap (Create_stamped_world p s w) !! p
            = Some (stamped "UpdatedAt" (clock w)
                      (stamped "CreatedAt" (clock w) s))) as Hw1
      by apply lookup_insert_eq.
    rewrite (Create_run c ctx p s w Hp Hc Hu).
    cbn [fst snd coll calls heap set_logs].
    rewrite calls_InsertOne, heap_InsertOne.
    split; [exact Hcv|]. split; [exact Huv|]. split; [exact Hw1|].
    do 6 (split; [done|]).
    intros Hdone.
    destruct (InsertOne_success ctx p _ (Create_stamped_world p s w) Hw1 Hdone)
      as (d & Hd & _ & _ & Hcoll).
    exists d. split; [exact Hd|exact Hcoll].
  - intros Hdu Hu. cbv zeta.
    split; [by apply field_value_stamped_eq|].
    split; [apply lookup_insert_eq|]. split; [done|]. split; [done|].
    split; [by apply Update_heap|].
    rewrite (Update_run c ctx id p s w Hp Hu).
    destruct (bson.encode_struct (stamped "UpdatedAt" (clock w) s))
      as [err|dataByte]; [done|].
    cbv zeta. cbn [fst snd]. unfold Update_finished.
    cbn [coll calls set_logs].
    by rewrite calls_UpdateOne.
Qed.

(** *** [Find] and [Exists] *)

Lemma with_defer_fst {A} (d : Exec unit) (body : Exec A) w :
  (with_defer d body w).1 = (body w).1.
Proof. unfold with_defer. by destruct (body w). Qed.


Lemma FindOne_run ctx filter w :
  mongo.FindOne ctx filter w =
    (Done (FindOne_answer ctx filter w),
     set_calls (calls w ++ [mkCall MFindOne ctx]) w).
Proof.
  unfold mongo.FindOne, FindOne_answer, exec_bind, mongo.log_call.
  simpl. unfold mongo.round_trip. simpl.
  repeat case_match; simplify_eq; done.
Qed.

(** What [Find] returns. *)
Lemma Find_result T c ctx sels w :
  (Find T c ctx sels w).1 =
    Done match mongo.SingleResult_Decode
                 (FindOne_answer ctx (mongo.FilterD (filter_of_sels sels)) w)
                 (bson.zero_struct T) with
         | inl err => (None, Some err)
         | inr result => (Some result, None)
         end.
Proof.
  unfold Find, exec_bind at 1, log_Debug, with_defer.
  unfold exec_bind. rewrite FindOne_run.
  replace (FindOne_answer ctx (mongo.FilterD (filter_of_sels sels))
             (set_logs _ w))
    with (FindOne_answer ctx (mongo.FilterD (filter_of_sels sels)) w)
    by done.
  by destruct (mongo.SingleResult_Decode _ _).
Qed.

Lemma Find_logs_irrelevant T c ctx sels l w :
  (Find T c ctx sels (set_logs l w)).1 = (Find T c ctx sels w).1.
Proof. by rewrite !Find_result. Qed.

(** The decoders fail with decoding errors, never with the no-documents
    condition. *)
Lemma decode_value_not_ErrNoDocuments ty bv e :
  bson.decode_value ty bv = inl e → errors_Is e ErrNoDocuments = false.
Proof.
  destruct bv, ty; simpl; try (intros [= <-]; done).
  destruct (bson.fits32 z); intros [= <-]; done.
Qed.

Lemma decode_struct_not_ErrNoDocuments d s e :
  bson.decode_struct d s = inl e → errors_Is e ErrNoDocuments = false.
Proof.
  revert e. induction s as [|f s IH]; intros e; simpl; [done|].
  destruct (bson.decode_struct d s) as [e'|s'].
  - specialize (IH e' eq_refl).
    repeat case_match; simplify_eq; intros; simplify_eq;
      eauto using decode_value_not_ErrNoDocuments.
  - repeat case_match; simplify_eq; intros; simplify_eq;
      eauto using decode_value_not_ErrNoDocuments.
Qed.

(** [Exists] in terms of what [Find] returns in the same world. *)
Lemma Exists_result T c ctx sels w :
  (Exists T c ctx sels w).1 =
    match (Find T c ctx sels w).1 with
    | Done (_, Some err) =>
        if errors_Is err ErrNoDocuments then Done (None, false, None)
        else Done (None, false, Some err)
    | Done (result, None) => Done (result, true, None)
    | Panic msg => Panic msg
    end.
Proof.
  rewrite <-(Find_logs_irrelevant T c ctx sels
               (logs w ++ ["DB DEBUG: Started c.Find(ctx, sels)"]) w).
  unfold Exists, exec_bind at 1, log_Debug. rewrite with_defer_fst.
  unfold exec_bind.
  destruct (Find T c ctx sels _) as [[[result [err|]]|msg] w']; simpl;
    [|done|done].
  by destruct (errors_Is err ErrNoDocuments).
Qed.


(** *** [List] and [ListAll] *)

Lemma round_trip_set_calls ctx cs w :
  mongo.round_trip ctx (set_calls cs w) = mongo.round_trip ctx w.
Proof. done. Qed.

Lemma round_trip_set_logs ctx l w :
  mongo.round_trip ctx (set_logs l w) = mongo.round_trip ctx w.
Proof. done. Qed.

(** The loop over a live cursor decodes, in order, the documents the
    cursor hands out; where the cursor fails the loop ends as at the end
    of the matches. *)
Lemma decode_all_result T ctx pending served acc w :
  mongo.round_trip ctx w = None →
  (decode_all T ctx pending served (make_slice acc) w).1 =
    Done match decode_list T (handed_out served pending) with
         | inl e => (nil_slice, Some e)
         | inr rs => (make_slice (acc ++ rs), None)
         end.
Proof.
  revert served acc w.
  induction pending as [|d pending IH]; intros served acc w Hrt.
  - simpl. unfold exec_bind, mongo.Cursor_Next, exec_bind, mongo.log_call.
    rewrite round_trip_set_calls, Hrt. simpl.
    destruct served as [[|n]|]; simpl; by rewrite app_nil_r.
  - simpl. unfold exec_bind at 1, mongo.Cursor_Next, exec_bind, mongo.log_call.
    rewrite round_trip_set_calls, Hrt. simpl.
    destruct served as [[|n]|]; simpl.
    + by rewrite app_nil_r.
    + destruct (bson.decode_struct d (bson.zero_struct T)) as [e|r]; [done|].
      unfold append. simpl elems.
      rewrite (IH (Some n)) by done. simpl.
      destruct (decode_list T (take n pending)) as [e|rs]; [done|].
      by rewrite <-app_assoc.
    + destruct (bson.decode_struct d (bson.zero_struct T)) as [e|r]; [done|].
      unfold append. simpl elems.
      rewrite (IH None) by done. simpl.
      destruct (decode_list T pending) as [e|rs]; [done|].
      by rewrite <-app_assoc.
Qed.

Lemma handed_out_delivered w l :
  handed_out (S <$> cursor_fault w) l = delivered w l.
Proof. unfold delivered. by destruct (cursor_fault w). Qed.

Lemma delivered_set_calls cs w l : delivered (set_calls cs w) l = delivered w l.
Proof. done. Qed.

Lemma delivered_set_logs ls w l : delivered (set_logs ls w) l = delivered w l.
Proof. done. Qed.

Lemma List_result T c ctx sels w :
  (List T c ctx sels w).1 =
    Done (query_answer T ctx (mongo.FilterD (filter_of_sels sels)) w).
Proof.
  unfold List, exec_bind at 1, log_Debug. rewrite with_defer_fst.
  unfold exec_bind at 1, mongo.Find, exec_bind, mongo.log_call, query_answer.
  cbn [fst snd]. cbv zeta.
  destruct (mongo.encode_filter _) as [e|f]; [done|].
  rewrite round_trip_set_calls, round_trip_set_logs.
  destruct (mongo.round_trip ctx w) as [e|] eqn:Hrt; [done|].
  cbn [mongo.pending mongo.served coll set_calls set_logs cursor_fault].
  rewrite decode_all_result by done.
  by rewrite handed_out_delivered.
Qed.

(** The filter of [ListAll] is the one constraint that the field with the
    empty name be null or missing. *)
Lemma ListAll_filter_encoded :
  mongo.encode_filter (mongo.FilterD ListAll_filter) = inr [("", bson.BNull)].
Proof. reflexivity. Qed.

Lemma ListAll_result T c ctx w :
  (ListAll T c ctx w).1 =
    Done (query_answer T ctx (mongo.FilterD ListAll_filter) w).
Proof.
  unfold ListAll, exec_bind at 1, log_Debug. rewrite with_defer_fst.
  unfold exec_bind at 1, mongo.Find, exec_bind, mongo.log_call, query_answer.
  cbn [fst snd]. cbv zeta.
  rewrite ListAll_filter_encoded.
  rewrite round_trip_set_calls, round_trip_set_logs.
  destruct (mongo.round_trip ctx w) as [e|] eqn:Hrt; [done|].
  cbn [mongo.pending mongo.served coll set_calls set_logs cursor_fault].
  rewrite decode_all_result by done.
  by rewrite handed_out_delivered.
Qed.

Lemma filter_of_sels_empty : filter_of_sels ∅ = nil_slice.
Proof. unfold filter_of_sels. by rewrite range_of_empty. Qed.

Lemma filter_all {A} (p : A → bool) (l : list A) :
  (∀ x, p x = true) → List.filter p l = l.
Proof.
  intros Hp. induction l as [|x l IH]; [done|]. simpl. by rewrite Hp, IH.
Qed.

Lemma filter_none_matches f docs :
  none_matches f docs = true → List.filter (mongo.matches f) docs = [].
Proof.
  unfold none_matches. induction docs as [|d docs IH]; [done|]. simpl.
  destruct (mongo.matches f d); simpl; [done|]. exact IH.
Qed.

(** C4. The empty selector map does not give the unconstrained filter.
    The loop over the map appends nothing, so [filter] stays the nil
    [bson.D] of its declaration, and the driver refuses to encode a nil
    [bson.D]: [Find], [Exists] and [List] return that error, whatever the
    context and whatever the collection holds.  The filter without
    constraints, which every document satisfies, is the empty document
    [bson.D{}]. *)
Theorem empty_selector_leaves_the_filter_nil T c ctx w :
  filter_of_sels ∅ = nil_slice
  ∧ is_nil (filter_of_sels ∅) = true
  ∧ mongo.encode_filter (mongo.FilterD (filter_of_sels ∅))
    = inl (MarshalError "primitive.D" ErrWriteNull)
  ∧ (Find T c ctx ∅ w).1
    = Done (None, Some (MarshalError "primitive.D" ErrWriteNull))
  ∧ (Exists T c ctx ∅ w).1
    = Done (None, false, Some (MarshalError "primitive.D" ErrWriteNull))
  ∧ (List T c ctx ∅ w).1
    = Done (nil_slice, Some (MarshalError "primitive.D" ErrWriteNull))
  ∧ mongo.encode_filter (mongo.FilterD (make_slice [])) = inr []
  ∧ (∀ d, mongo.matches [] d = true).
Proof.
  assert (mongo.encode_filter (mongo.FilterD (filter_of_sels ∅))
          = inl (MarshalError "primitive.D" ErrWriteNull)) as Henc
    by (by rewrite filter_of_sels_empty).
  assert ((Find T c ctx ∅ w).1
          = Done (None, Some (MarshalError "primitive.D" ErrWriteNull)))
    as HF.
  { rewrite Find_result. unfold FindOne_answer. by rewrite Henc. }
  split; [apply filter_of_sels_empty|].
  split; [by rewrite filter_of_sels_empty|].
  split; [exact Henc|]. split; [exact HF|]. split; [|split; [|done]].
  - by rewrite Exists_result, HF.
  - rewrite List_result. unfold query_answer. by rewrite Henc.
Qed.

Lemma ListAll_filter_matches d :
  mongo.matches [("", bson.BNull)] d =
    match bson.doc_lookup "" d with
    | None => true
    | Some v => bool_decide (v = bson.BNull)
    end.
Proof.
  unfold mongo.matches, mongo.field_matches. simpl.
  destruct (bson.doc_lookup "" d) as [v|]; rewrite andb_true_r; [|done].
  by destruct v.
Qed.

Lemma delivered_nil w : delivered w [] = [].
Proof. unfold delivered. by destruct (cursor_fault w). Qed.


(** C5. [ListAll] does not submit the unconstrained filter.  Its filter
    [bson.D{bson.E{}}] has one element, the empty key with the value nil:
    the constraint that the field with the empty name be null or missing.
    A document with a value under the empty field name fails it and is
    left out of the result.  The filter that leaves out no document is
    the empty document [bson.D{}]: the query with it finds both
    documents. *)
Theorem ListAll_leaves_out_a_document_with_an_empty_named_field :
  mongo.encode_filter (mongo.FilterD ListAll_filter) = inr [("", bson.BNull)]
  ∧ (∀ d, mongo.matches [("", bson.BNull)] d =
            match bson.doc_lookup "" d with
            | None => true
            | Some v => bool_decide (v = bson.BNull)
            end)
  ∧ mongo.matches [("", bson.BNull)] Sample.odd_doc = false
  ∧ (ListAll Sample.User Sample.c Sample.live
       (Sample.world [Sample.odd_doc; Sample.ann_doc] true)).1
    = Done (make_slice [Sample.user 7 "ann" 1000000 2000000], None)
  ∧ (mongo.Find Sample.live (mongo.FilterD (make_slice []))
       (Sample.world [Sample.odd_doc; Sample.ann_doc] true)).1
    = Done (inr (mongo.mkCursor [Sample.odd_doc; Sample.ann_doc] None)).
Proof.
  split; [reflexivity|]. split; [apply ListAll_filter_matches|].
  split; [reflexivity|]. split.
  - rewrite ListAll_result. reflexivity.
  - reflexivity.
Qed.

(** *** [UpdateAttributes] *)

Lemma with_defer_maps {A} (d : Exec unit) (body : Exec A) w :
  (∀ w', maps (d w').2 = maps w') →
  maps (with_defer d body w).2 = maps (body w).2.
Proof. intros Hd. unfold with_defer. destruct (body w). apply Hd. Qed.

Lemma maps_UpdateMany ctx filter update w :
  maps (mongo.UpdateMany ctx filter update w).2 = maps w.
Proof.
  unfold mongo.UpdateMany, exec_bind, mongo.log_call. simpl.
  repeat case_match; simplify_eq; done.
Qed.

(** C9. [UpdateAttributes] writes into the map object the caller passed:
    afterwards that map binds [updated_at] to the time read at the call, in
    place of whatever it held there, and is otherwise as before.  This
    holds whatever the serialization and the store call come to. *)
Theorem UpdateAttributes_stamps_the_callers_map c ctx sels p m w :
  maps w !! p = Some m →
  ∃ m', maps (UpdateAttributes c ctx sels (Some p) w).2 !! p = Some m'
        ∧ m' = <["updated_at" := GTime (clock w)]> m
        ∧ m' !! "updated_at" = Some (GTime (clock w))
        ∧ (∀ k, k ≠ "updated_at" → m' !! k = m !! k).
Proof.
  intros Hp. exists (<["updated_at" := GTime (clock w)]> m).
  split; [|split; [done|split]].
  - unfold UpdateAttributes, exec_bind at 1, log_Debug.
    rewrite with_defer_maps by done.
    unfold exec_bind at 1, time_Now. simpl.
    unfold exec_bind at 1, map_assign. simpl. rewrite Hp. simpl.
    unfold exec_bind at 1, map_read. simpl. rewrite lookup_insert_eq. simpl.
    destruct (bson.encode_entries _) as [err|dataByte]; simpl.
    + apply lookup_insert_eq.
    + unfold exec_bind.
      match goal with
      | |- context [mongo.UpdateMany ?a ?b ?c ?d] =>
          pose proof (maps_UpdateMany a b c d) as Hm;
          destruct (mongo.UpdateMany a b c d) as [[[res [e|]]|msg] w2]
      end; simpl in Hm |- *; rewrite Hm; apply lookup_insert_eq.
  - apply lookup_insert_eq.
  - intros k Hk. by apply lookup_insert_ne.
Qed.

(** *** [CreateIndex] and the contexts handed to the store *)

Lemma calls_Indexes_CreateOne ctx model w :
  calls (mongo.Indexes_CreateOne ctx model w).2
  = calls w ++ [mkCall MIndexCreateOne ctx].
Proof.
  unfold mongo.Indexes_CreateOne, exec_bind, mongo.log_call. simpl.
  repeat case_match; simplify_eq; done.
Qed.

Lemma calls_DeleteOne ctx filter w :
  calls (mongo.DeleteOne ctx filter w).2 = calls w ++ [mkCall MDeleteOne ctx].
Proof.
  unfold mongo.DeleteOne, exec_bind, mongo.log_call. simpl.
  repeat case_match; simplify_eq; done.
Qed.

(** The one store call of [CreateIndex] carries [context.Background()],
    whatever context the caller passed. *)
Lemma CreateIndex_calls c ctx sels unique w :
  calls (CreateIndex c ctx sels unique w).2
  = calls w ++ [mkCall MIndexCreateOne Background].
Proof.
  unfold CreateIndex, exec_bind.
  match goal with
  | |- context [mongo.Indexes_CreateOne ?a ?b ?c] =>
      pose proof (calls_Indexes_CreateOne a b c) as Hc;
      destruct (mongo.Indexes_CreateOne a b c) as [[[name [e|]]|msg] w2]
  end; exact Hc.
Qed.

(** [Delete], like the other operations, hands its store call the
    context of the caller. *)
Lemma Delete_calls c ctx id w :
  calls (Delete c ctx id w).2 = calls w ++ [mkCall MDeleteOne ctx].
Proof.
  unfold Delete, exec_bind.
  match goal with
  | |- context [mongo.DeleteOne ?a ?b ?c] =>
      pose proof (calls_DeleteOne a b c) as Hc;
      destruct (mongo.DeleteOne a b c) as [[[e|]|msg] w2]
  end; exact Hc.
Qed.

Lemma calls_under_silent {A} ctx (m : Exec A) :
  (∀ w, calls (m w).2 = calls w) → calls_under ctx m.
Proof.
  intros Hm w. exists []. by rewrite Hm, app_nil_r.
Qed.

Lemma calls_under_one {A} ctx (m : Exec A) meth :
  (∀ w, calls (m w).2 = calls w ++ [mkCall meth ctx]) → calls_under ctx m.
Proof.
  intros Hm w. exists [mkCall meth ctx]. split; [apply Hm|].
  by repeat constructor.
Qed.

Lemma calls_under_bind {A B} ctx (m : Exec A) (k : A → Exec B) :
  calls_under ctx m → (∀ a, calls_under ctx (k a)) →
  calls_under ctx (exec_bind m k).
Proof.
  intros Hm Hk w. unfold exec_bind.
  destruct (Hm w) as (l1 & Hl1 & Hf1).
  destruct (m w) as [[a|msg] w1]; simpl in Hl1.
  - destruct (Hk a w1) as (l2 & Hl2 & Hf2).
    exists (l1 ++ l2). rewrite Hl2, Hl1, app_assoc. split; [done|].
    by apply Forall_app.
  - exists l1. done.
Qed.

Lemma calls_under_defer {A} ctx (d : Exec unit) (body : Exec A) :
  calls_under ctx d → calls_under ctx body →
  calls_under ctx (with_defer d body).
Proof.
  intros Hd Hb w. unfold with_defer.
  destruct (Hb w) as (l1 & Hl1 & Hf1).
  destruct (body w) as [r w1]; simpl in Hl1.
  destruct (Hd w1) as (l2 & Hl2 & Hf2).
  exists (l1 ++ l2). simpl. rewrite Hl2, Hl1, app_assoc. split; [done|].
  by apply Forall_app.
Qed.

Lemma calls_under_log ctx msg : calls_under ctx (log_Debug msg).
Proof. by apply calls_under_silent. Qed.

Lemma calls_under_ret {A} ctx (a : A) : calls_under ctx (exec_ret a).
Proof. by apply calls_under_silent. Qed.

Lemma calls_under_Now ctx : calls_under ctx time_Now.
Proof. by apply calls_under_silent. Qed.

Lemma calls_under_FieldByName ctx item name :
  calls_under ctx (reflect.ValueOf_Elem_FieldByName item name).
Proof.
  apply calls_under_silent. intros w.
  unfold reflect.ValueOf_Elem_FieldByName. by repeat case_match.
Qed.

Lemma calls_under_Set ctx v x : calls_under ctx (reflect.Set_ v x).
Proof.
  apply calls_under_silent. intros w.
  unfold reflect.Set_. by repeat case_match.
Qed.

Lemma calls_under_Marshal ctx item : calls_under ctx (bson_Marshal_ptr item).
Proof.
  apply calls_under_silent. intros w.
  unfold bson_Marshal_ptr. by repeat case_match.
Qed.

Lemma calls_under_map_assign ctx m k v : calls_under ctx (map_assign m k v).
Proof.
  apply calls_under_silent. intros w.
  unfold map_assign. by repeat case_match.
Qed.

Lemma calls_under_map_read ctx m : calls_under ctx (map_read m).
Proof. by apply calls_under_silent. Qed.

Lemma calls_under_InsertOne ctx item : calls_under ctx (mongo.InsertOne ctx item).
Proof. eapply calls_under_one. apply calls_InsertOne. Qed.

Lemma calls_under_FindOne ctx filter : calls_under ctx (mongo.FindOne ctx filter).
Proof.
  eapply calls_under_one. intros w. by rewrite FindOne_run.
Qed.

Lemma calls_under_UpdateOne ctx filter update :
  calls_under ctx (mongo.UpdateOne ctx filter update).
Proof. eapply calls_under_one. apply calls_UpdateOne. Qed.

Lemma calls_under_UpdateMany ctx filter update :
  calls_under ctx (mongo.UpdateMany ctx filter update).
Proof.
  eapply (calls_under_one _ _ MUpdateMany). intros w.
  unfold mongo.UpdateMany, exec_bind, mongo.log_call. simpl.
  repeat case_match; simplify_eq; done.
Qed.

Lemma calls_under_DeleteOne ctx filter :
  calls_under ctx (mongo.DeleteOne ctx filter).
Proof. eapply calls_under_one. apply calls_DeleteOne. Qed.

Lemma calls_under_DeleteMany ctx filter :
  calls_under ctx (mongo.DeleteMany ctx filter).
Proof.
  eapply (calls_under_one _ _ MDeleteMany). intros w.
  unfold mongo.DeleteMany, exec_bind, mongo.log_call. simpl.
  repeat case_match; simplify_eq; done.
Qed.

Lemma calls_under_coll_Find ctx filter : calls_under ctx (mongo.Find ctx filter).
Proof.
  eapply (calls_under_one _ _ MFind). intros w.
  unfold mongo.Find, exec_bind, mongo.log_call. simpl.
  repeat case_match; simplify_eq; done.
Qed.

Lemma calls_under_Cursor_Next ctx cur :
  calls_under ctx (mongo.Cursor_Next ctx cur).
Proof.
  eapply (calls_under_one _ _ MCursorNext). intros w.
  unfold mongo.Cursor_Next, exec_bind, mongo.log_call. simpl.
  repeat case_match; simplify_eq; done.
Qed.

Lemma calls_under_decode_all T ctx pending served results :
  calls_under ctx (decode_all T ctx pending served results).
Proof.
  revert served results.
  induction pending as [|d pending IH]; intros served results; simpl.
  - apply calls_under_bind; [apply calls_under_Cursor_Next|].
    intros more. apply calls_under_ret.
  - apply calls_under_bind; [apply calls_under_Cursor_Next|].
    intros [|]; [|apply calls_under_ret].
    destruct (bson.decode_struct d (bson.zero_struct T));
      [apply calls_under_ret|apply IH].
Qed.

Create HintDb calls_under discriminated.

#[local] Hint Resolve calls_under_log calls_under_ret calls_under_Now
  calls_under_FieldByName calls_under_Set calls_under_Marshal
  calls_under_map_assign calls_under_map_read calls_under_InsertOne
  calls_under_FindOne calls_under_UpdateOne calls_under_UpdateMany
  calls_under_DeleteOne calls_under_DeleteMany calls_under_coll_Find
  calls_under_decode_all : calls_under.

Ltac calls_under_step :=
  lazymatch goal with
  | |- calls_under _ (exec_bind _ _) => apply calls_under_bind; [|intros ?]
  | |- calls_under _ (with_defer _ _) => apply calls_under_defer
  | |- calls_under _ (match ?x with _ => _ end) => destruct x
  | |- calls_under _ (let _ := _ in _) => cbv zeta
  | |- _ => solve [auto with calls_under]
  end.

(** The operations other than [CreateIndex] hand every store call they
    issue the context of the caller. *)
Lemma operations_pass_the_context_of_the_caller T c ctx :
  (∀ item, calls_under ctx (Create c ctx item))
  ∧ (∀ id, calls_under ctx (Get T c ctx id))
  ∧ (∀ sels, calls_under ctx (Find T c ctx sels))
  ∧ (∀ sels, calls_under ctx (Exists T c ctx sels))
  ∧ (∀ id item, calls_under ctx (Update c ctx id item))
  ∧ (∀ sels attrs, calls_under ctx (UpdateAttributes c ctx sels attrs))
  ∧ (∀ id, calls_under ctx (Delete c ctx id))
  ∧ (∀ sels, calls_under ctx (DeleteRange c ctx sels))
  ∧ calls_under ctx (ListAll T c ctx)
  ∧ (∀ sels, calls_under ctx (List T c ctx sels)).
Proof.
  assert (∀ sels, calls_under ctx (Find T c ctx sels)) as HFind.
  { intros sels. unfold Find. repeat calls_under_step. }
  repeat split; try exact HFind; intros;
    unfold Create, Get, Exists, Update, UpdateAttributes, Delete,
      DeleteRange, ListAll, List;
    repeat calls_under_step.
Qed.

(** C1. [CreateIndex] does not pass the context of the caller to the
    index creation: the call is issued under [context.Background()].
    With a context that is already cancelled the index is created all the
    same, where [Delete] under the same context fails with the
    cancellation. *)
Theorem CreateIndex_ignores_the_context_of_the_caller c ctx sels unique w :
  calls (CreateIndex c ctx sels unique w).2
  = calls w ++ [mkCall MIndexCreateOne Background]
  ∧ (CreateIndex Sample.c Sample.cancelled {[ "name" := 1 ]} true
       (Sample.world [Sample.ann_doc] true)).1
    = Done ("name_1", None)
  ∧ Sample.cancelled ≠ Background
  ∧ (Delete Sample.c Sample.cancelled (GInt 7)
       (Sample.world [Sample.ann_doc] true)).1
    = Done (Some ErrCanceled).
Proof.
  split; [apply CreateIndex_calls|]. split; [|split; [done|]].
  - unfold CreateIndex. rewrite range_of_singleton. reflexivity.
  - reflexivity.
Qed.

End ControllerFacts.

(* ===================================================================== *)
(** ** The connector *)
(* ===================================================================== *)

(** C8. [Connect] makes one attempt: one client construction, which
    consumes one outcome, and, when that succeeded, one ping.  A failure of
    either step comes back at once as an error of the same kind, a text
    that differs in its prefix.  On success the handle is scoped to the
    given database name, and nothing but the two calls was issued. *)
Theorem Connect_is_a_single_attempt ctx url name n :
  let opts := connector.options_Client_ApplyURI url in
  let r := connector.Connect ctx url name n in
  connector.connect_script r.2 = tail (connector.connect_script n)
  ∧ match connector.next_outcome (connector.connect_script n) with
    | Some e =>
        r.1 = (None, Some (errorString ("failed to mongo.Connect: " +:+ Error e)))
        ∧ connector.net_calls r.2
          = connector.net_calls n ++ [connector.CallConnect ctx opts]
        ∧ connector.ping_script r.2 = connector.ping_script n
    | None =>
        connector.net_calls r.2
        = connector.net_calls n
            ++ [connector.CallConnect ctx opts; connector.CallPing ctx]
        ∧ match ctx_Err ctx with
          | Some e =>
              r.1 = (None, Some (errorString ("failed to dbClient.Ping: " +:+ Error e)))
              ∧ connector.ping_script r.2 = connector.ping_script n
          | None =>
              connector.ping_script r.2 = tail (connector.ping_script n)
              ∧ match connector.next_outcome (connector.ping_script n) with
                | Some e =>
                    r.1 = (None, Some (errorString
                                         ("failed to dbClient.Ping: " +:+ Error e)))
                | None =>
                    r.1 = (Some (connector.mkDatabase (connector.mkClient opts)
                                   name), None)
                end
          end
    end.
Proof.
  unfold connector.Connect, connector.mongo_Connect, connector.Client_Ping,
    connector.next_outcome, fmt_Errorf_s.
  destruct n as [cs ps calls0]. simpl.
  destruct cs as [|[e|] cs]; simpl; [done|done|].
  destruct (ctx_Err ctx) as [e|]; simpl.
  { by rewrite <-app_assoc. }
  destruct ps as [|[e|] ps]; simpl; by rewrite <-app_assoc.
Qed.

(** The first ping fails and a second one would have succeeded:
    [Connect] fails, it does not try again. *)
Example Connect_does_not_retry :
  connector.Connect Background "mongodb://db:27017" "shop"
    (connector.mkNet [None] [Some ErrNetwork; None] [])
  = ((None,
      Some (errorString "failed to dbClient.Ping: server selection error")),
     connector.mkNet [] [None]
       [connector.CallConnect Background
          (connector.mkClientOptions "mongodb://db:27017");
        connector.CallPing Background]).
Proof. reflexivity. Qed.

Lemma Update_nonexistent_id_is_silent_noop_witness :
  id_matches_none (GInt 9) [Sample.ann_doc; Sample.bob_doc] = true
  ∧ coll (@Update listed_order Sample.c Sample.live (GInt 9) (Some 1%nat)
            (Sample.world [Sample.ann_doc; Sample.bob_doc] true)).2
    = [Sample.ann_doc; Sample.bob_doc]
  ∧ (@Update listed_order Sample.c Sample.live (GInt 9) (Some 1%nat)
       (Sample.world [Sample.ann_doc; Sample.bob_doc] true)).1 = Done None.
Proof.
  split; [reflexivity|].
  destruct (@Update_nonexistent_id_is_silent_noop listed_order Sample.c
              Sample.live (GInt 9) (Some 1%nat)
              (Sample.world [Sample.ann_doc; Sample.bob_doc] true) eq_refl)
    as [Hcoll Hret].
  split; [exact Hcoll|].
  apply (Hret 1%nat (Sample.user 7 "ann" 11 22)); reflexivity.
Defined.

Lemma timestamps_are_set_by_the_controller_witness :
  heap (Sample.world [] true) !! 1%nat = Some (Sample.user 7 "ann" 11 22)
  ∧ (∃ s', heap (Create Sample.c Sample.live (Some 1%nat)
                   (Sample.world [] true)).2 !! 1%nat = Some s'
           ∧ field_value "CreatedAt" s' = Some (GTime 5000000)
           ∧ field_value "UpdatedAt" s' = Some (GTime 5000000)
           ∧ field_value "Name" s' = Some (GString "ann"))
  ∧ (∃ s', heap (@Update listed_order Sample.c Sample.live (GInt 7)
                   (Some 1%nat) (Sample.world [] true)).2 !! 1%nat = Some s'
           ∧ field_value "UpdatedAt" s' = Some (GTime 5000000)
           ∧ field_value "CreatedAt" s' = Some (GTime 11)).
Proof.
  split; [reflexivity|].
  destruct (@timestamps_are_set_by_the_controller listed_order Sample.c
              Sample.live (GInt 7) 1%nat (Sample.user 7 "ann" 11 22)
              (Sample.world [] true) eq_refl eq_refl eq_refl)
    as [(s1 & Hs1 & Hc1 & Hu1 & Ho1 & _) (s2 & Hs2 & Hu2 & Ho2 & _)].
  split.
  - exists s1. split; [exact Hs1|]. split; [|split].
    + apply Hc1. vm_compute. eexists. reflexivity.
    + apply Hu1. vm_compute. eexists. reflexivity.
    + rewrite Ho1; [reflexivity|discriminate|discriminate].
  - exists s2. split; [exact Hs2|]. split.
    + apply Hu2. vm_compute. eexists. reflexivity.
    + rewrite Ho2; [reflexivity|discriminate].
Defined.

Lemma stamps_are_written_in_place_before_the_store_call_witness :
  (Create Sample.c Sample.cancelled (Some 1%nat) (Sample.world [] true)).1
  = Done (Some ErrCanceled)
  ∧ heap (Create Sample.c Sample.cancelled (Some 1%nat)
            (Sample.world [] true)).2 !! 1%nat
    = Some (Sample.user 7 "ann" 5000000 5000000)
  ∧ coll (Create Sample.c Sample.live (Some 1%nat) (Sample.world [] true)).2
    = [[("_id", bson.BInt32 7); ("name", bson.BString "ann");
        ("created_at", bson.BDateTime 5); ("updated_at", bson.BDateTime 5)]]
  ∧ heap (@Update listed_order Sample.c Sample.cancelled (GInt 7)
            (Some 1%nat) (Sample.world [] true)).2 !! 1%nat
    = Some (Sample.user 7 "ann" 11 5000000).
Proof.
  assert (heap (Sample.world [] true) !! 1%nat
          = Some (Sample.user 7 "ann" 11 22)) as Hp
    by (vm_compute; reflexivity).
  assert (is_Some (field_value "CreatedAt" (Sample.user 7 "ann" 11 22)))
    as Hdc by (exists (GTime 11); reflexivity).
  assert (is_Some (field_value "UpdatedAt" (Sample.user 7 "ann" 11 22)))
    as Hdu by (exists (GTime 22); reflexivity).
  destruct (@stamps_are_written_in_place_before_the_store_call listed_order
              Sample.c Sample.cancelled (GInt 7) 1%nat
              (Sample.user 7 "ann" 11 22) (Sample.world [] true) Hp)
    as [HC HU].
  pose proof (HC Hdc Hdu eq_refl eq_refl) as HC1. cbv zeta in HC1.
  destruct HC1 as (_ & _ & _ & _ & _ & Hret & _ & _ & Hheap & _).
  pose proof (HU Hdu eq_refl) as HU1. cbv zeta in HU1.
  destruct HU1 as (_ & _ & _ & _ & HheapU & _).
  destruct (@stamps_are_written_in_place_before_the_store_call listed_order
              Sample.c Sample.live (GInt 7) 1%nat
              (Sample.user 7 "ann" 11 22) (Sample.world [] true) Hp)
    as [HL _].
  pose proof (HL Hdc Hdu eq_refl eq_refl) as HL1. cbv zeta in HL1.
  destruct HL1 as (_ & _ & _ & _ & _ & _ & _ & _ & _ & Hstored).
  split; [rewrite Hret; vm_compute; reflexivity|].
  split; [rewrite Hheap; vm_compute; reflexivity|].
  split; [|rewrite HheapU; vm_compute; reflexivity].
  assert ((Create Sample.c Sample.live (Some 1%nat)
             (Sample.world [] true)).1 = Done None) as Hdone
    by (vm_compute; reflexivity).
  destruct (Hstored Hdone) as (d & Hd & Hcoll).
  assert (bson.encode_struct
            (stamped "UpdatedAt" (clock (Sample.world [] true))
               (stamped "CreatedAt" (clock (Sample.world [] true))
                  (Sample.user 7 "ann" 11 22)))
          = inr [("_id", bson.BInt32 7); ("name", bson.BString "ann");
                 ("created_at", bson.BDateTime 5);
                 ("updated_at", bson.BDateTime 5)]) as Hd'
    by (vm_compute; reflexivity).
  rewrite Hd' in Hd. injection Hd as <-. rewrite Hcoll.
  vm_compute; reflexivity.
Defined.



Lemma UpdateAttributes_stamps_the_callers_map_witness :
  ∃ m', maps (@UpdateAttributes listed_order Sample.c Sample.cancelled ∅
                (Some 1%nat) (Sample.world [Sample.ann_doc] false)).2 !! 1%nat
        = Some m'
        ∧ m' !! "updated_at" = Some (GTime 5000000)
        ∧ m' !! "name" = Some (GString "eve").
Proof.
  destruct (@UpdateAttributes_stamps_the_callers_map listed_order Sample.c
              Sample.cancelled ∅ 1%nat
              {[ "name" := GString "eve"; "updated_at" := GString "stale" ]}
              (Sample.world [Sample.ann_doc] false) eq_refl)
    as (m' & Hm' & _ & Hstamp & Hrest).
  exists m'. split; [exact Hm'|]. split; [exact Hstamp|].
  rewrite Hrest; [reflexivity|discriminate].
Defined.

(* ===================================================================== *)
(** ** The edges of the statements above *)
(* ===================================================================== *)

(** A record without timestamp attributes goes through [Create] as it
    is, and is stored as it is. *)
Example Create_passes_a_record_without_timestamps_through :
  heap (Create Sample.c Sample.live (Some 2%nat) (Sample.world [] true)).2
    !! 2%nat = Some (Sample.tag 3 "red")
  ∧ coll (Create Sample.c Sample.live (Some 2%nat) (Sample.world [] true)).2
    = [[("_id", bson.BInt32 3); ("name", bson.BString "red")]].
Proof. split; reflexivity. Qed.

(** [reflect]'s [Set] panics on a [CreatedAt] that cannot hold a
    [time.Time]; a nil [item] panics in [FieldByName]. *)
Example Create_panics_on_a_CreatedAt_that_is_no_timestamp :
  (Create Sample.c Sample.live (Some 3%nat) (Sample.world [] true)).1
  = Panic "reflect.Set: value is not assignable to type"
  ∧ (Create Sample.c Sample.live None (Sample.world [] true)).1
    = Panic "reflect: call of reflect.Value.FieldByName on zero Value".
Proof. split; reflexivity. Qed.

(** A record that does not serialize: [Update] returns the error of
    [bson.Marshal] and issues no store call. *)
Example Update_of_a_record_without_encoder_fails_before_the_store_call :
  (@Update listed_order Sample.c Sample.live (GInt 9) (Some 4%nat)
     (Sample.world [] true)).1
  = Done (Some (ErrNoEncoder "func()"))
  ∧ calls (@Update listed_order Sample.c Sample.live (GInt 9) (Some 4%nat)
             (Sample.world [] true)).2 = [].
Proof. split; vm_compute; reflexivity. Qed.

(** Assigning into a nil map panics: [UpdateAttributes] needs a map
    object behind [attrs]. *)
Example UpdateAttributes_on_a_nil_map_panics :
  (@UpdateAttributes listed_order Sample.c Sample.live ∅ None
     (Sample.world [] true)).1
  = Panic "assignment to entry in nil map".
Proof. reflexivity. Qed.

(** An error of [Find] other than the no-documents condition comes out of
    [Exists] as it is. *)
Example Exists_hands_on_a_cancellation :
  (@Exists listed_order Sample.User Sample.c Sample.cancelled
     {[ "name" := GString "ann" ]} (Sample.world [Sample.ann_doc] true)).1
  = Done (None, false, Some ErrCanceled).
Proof. vm_compute; reflexivity. Qed.

(** The empty selector map over a collection of two documents: [Find]
    and [Exists] do not come back with the first document and [List] not
    with the two; each returns the error of the encoder. *)
Example the_empty_selector_map_finds_nothing :
  (@Find listed_order Sample.User Sample.c Sample.live ∅
     (Sample.world [Sample.ann_doc; Sample.bob_doc] true)).1
  = Done (None, Some (MarshalError "primitive.D" ErrWriteNull))
  ∧ (@Exists listed_order Sample.User Sample.c Sample.live ∅
       (Sample.world [Sample.ann_doc; Sample.bob_doc] true)).1
    = Done (None, false, Some (MarshalError "primitive.D" ErrWriteNull))
  ∧ (@List listed_order Sample.User Sample.c Sample.live ∅
       (Sample.world [Sample.ann_doc; Sample.bob_doc] true)).1
    = Done (nil_slice, Some (MarshalError "primitive.D" ErrWriteNull))
  ∧ (@List listed_order Sample.User Sample.c Sample.live
       {[ "name" := GString "ann" ]}
       (Sample.world [Sample.ann_doc; Sample.bob_doc] true)).1
    = Done (make_slice [Sample.user 7 "ann" 1000000 2000000], None).
Proof. repeat split; vm_compute; reflexivity. Qed.

(** An update that matches does write: the no-op of an identifier that
    matches nothing is the difference to this. *)
Example Update_of_an_existing_id_writes :
  coll (@Update listed_order Sample.c Sample.live (GInt 7) (Some 1%nat)
          (Sample.world [Sample.ann_doc] true)).2
  = [[("_id", bson.BInt32 7); ("name", bson.BString "ann");
      ("created_at", bson.BDateTime 0); ("updated_at", bson.BDateTime 5)]].
Proof. reflexivity. Qed.

(* ===================================================================== *)
(** ** The reading operations *)
(* ===================================================================== *)

Section Reading.
Context {R : MapRange}.

Lemma same_state_refl w : same_state w w.
Proof. by repeat split. Qed.

Lemma same_state_trans w1 w2 w3 :
  same_state w1 w2 → same_state w2 w3 → same_state w1 w3.
Proof.
  unfold same_state. intros (?&?&?&?&?&?&?&?&?) (?&?&?&?&?&?&?&?&?).
  repeat split; congruence.
Qed.

Lemma reads_only_bind {A B} (m : Exec A) (k : A → Exec B) :
  reads_only m → (∀ a, reads_only (k a)) → reads_only (exec_bind m k).
Proof.
  intros Hm Hk w. unfold exec_bind. specialize (Hm w).
  destruct (m w) as [[a|msg] w1]; simpl in Hm; [|done].
  eapply same_state_trans; [exact Hm|apply Hk].
Qed.

Lemma reads_only_defer {A} (d : Exec unit) (body : Exec A) :
  reads_only d → reads_only body → reads_only (with_defer d body).
Proof.
  intros Hd Hb w. unfold with_defer. specialize (Hb w).
  destruct (body w) as [r w1]. simpl in *.
  eapply same_state_trans; [exact Hb|apply Hd].
Qed.

Lemma reads_only_log msg : reads_only (log_Debug msg).
Proof. intros w. by repeat split. Qed.

Lemma reads_only_ret {A} (a : A) : reads_only (exec_ret a).
Proof. intros w. by repeat split. Qed.

Lemma reads_only_FindOne ctx filter : reads_only (mongo.FindOne ctx filter).
Proof. intros w. rewrite FindOne_run. by repeat split. Qed.

Lemma reads_only_coll_Find ctx filter : reads_only (mongo.Find ctx filter).
Proof.
  intros w. unfold mongo.Find, exec_bind, mongo.log_call. simpl.
  repeat case_match; simplify_eq; by repeat split.
Qed.

Lemma reads_only_Cursor_Next ctx cur : reads_only (mongo.Cursor_Next ctx cur).
Proof.
  intros w. unfold mongo.Cursor_Next, exec_bind, mongo.log_call. simpl.
  repeat case_match; simplify_eq; by repeat split.
Qed.

Lemma reads_only_decode_all T ctx pending served results :
  reads_only (decode_all T ctx pending served results).
Proof.
  revert served results.
  induction pending as [|d pending IH]; intros served results; simpl.
  - apply reads_only_bind; [apply reads_only_Cursor_Next|].
    intros more. apply reads_only_ret.
  - apply reads_only_bind; [apply reads_only_Cursor_Next|].
    intros [|]; [|apply reads_only_ret].
    destruct (bson.decode_struct d (bson.zero_struct T));
      [apply reads_only_ret|apply IH].
Qed.

Ltac reads_only_step :=
  lazymatch goal with
  | |- reads_only (exec_bind _ _) => apply reads_only_bind; [|intros ?]
  | |- reads_only (with_defer _ _) => apply reads_only_defer
  | |- reads_only (log_Debug _) => apply reads_only_log
  | |- reads_only (exec_ret _) => apply reads_only_ret
  | |- reads_only (mongo.FindOne _ _) => apply reads_only_FindOne
  | |- reads_only (mongo.Find _ _) => apply reads_only_coll_Find
  | |- reads_only (decode_all _ _ _ _ _) => apply reads_only_decode_all
  | |- reads_only (match ?x with _ => _ end) => destruct x
  | |- reads_only (let _ := _ in _) => cbv zeta
  end.

(** X1. [Get], [Find], [Exists], [ListAll] and [List] change nothing: the
    clock, the caller's records and maps, the collection and its indexes
    are after the call what they were before, whatever it returns. *)
Theorem reading_operations_change_nothing T c ctx :
  (∀ id, reads_only (Get T c ctx id))
  ∧ (∀ sels, reads_only (Find T c ctx sels))
  ∧ (∀ sels, reads_only (Exists T c ctx sels))
  ∧ reads_only (ListAll T c ctx)
  ∧ (∀ sels, reads_only (List T c ctx sels)).
Proof.
  assert (∀ sels, reads_only (Find T c ctx sels)) as HFind.
  { intros sels. unfold Find. repeat reads_only_step. }
  split; [|split; [exact HFind|split; [|split]]]; intros;
    unfold Get, Exists, ListAll, List;
    repeat first [exact (HFind _) | reads_only_step].
Qed.

(** What [Get] returns. *)
Lemma Get_result T c ctx id w :
  (Get T c ctx id w).1 =
    Done match mongo.SingleResult_Decode
                 (FindOne_answer ctx
                    (mongo.FilterD (make_slice [bson.mkE "_id" id])) w)
                 (bson.zero_struct T) with
         | inl err => (None, Some err)
         | inr result => (Some result, None)
         end.
Proof.
  unfold Get, exec_bind at 1, log_Debug. rewrite with_defer_fst.
  unfold exec_bind. rewrite FindOne_run.
  replace (FindOne_answer ctx (mongo.FilterD (make_slice [bson.mkE "_id" id]))
             (set_logs _ w))
    with (FindOne_answer ctx (mongo.FilterD (make_slice [bson.mkE "_id" id])) w)
    by done.
  by destruct (mongo.SingleResult_Decode _ _).
Qed.

Lemma calls_with_defer_log {A} msg (body : Exec A) w :
  calls (with_defer (log_Debug msg) body w).2 = calls (body w).2.
Proof. unfold with_defer. by destruct (body w). Qed.

Lemma Find_calls T c ctx sels w :
  calls (Find T c ctx sels w).2 = calls w ++ [mkCall MFindOne ctx].
Proof.
  unfold Find, exec_bind at 1. simpl. rewrite calls_with_defer_log.
  unfold exec_bind. rewrite FindOne_run.
  by destruct (mongo.SingleResult_Decode _ _).
Qed.

Lemma Find_never_panics T c ctx sels w :
  ∃ r, (Find T c ctx sels w).1 = Done r.
Proof. rewrite Find_result. eauto. Qed.

(** X2. [Get], [Find] and [Exists] never panic and never answer half: [Get]
    and [Find] return a record exactly when they return no error, and
    [Exists] returns [true] exactly when it returns a record, and then no
    error. *)
Theorem lookups_return_a_record_or_an_error T c ctx w :
  (∀ id, ∃ r e, (Get T c ctx id w).1 = Done (r, e)
                ∧ (is_Some r ↔ e = None))
  ∧ (∀ sels, ∃ r e, (Find T c ctx sels w).1 = Done (r, e)
                    ∧ (is_Some r ↔ e = None))
  ∧ (∀ sels, ∃ r b e, (Exists T c ctx sels w).1 = Done (r, b, e)
                      ∧ (b = true ↔ is_Some r)
                      ∧ (b = true → e = None)).
Proof.
  split; [|split].
  - intros id. rewrite Get_result.
    destruct (mongo.SingleResult_Decode _ _) as [err|result];
      eexists _, _; (split; [done|]);
      split; first [done | by intros [? ?] | eauto].
  - intros sels. rewrite Find_result.
    destruct (mongo.SingleResult_Decode _ _) as [err|result];
      eexists _, _; (split; [done|]);
      split; first [done | by intros [? ?] | eauto].
  - intros sels. rewrite Exists_result, Find_result.
    destruct (mongo.SingleResult_Decode _ _) as [err|result];
      [destruct (errors_Is err ErrNoDocuments)|];
      eexists _, _, _; (split; [done|]);
      (split; [split; first [done | by intros [? ?] | eauto]|done]).
Qed.

(** X3. [Get], [Find], [Exists], [Delete] and [DeleteRange] issue one store
    call, under the context of the caller, whatever the outcome; [Exists]
    does not query twice. *)
Theorem single_call_operations T c ctx w :
  (∀ id, calls (Get T c ctx id w).2 = calls w ++ [mkCall MFindOne ctx])
  ∧ (∀ sels, calls (Find T c ctx sels w).2
             = calls w ++ [mkCall MFindOne ctx])
  ∧ (∀ sels, calls (Exists T c ctx sels w).2
             = calls w ++ [mkCall MFindOne ctx])
  ∧ (∀ id, calls (Delete c ctx id w).2 = calls w ++ [mkCall MDeleteOne ctx])
  ∧ (∀ sels, calls (DeleteRange c ctx sels w).2
             = calls w ++ [mkCall MDeleteMany ctx]).
Proof.
  repeat split.
  - intros id. unfold Get, exec_bind at 1. simpl.
    rewrite calls_with_defer_log. unfold exec_bind. rewrite FindOne_run.
    by destruct (mongo.SingleResult_Decode _ _).
  - intros sels. apply Find_calls.
  - intros sels. unfold Exists, exec_bind at 1. simpl.
    rewrite calls_with_defer_log. unfold exec_bind.
    pose proof (Find_calls T c ctx sels
                  (set_logs (logs w ++ ["DB DEBUG: Started c.Find(ctx, sels)"]) w))
      as Hc.
    destruct (Find T c ctx sels _) as [[[result [err|]]|msg] w']; simpl in *;
      try done.
    by destruct (errors_Is err ErrNoDocuments).
  - intros id. apply Delete_calls.
  - intros sels. unfold DeleteRange, exec_bind.
    match goal with
    | |- context [mongo.DeleteMany ?a ?b ?c] =>
        assert (calls (mongo.DeleteMany a b c).2
                = calls c ++ [mkCall MDeleteMany a]) as Hc
          by (unfold mongo.DeleteMany, exec_bind, mongo.log_call; simpl;
              repeat case_match; simplify_eq; done);
        destruct (mongo.DeleteMany a b c) as [[[e|]|msg] w2]
    end; exact Hc.
Qed.

End Reading.

(* ===================================================================== *)
(** ** Encoding and decoding a record *)
(* ===================================================================== *)

Lemma decode_encode_value v ty bv :
  value_fits v ty = true →
  bson.encode_value v = inr bv →
  bson.decode_value ty bv = inr (stored_value ty v).
Proof.
  unfold value_fits, encodable.
  destruct ty, v; simpl; intros Hfit [= <-]; try done;
    by destruct (bson.fits32 z).
Qed.

Lemma doc_lookup_cons k k' v d :
  bson.doc_lookup k ((k', v) :: d)
  = if bool_decide (k' = k) then Some v else bson.doc_lookup k d.
Proof. done. Qed.

(** The encoding of a well-formed record holds, under the key of each
    exported field, the encoding of its value. *)
Lemma encode_struct_lookup s d :
  bson.encode_struct s = inr d →
  NoDup (exported_keys s) →
  ∀ f, f ∈ s → is_exported (bson.f_name (bson.f_decl f)) = true →
       ∃ bv, bson.encode_value (bson.f_val f) = inr bv
             ∧ bson.doc_lookup (bson.f_key (bson.f_decl f)) d = Some bv.
Proof.
  revert d. induction s as [|g s IH]; intros d Henc Hnd f Hf Hexp.
  { by apply elem_of_nil in Hf. }
  simpl in Henc. unfold exported_keys in Hnd. simpl in Hnd.
  destruct (is_exported (bson.f_name (bson.f_decl g))) eqn:Hg; simpl in *.
  - assert (∃ bv d0, bson.encode_value (bson.f_val g) = inr bv
                     ∧ bson.encode_struct s = inr d0
                     ∧ d = (bson.f_key (bson.f_decl g), bv) :: d0)
      as (bv & d0 & Hbv & Hd0 & ->).
    { destruct (bson.f_type (bson.f_decl g)); try done;
        destruct (bson.encode_value (bson.f_val g)); try done;
        destruct (bson.encode_struct s); try done;
        injection Henc as <-; eauto. }
    apply NoDup_cons in Hnd as [Hnotin Hnd].
    apply elem_of_cons in Hf as [->|Hf].
    + exists bv. split; [done|]. rewrite doc_lookup_cons.
      by rewrite bool_decide_eq_true_2.
    + destruct (IH d0 Hd0 Hnd f Hf Hexp) as (bv' & Hbv' & Hl).
      exists bv'. split; [done|]. rewrite doc_lookup_cons.
      rewrite bool_decide_eq_false_2; [done|].
      intros Heq. apply Hnotin. rewrite Heq.
      apply (list_elem_of_fmap_2 (λ f, bson.f_key (bson.f_decl f))).
      apply list_elem_of_In, filter_In. split; [by apply list_elem_of_In|done].
  - apply elem_of_cons in Hf as [->|Hf]; [congruence|]. by eapply IH.
Qed.

(** A well-formed record has an encoding. *)
Lemma encode_struct_ok s :
  forallb field_ok s = true → ∃ d, bson.encode_struct s = inr d.
Proof.
  induction s as [|g s IH]; simpl; [eauto|].
  intros [Hg Hs]%andb_true_iff. destruct (IH Hs) as [d0 Hd0].
  unfold field_ok, value_fits, encodable in Hg.
  destruct (is_exported (bson.f_name (bson.f_decl g))); simpl in *; [|eauto].
  rewrite Hd0.
  destruct (bson.f_type (bson.f_decl g)), (bson.f_val g); simpl in *;
    try done; eauto.
Qed.

(** Decoding, into a zero record of the same type, a document that holds
    the encoded value of every exported field gives the record as stored. *)
Lemma decode_struct_of_lookups s d :
  (∀ f, f ∈ s → is_exported (bson.f_name (bson.f_decl f)) = true →
        ∃ bv, bson.doc_lookup (bson.f_key (bson.f_decl f)) d = Some bv
              ∧ bson.decode_value (bson.f_type (bson.f_decl f)) bv
                = inr (stored_value (bson.f_type (bson.f_decl f))
                         (bson.f_val f))) →
  bson.decode_struct d (bson.zero_struct (bson.f_decl <$> s))
  = inr (as_stored s).
Proof.
  induction s as [|g s IH]; intros Hall; [done|].
  cbn [fmap list_fmap bson.zero_struct map as_stored].
  change (map (λ d0, bson.mkField d0 (zero_value (bson.f_type d0)))
            (bson.f_decl <$> s))
    with (bson.zero_struct (bson.f_decl <$> s)).
  cbn [bson.decode_struct bson.f_decl].
  rewrite IH by (intros f Hf; apply Hall; by right).
  fold (as_stored s).
  destruct (is_exported (bson.f_name (bson.f_decl g))) eqn:Hg; simpl; [|done].
  destruct (Hall g (list_elem_of_here _ _) Hg) as (bv & -> & ->). done.
Qed.

(** The round trip: what [Unmarshal]/[Decode] makes of any document that
    agrees with the encoding of [s] on the keys of [s]. *)
Lemma decode_struct_round_trip s d d' :
  record_ok s = true →
  bson.encode_struct s = inr d →
  (∀ k, k ∈ exported_keys s → bson.doc_lookup k d' = bson.doc_lookup k d) →
  bson.decode_struct d' (bson.zero_struct (bson.f_decl <$> s))
  = inr (as_stored s).
Proof.
  intros [Hok Hnd%bool_decide_eq_true]%andb_true_iff Henc Hagree.
  apply decode_struct_of_lookups. intros f Hf Hexp.
  destruct (encode_struct_lookup s d Henc Hnd f Hf Hexp) as (bv & Hbv & Hl).
  exists bv. split.
  - rewrite Hagree; [done|].
    apply (list_elem_of_fmap_2 (λ f, bson.f_key (bson.f_decl f))).
    apply list_elem_of_In, filter_In. split; [by apply list_elem_of_In|done].
  - apply decode_encode_value; [|done].
    rewrite forallb_forall in Hok.
    specialize (Hok f (proj1 (list_elem_of_In _ _) Hf)).
    unfold field_ok in Hok. by rewrite Hexp in Hok.
Qed.

(** Stamping keeps a well-formed record well-formed, and of its type. *)
Lemma fmap_decl_stamped name t s :
  bson.f_decl <$> stamped name t s = bson.f_decl <$> s.
Proof.
  apply list_eq. intros j. rewrite !list_lookup_fmap. apply stamped_decl.
Qed.

Lemma exported_keys_set_val s i f v :
  s !! i = Some f →
  exported_keys (<[i := bson.mkField (bson.f_decl f) v]> s) = exported_keys s.
Proof.
  revert i. induction s as [|g s IH]; intros i Hi; [done|].
  destruct i as [|i]; simpl in Hi.
  - injection Hi as ->. unfold exported_keys.
    cbn [insert list_insert List.filter bson.f_decl].
    by destruct (is_exported (bson.f_name (bson.f_decl f))).
  - unfold exported_keys in *. cbn [insert list_insert List.filter].
    specialize (IH i Hi).
    destruct (is_exported (bson.f_name (bson.f_decl g))); simpl;
      [f_equal|]; exact IH.
Qed.

Lemma forallb_field_ok_set_val s i f v :
  s !! i = Some f →
  field_ok (bson.mkField (bson.f_decl f) v) = true →
  forallb field_ok s = true →
  forallb field_ok (<[i := bson.mkField (bson.f_decl f) v]> s) = true.
Proof.
  revert i. induction s as [|g s IH]; intros i Hi Hv; [done|].
  destruct i as [|i]; simpl in Hi.
  - injection Hi as ->. cbn [insert list_insert forallb].
    intros [_ Hs]%andb_true_iff. by rewrite Hv, Hs.
  - cbn [insert list_insert forallb].
    intros [Hg Hs]%andb_true_iff. rewrite Hg. simpl. by apply IH.
Qed.

Lemma record_ok_stamped name t s :
  timestamp_typed name s = true →
  record_ok s = true → record_ok (stamped name t s) = true.
Proof.
  unfold timestamp_typed, stamped, record_ok.
  destruct (reflect.field_index name s) as [i|]; [|done].
  destruct (s !! i) as [f|] eqn:Hf; [|done].
  intros Hty [Hok Hnd]%andb_true_iff.
  rewrite exported_keys_set_val, Hnd, andb_true_r by done.
  apply forallb_field_ok_set_val; [done| |done].
  unfold field_ok, value_fits. simpl.
  destruct (bson.f_type (bson.f_decl f)); simpl in *; try done;
    by rewrite orb_true_r.
Qed.

(* ===================================================================== *)
(** ** [Create] and what [Get] finds afterwards *)
(* ===================================================================== *)

Lemma numeric_null v : bson.numeric v = bson.BNull ↔ v = bson.BNull.
Proof. by destruct v. Qed.

Lemma matches_id_key_of bid d :
  mongo.matches [("_id", bid)] d
  = bool_decide (mongo.key_of ["_id"] d = [bson.numeric bid]).
Proof.
  unfold mongo.matches, mongo.field_matches, mongo.key_of. simpl.
  rewrite andb_true_r.
  destruct (bson.doc_lookup "_id" d) as [v|]; simpl;
    apply bool_decide_ext.
  - split; congruence.
  - split.
    + intros ->. done.
    + intros [= H]. by destruct bid.
Qed.

Lemma no_dup_keys_snoc fields l d :
  mongo.no_dup_keys fields (l ++ [d]) = true →
  ∀ d0, d0 ∈ l → mongo.key_of fields d0 ≠ mongo.key_of fields d.
Proof.
  induction l as [|x l IH]; intros Hnd d0 Hd0.
  { by apply elem_of_nil in Hd0. }
  simpl in Hnd. apply andb_true_iff in Hnd as [Hx Hl].
  apply elem_of_cons in Hd0 as [->|Hd0]; [|by apply IH].
  apply negb_true_iff, not_true_iff_false in Hx. intros Heq.
  apply Hx, existsb_exists. exists d. split.
  - apply in_or_app. right. by left.
  - by apply bool_decide_eq_true_2.
Qed.

(** A collection that admits [d] holds no document with the identifier
    of [d]. *)
Lemma unique_ok_snoc_none_matches ixs l d bid :
  mongo.unique_ok ixs (l ++ [d]) = true →
  bson.doc_lookup "_id" d = Some bid →
  none_matches [("_id", bid)] l = true.
Proof.
  unfold mongo.unique_ok. intros [Hnd _]%andb_true_iff Hid.
  unfold none_matches. apply forallb_forall. intros d0 Hd0.
  apply negb_true_iff. rewrite matches_id_key_of.
  apply bool_decide_eq_false_2. intros Hk.
  apply (no_dup_keys_snoc _ _ _ Hnd d0); [by apply list_elem_of_In|].
  rewrite Hk. unfold mongo.key_of. simpl. by rewrite Hid.
Qed.

Lemma find_app_last {A} (p : A → bool) l d :
  find p l = None → p d = true → find p (l ++ [d]) = Some d.
Proof.
  induction l as [|x l IH]; simpl; intros Hl Hd; [by rewrite Hd|].
  destruct (p x); [done|]. by apply IH.
Qed.

Section Inserting.
Context {R : MapRange}.

(** [InsertOne] never panics, and when it returns an error it has
    written nothing. *)
Lemma InsertOne_error ctx item w :
  ∃ r, (mongo.InsertOne ctx item w).1 = Done r
       ∧ (is_Some r → coll (mongo.InsertOne ctx item w).2 = coll w).
Proof.
  unfold mongo.InsertOne, exec_bind, mongo.log_call. simpl.
  repeat case_match; simplify_eq; eexists; (split; [done|]);
    simpl; try done; by intros [? ?].
Qed.

(** X4. [Create] appends one document or nothing.  When it returns no error
    the collection has grown by the encoding of the stamped record (with a
    generated [_id] in front when the record has none), and no document
    had that identifier before; when it returns an error the collection is
    as it was.  It does not panic on a record whose timestamp attributes
    can hold a time. *)
Theorem Create_appends_one_document_or_nothing c ctx p s w :
  heap w !! p = Some s →
  timestamp_typed "CreatedAt" s = true →
  timestamp_typed "UpdatedAt" s = true →
  match (Create c ctx (Some p) w).1 with
  | Done None =>
      ∃ s' d,
        heap (Create c ctx (Some p) w).2 !! p = Some s'
        ∧ bson.encode_struct s' = inr d
        ∧ coll (Create c ctx (Some p) w).2
          = coll w ++ [with_id (next_oid w) d]
        ∧ (∀ bid, bson.doc_lookup "_id" (with_id (next_oid w) d) = Some bid →
                  none_matches [("_id", bid)] (coll w) = true)
  | Done (Some e) => coll (Create c ctx (Some p) w).2 = coll w
  | Panic _ => False
  end.
Proof.
  intros Hp Hc Hu.
  pose proof (Create_heap c ctx p s w Hp Hc Hu) as Hheap.
  rewrite (Create_run c ctx p s w Hp Hc Hu) in *. simpl in *.
  destruct (InsertOne_error ctx (Some p) (Create_stamped_world p s w))
    as (r & Hr & Herr).
  pose proof (InsertOne_success ctx p _ (Create_stamped_world p s w)
                (heap_store_record _ _ _)) as Hok.
  rewrite Hr in Hok |- *. destruct r as [e|].
  - by rewrite Herr.
  - destruct (Hok eq_refl) as (d & Hd & _ & Hu' & Hcoll).
    eexists _, d. split; [exact Hheap|]. split; [exact Hd|].
    split; [exact Hcoll|]. intros bid Hbid.
    by eapply (unique_ok_snoc_none_matches _ (coll w)).
Qed.

(** X5. [Create] then [Get]: after a [Create] that returned no error, [Get]
    with the identifier the record was stored under returns the record the
    caller now holds, its times cut to milliseconds. *)
Theorem Get_after_Create_returns_the_record T c ctx id bid p s w :
  heap w !! p = Some s →
  bson.f_decl <$> s = T →
  record_ok s = true →
  timestamp_typed "CreatedAt" s = true →
  timestamp_typed "UpdatedAt" s = true →
  bson.encode_value id = inr bid →
  (Create c ctx (Some p) w).1 = Done None →
  ∀ s', heap (Create c ctx (Some p) w).2 !! p = Some s' →
        record_id s' = Some bid →
        (Get T c ctx id (Create c ctx (Some p) w).2).1
        = Done (Some (as_stored s'), None).
Proof.
  intros Hp HT Hok Hc Hu Hid Hdone s' Hs' Hrid.
  rewrite (Create_heap c ctx p s w Hp Hc Hu) in Hs'. injection Hs' as <-.
  rewrite (Create_run c ctx p s w Hp Hc Hu) in *. simpl in Hdone |- *.
  destruct (InsertOne_success ctx p _ (Create_stamped_world p s w)
              (heap_store_record _ _ _) Hdone)
    as (d & Hd & Hrt & Huniq & Hcoll).
  unfold record_id in Hrid. rewrite Hd in Hrid.
  rewrite (doc_lookup_with_id _ _ _ Hrid) in Huniq, Hcoll.
  rewrite Get_result. unfold FindOne_answer.
  rewrite (encode_filter_D_id id bid Hid).
  rewrite round_trip_set_logs, Hrt.
  cbn [coll set_logs]. rewrite Hcoll.
  rewrite find_app_last.
  - unfold mongo.SingleResult_Decode. simpl.
    rewrite <-HT, <-(fmap_decl_stamped "CreatedAt" (clock w) s),
      <-(fmap_decl_stamped "UpdatedAt" (clock w)).
    rewrite (decode_struct_round_trip _ d d); [done| |done|done].
    by do 2 (apply record_ok_stamped; [by rewrite ?timestamp_typed_stamped|]).
  - apply none_matches_find.
    by eapply (unique_ok_snoc_none_matches _ (coll (Create_stamped_world p s w))).
  - rewrite matches_id_key_of. apply bool_decide_eq_true_2.
    unfold mongo.key_of. simpl. by rewrite Hrid.
Qed.

End Inserting.

(* ===================================================================== *)
(** ** [Delete] and [DeleteRange] *)
(* ===================================================================== *)

(** Removing the first match: nothing matched and nothing changed, or the
    list splits at the first match, which alone is gone. *)
Lemma remove_first_split {A} (p : A → bool) (l : list A) :
  (find p l = None ∧ mongo.remove_first p l = l)
  ∨ (∃ l1 x l2, l = l1 ++ x :: l2 ∧ find p l1 = None ∧ p x = true
                ∧ mongo.remove_first p l = l1 ++ l2).
Proof.
  induction l as [|x l IH]; [by left|]. simpl.
  destruct (p x) eqn:Hx.
  - right. exists [], x, l. by rewrite Hx.
  - destruct IH as [[Hn Hr]|(l1 & y & l2 & -> & Hn & Hy & Hr)].
    + left. by rewrite Hr.
    + right. exists (x :: l1), y, l2. simpl. rewrite Hx, Hr. done.
Qed.

(** In a collection without duplicate identifiers, removing the first
    document with an identifier leaves none with it. *)
Lemma remove_first_unique bid l :
  mongo.no_dup_keys ["_id"] l = true →
  none_matches [("_id", bid)]
    (mongo.remove_first (mongo.matches [("_id", bid)]) l) = true.
Proof.
  induction l as [|x l IH]; [done|].
  cbn [mongo.remove_first mongo.no_dup_keys].
  intros [Hx Hl]%andb_true_iff.
  destruct (mongo.matches [("_id", bid)] x) eqn:Hm.
  - unfold none_matches. apply forallb_forall. intros d Hd.
    apply negb_true_iff. rewrite matches_id_key_of in Hm |- *.
    apply bool_decide_eq_true in Hm. apply bool_decide_eq_false_2.
    intros Hk. apply negb_true_iff, not_true_iff_false in Hx.
    apply Hx, existsb_exists. exists d. split; [done|].
    apply bool_decide_eq_true_2. congruence.
  - unfold none_matches in *. cbn [forallb]. rewrite Hm. simpl. by apply IH.
Qed.

Lemma sublist_List_filter {A} (p : A → bool) (l : list A) :
  sublist (List.filter p l) l.
Proof.
  induction l as [|x l IH]; simpl; [constructor|].
  destruct (p x); by constructor.
Qed.

Lemma none_matches_List_filter f l :
  none_matches f (List.filter (λ d, negb (mongo.matches f d)) l) = true.
Proof.
  unfold none_matches. apply forallb_forall. intros d Hd.
  by apply filter_In in Hd as [_ Hd].
Qed.

(* ===================================================================== *)
(** ** Selector maps and the filters built from them *)
(* ===================================================================== *)

Lemma elems_foldl_append {A B} (g : A → B) (l : list A) (acc : slice B) :
  elems (foldl (λ acc x, append acc (g x)) acc l) = elems acc ++ map g l.
Proof.
  revert acc. induction l as [|x l IH]; intros acc; simpl.
  - by rewrite app_nil_r.
  - rewrite IH. unfold append. simpl. by rewrite <-app_assoc.
Qed.

(** The filter built from a selector map has the entries of the map, each
    once, in the order the runtime ranges over them. *)
Lemma filter_entries_of_sels {R : MapRange} (sels : gmap string GoValue) :
  mongo.filter_entries (mongo.FilterD (filter_of_sels sels)) = range_of sels.
Proof.
  unfold mongo.filter_entries, filter_of_sels.
  rewrite (elems_foldl_append (λ kv, bson.mkE kv.1 kv.2)). simpl.
  rewrite map_map. etrans; [|apply map_id].
  apply map_ext. by intros [k v].
Qed.

Lemma foldl_append_make {A B} (g : A → B) (l : list A) (acc : list B) :
  foldl (λ acc x, append acc (g x)) (make_slice acc) l
  = make_slice (acc ++ map g l).
Proof.
  revert acc. induction l as [|x l IH]; intros acc; simpl.
  - by rewrite app_nil_r.
  - unfold append at 2. simpl elems. by rewrite IH, <-app_assoc.
Qed.

Lemma holds_encoded d k v bv :
  bson.encode_value v = inr bv → holds d k v = mongo.field_matches d (k, bv).
Proof. unfold holds. by intros ->. Qed.

(** A document satisfies encoded constraints exactly when it holds the
    values that were encoded. *)
Lemma forallb_encoded d l f :
  bson.encode_entries l = inr f →
  forallb (mongo.field_matches d) f = true
  ↔ Forall (λ kv : string * GoValue, holds d kv.1 kv.2 = true) l.
Proof.
  revert f. induction l as [|[k v] l IH]; intros f; simpl.
  - intros [= <-]. simpl. split; [constructor|done].
  - destruct (bson.encode_value v) as [e|bv] eqn:Hv; [done|].
    destruct (bson.encode_entries l) as [e|f0]; [done|].
    intros [= <-]. simpl. rewrite andb_true_iff, Forall_cons, (IH f0 eq_refl).
    simpl. by rewrite (holds_encoded d k v bv Hv).
Qed.

Section Selecting.
Context {R : MapRange}.

Lemma range_of_nil {V} (m : gmap string V) : range_of m = [] → m = ∅.
Proof.
  intros Hnil. apply map_to_list_empty_iff, Permutation_nil_r.
  by rewrite <-range_of_perm, Hnil.
Qed.

(** Over a map that is not empty the loop leaves a slice that is not nil:
    the entries of the map in the order of the range. *)
Lemma filter_of_sels_make (sels : gmap string GoValue) :
  sels ≠ ∅ →
  filter_of_sels sels
  = make_slice (map (λ kv, bson.mkE kv.1 kv.2) (range_of sels)).
Proof.
  intros Hne. unfold filter_of_sels.
  destruct (range_of sels) as [|kv l] eqn:Hl.
  { by apply range_of_nil in Hl. }
  simpl. unfold append at 2. simpl elems.
  by rewrite (foldl_append_make (λ kv, bson.mkE kv.1 kv.2)).
Qed.

Lemma encode_filter_of_sels (sels : gmap string GoValue) :
  sels ≠ ∅ →
  mongo.encode_filter (mongo.FilterD (filter_of_sels sels))
  = mongo.or_MarshalError "primitive.D" (bson.encode_entries (range_of sels)).
Proof.
  intros Hne. rewrite <-(filter_entries_of_sels sels).
  by rewrite (filter_of_sels_make sels Hne).
Qed.

Lemma encode_filter_of_sels_inv (sels : gmap string GoValue) f :
  mongo.encode_filter (mongo.FilterD (filter_of_sels sels)) = inr f →
  sels ≠ ∅ ∧ bson.encode_entries (range_of sels) = inr f.
Proof.
  intros Hf. destruct (decide (sels = ∅)) as [->|Hne].
  { by rewrite filter_of_sels_empty in Hf. }
  split; [done|]. rewrite encode_filter_of_sels in Hf by done.
  destruct (bson.encode_entries (range_of sels)); simpl in Hf; congruence.
Qed.

Lemma encode_filter_of_sels_ok (sels : gmap string GoValue) :
  sels ≠ ∅ →
  map_Forall (λ _ v, encodable v = true) sels →
  ∃ f, mongo.encode_filter (mongo.FilterD (filter_of_sels sels)) = inr f.
Proof.
  intros Hne Hall. rewrite encode_filter_of_sels by done.
  destruct (encode_entries_ok (range_of sels)) as [f ->]; [|by exists f].
  apply Forall_forall. intros [k v] Hin. simpl.
  rewrite range_of_perm in Hin. apply elem_of_map_to_list in Hin.
  by apply (Hall k v).
Qed.

(** The filter built from a selector map is satisfied by the documents
    that hold, under every key of the map, the value of the map. *)
Lemma matches_selected (sels : gmap string GoValue) f d :
  mongo.encode_filter (mongo.FilterD (filter_of_sels sels)) = inr f →
  mongo.matches f d = selected sels d.
Proof.
  intros [_ Hf]%encode_filter_of_sels_inv.
  pose proof (forallb_encoded d _ f Hf) as Hiff.
  assert (Forall (λ kv : string * GoValue, holds d kv.1 kv.2 = true)
                 (range_of sels)
          ↔ map_Forall (λ k v, holds d k v = true) sels) as Hmap.
  { rewrite map_Forall_to_list, range_of_perm.
    apply Forall_proper; [|done]. by intros [k v]. }
  unfold mongo.matches, selected.
  destruct (forallb (mongo.field_matches d) f) eqn:Hm; symmetry.
  - apply bool_decide_eq_true_2, Hmap, Hiff. done.
  - apply bool_decide_eq_false_2. intros Hall.
    apply Hmap, Hiff in Hall. congruence.
Qed.

End Selecting.

Section Deleting.
Context {R : MapRange}.

Lemma Delete_run c ctx id w :
  Delete c ctx id w =
    match bson.encode_value id with
    | inl e =>
        (Done (Some (MarshalError "primitive.D" e)),
         set_calls (calls w ++ [mkCall MDeleteOne ctx]) w)
    | inr bid =>
        match mongo.round_trip ctx w with
        | Some e =>
            (Done (Some e), set_calls (calls w ++ [mkCall MDeleteOne ctx]) w)
        | None =>
            (Done None,
             set_coll (mongo.remove_first (mongo.matches [("_id", bid)])
                         (coll w))
               (set_calls (calls w ++ [mkCall MDeleteOne ctx]) w))
        end
    end.
Proof.
  unfold Delete, exec_bind, mongo.DeleteOne, exec_bind, mongo.log_call,
    mongo.encode_filter, mongo.filter_entries.
  simpl. destruct (bson.encode_value id) as [e|bid]; [done|].
  rewrite round_trip_set_calls.
  by destruct (mongo.round_trip ctx w).
Qed.

(** X6. [Delete] on a served call returns no error whether or not a document
    had the identifier.  With none, the collection is as it was; otherwise
    the first such document is gone and every other document is where it
    was.  In a collection without duplicate identifiers no document has
    the identifier afterwards, and [Get] answers with the no-documents
    condition. *)
Theorem Delete_removes_the_document_if_there_is_one T c ctx id bid w :
  bson.encode_value id = inr bid →
  ctx_Err ctx = None →
  server_up w = true →
  (Delete c ctx id w).1 = Done None
  ∧ ((none_matches [("_id", bid)] (coll w) = true
      ∧ coll (Delete c ctx id w).2 = coll w)
     ∨ (∃ l1 d l2,
          coll w = l1 ++ d :: l2
          ∧ none_matches [("_id", bid)] l1 = true
          ∧ mongo.matches [("_id", bid)] d = true
          ∧ coll (Delete c ctx id w).2 = l1 ++ l2))
  ∧ (mongo.no_dup_keys ["_id"] (coll w) = true →
     none_matches [("_id", bid)] (coll (Delete c ctx id w).2) = true
     ∧ (Get T c ctx id (Delete c ctx id w).2).1
       = Done (None, Some ErrNoDocuments)).
Proof.
  intros Hid Hctx Hup. rewrite Delete_run, Hid.
  unfold mongo.round_trip at 1 2 3 4 5. rewrite Hctx, Hup. simpl.
  split; [done|]. split.
  - destruct (remove_first_split (mongo.matches [("_id", bid)]) (coll w))
      as [[Hn Hr]|(l1 & d & l2 & Hl & Hn & Hd & Hr)].
    + left. split; [|done]. unfold none_matches. apply forallb_forall.
      intros d Hd. apply negb_true_iff.
      by eapply find_none in Hn.
    + right. exists l1, d, l2. repeat split; try done.
      unfold none_matches. apply forallb_forall.
      intros d' Hd'. apply negb_true_iff. by eapply find_none in Hn.
  - intros Hnd.
    pose proof (remove_first_unique bid (coll w) Hnd) as Hnone.
    split; [exact Hnone|].
    rewrite Get_result. unfold FindOne_answer.
    rewrite (encode_filter_D_id id bid Hid).
    unfold mongo.round_trip. simpl. rewrite Hctx, Hup.
    by rewrite none_matches_find.
Qed.

Lemma DeleteRange_run c ctx sels w :
  DeleteRange c ctx sels w =
    match mongo.encode_filter (mongo.FilterD (filter_of_sels sels)) with
    | inl e => (Done (Some e), set_calls (calls w ++ [mkCall MDeleteMany ctx]) w)
    | inr f =>
        match mongo.round_trip ctx w with
        | Some e =>
            (Done (Some e), set_calls (calls w ++ [mkCall MDeleteMany ctx]) w)
        | None =>
            (Done None,
             set_coll (List.filter (λ d, negb (mongo.matches f d)) (coll w))
               (set_calls (calls w ++ [mkCall MDeleteMany ctx]) w))
        end
    end.
Proof.
  unfold DeleteRange, exec_bind, mongo.DeleteMany, exec_bind, mongo.log_call.
  cbn [fst snd]. cbv zeta.
  destruct (mongo.encode_filter (mongo.FilterD (filter_of_sels sels)))
    as [e|f]; [done|].
  rewrite round_trip_set_calls.
  by destruct (mongo.round_trip ctx w).
Qed.

(** X7. [DeleteRange] with a selector map that is not empty, whose keys are
    names of fields and whose values encode, on a served call: it returns
    no error and removes the documents that hold, under every key of the
    map, the value of the map, all of them and no other; the rest stay in
    their order, and [List] with the same map then returns the empty
    sequence.  With the empty map it removes nothing: the filter stays
    nil and the call fails. *)
Theorem DeleteRange_removes_the_matching_documents T c ctx sels w :
  (sels ≠ ∅ →
   map_Forall (λ k v, field_name k = true ∧ encodable v = true) sels →
   ctx_Err ctx = None →
   server_up w = true →
   (DeleteRange c ctx sels w).1 = Done None
   ∧ coll (DeleteRange c ctx sels w).2
     = List.filter (λ d, negb (selected sels d)) (coll w)
   ∧ (∀ d, d ∈ coll (DeleteRange c ctx sels w).2
           ↔ d ∈ coll w ∧ selected sels d = false)
   ∧ sublist (coll (DeleteRange c ctx sels w).2) (coll w)
   ∧ (List T c ctx sels (DeleteRange c ctx sels w).2).1
     = Done (make_slice [], None))
  ∧ (sels = ∅ →
     (DeleteRange c ctx sels w).1
     = Done (Some (MarshalError "primitive.D" ErrWriteNull))
     ∧ coll (DeleteRange c ctx sels w).2 = coll w).
Proof.
  split.
  - intros Hne Hall Hctx Hup.
    destruct (encode_filter_of_sels_ok sels Hne) as [f Hf].
    { intros k v Hk. by destruct (Hall k v Hk). }
    rewrite DeleteRange_run, Hf.
    unfold mongo.round_trip at 1 2 3 4 5. rewrite Hctx, Hup.
    cbn [fst snd coll set_coll].
    assert (List.filter (λ d, negb (mongo.matches f d)) (coll w)
            = List.filter (λ d, negb (selected sels d)) (coll w)) as Hsel.
    { apply filter_ext. intros d. by rewrite (matches_selected sels f d Hf). }
    split; [done|]. split; [exact Hsel|]. split; [|split].
    + intros d. rewrite Hsel, !list_elem_of_In, filter_In, negb_true_iff. done.
    + apply sublist_List_filter.
    + rewrite List_result. unfold query_answer, mongo.round_trip.
      rewrite Hf. cbn [server_up set_coll set_calls coll]. rewrite Hctx, Hup.
      rewrite filter_none_matches by apply none_matches_List_filter.
      by rewrite delivered_nil.
  - intros ->. rewrite DeleteRange_run, filter_of_sels_empty. done.
Qed.

End Deleting.

(* ===================================================================== *)
(** ** [$set]: what an update writes *)
(* ===================================================================== *)

Lemma doc_lookup_None k (d : bson.Document) :
  bson.doc_lookup k d = None ↔ k ∉ d.*1.
Proof.
  induction d as [|[k' v] d IH].
  - split; [intros _; apply not_elem_of_nil|done].
  - rewrite fmap_cons, not_elem_of_cons. cbn [bson.doc_lookup fst].
    case_bool_decide as Hk.
    + split; [done|]. intros [Hn _]. congruence.
    + rewrite IH. split; [intros ?; split; [congruence|done]|by intros [_ ?]].
Qed.

Lemma doc_lookup_None_not k (d : bson.Document) :
  k ∈ d.*1 ↔ bson.doc_lookup k d ≠ None.
Proof.
  rewrite doc_lookup_None. split; [tauto|].
  intros Hnn. by destruct (decide (k ∈ d.*1)).
Qed.

Lemma doc_lookup_doc_set k k' v d :
  bson.doc_lookup k (mongo.doc_set k' v d)
  = if bool_decide (k' = k) then Some v else bson.doc_lookup k d.
Proof.
  induction d as [|[k0 v0] d IH]; simpl.
  - done.
  - destruct (bool_decide (k0 = k')) eqn:H0; simpl.
    + apply bool_decide_eq_true in H0 as ->. by case_bool_decide.
    + apply bool_decide_eq_false in H0. rewrite IH.
      repeat case_bool_decide; congruence.
Qed.

Lemma doc_lookup_foldl_set (l : list (string * bson.BValue)) d k :
  NoDup l.*1 →
  bson.doc_lookup k (foldl (λ d kv, mongo.doc_set kv.1 kv.2 d) d l)
  = match (list_to_map l : gmap string bson.BValue) !! k with
    | Some v => Some v
    | None => bson.doc_lookup k d
    end.
Proof.
  revert d. induction l as [|[k1 v1] l IH]; intros d Hnd; [done|].
  rewrite fmap_cons, NoDup_cons in Hnd. destruct Hnd as [Hk1 Hnd].
  simpl in Hk1 |- *. rewrite IH by done.
  rewrite doc_lookup_doc_set.
  destruct (decide (k1 = k)) as [->|Hne].
  - rewrite lookup_insert_eq, bool_decide_eq_true_2 by done.
    by rewrite (not_elem_of_list_to_map_1 _ _ Hk1).
  - by rewrite lookup_insert_ne, bool_decide_eq_false_2.
Qed.

Lemma doc_lookup_list_to_map (l : bson.Document) k :
  (list_to_map l : gmap string bson.BValue) !! k = bson.doc_lookup k l.
Proof.
  induction l as [|[k1 v1] l IH]; simpl; [apply lookup_empty|].
  case_bool_decide as Hk.
  - subst. apply lookup_insert_eq.
  - by rewrite lookup_insert_ne.
Qed.

(** What [bson.Unmarshal] leaves in the [bson.M] under a key: the value
    the data holds there, decoded as into an [interface{}]. *)
Lemma lookup_unmarshalled (data : bson.Document) k :
  NoDup data.*1 →
  unmarshalled data !! k = bson.decode_any <$> bson.doc_lookup k data.
Proof.
  unfold unmarshalled.
  assert (∀ acc : bson.M,
            NoDup data.*1 →
            foldl (λ (m : bson.M) kv, <[kv.1 := bson.decode_any kv.2]> m)
                  acc data !! k
            = match bson.doc_lookup k data with
              | Some v => Some (bson.decode_any v)
              | None => acc !! k
              end) as Hgen.
  { induction data as [|[k1 v1] data IH]; intros acc Hnd; [done|].
    rewrite fmap_cons, NoDup_cons in Hnd. destruct Hnd as [Hk1 Hnd].
    simpl in Hk1 |- *. rewrite IH by done.
    case_bool_decide as Hk.
    - subst. rewrite (proj2 (doc_lookup_None _ _) Hk1).
      by rewrite lookup_insert_eq.
    - by rewrite lookup_insert_ne. }
  intros Hnd. rewrite (Hgen ∅ Hnd), lookup_empty.
  by destruct (bson.doc_lookup k data).
Qed.

(** Encoded entries keep their keys, in order, and hold the encodings. *)
Lemma encode_entries_Forall2 l d :
  bson.encode_entries l = inr d →
  Forall2 (λ kv kb, kv.1 = kb.1 ∧ bson.encode_value kv.2 = inr kb.2) l d.
Proof.
  revert d. induction l as [|[k v] l IH]; intros d; simpl.
  - intros [= <-]. constructor.
  - destruct (bson.encode_value v) as [e|bv] eqn:Hv; [done|].
    destruct (bson.encode_entries l) as [e|d0]; [done|].
    intros [= <-]. constructor; [done|]. by apply IH.
Qed.

Lemma encode_entries_keys l d :
  bson.encode_entries l = inr d → d.*1 = l.*1.
Proof.
  intros H%encode_entries_Forall2.
  induction H as [|[k v] [k' bv] l d [Hk _] _ IH]; [done|].
  simpl in Hk. by rewrite !fmap_cons, IH, Hk.
Qed.

(** Under a key of the entries the encoding holds the encoded value, and
    under no other key anything. *)
Lemma encode_entries_lookup (m : gmap string GoValue) l d k :
  NoDup l.*1 →
  (list_to_map l : gmap string GoValue) = m →
  bson.encode_entries l = inr d →
  match m !! k with
  | Some v => ∃ bv, bson.encode_value v = inr bv
                    ∧ bson.doc_lookup k d = Some bv
  | None => bson.doc_lookup k d = None
  end.
Proof.
  intros Hnd <- Henc. revert d Henc.
  induction l as [|[k1 v1] l IH]; intros d; simpl.
  - intros [= <-]. by rewrite lookup_empty.
  - rewrite fmap_cons, NoDup_cons in Hnd. destruct Hnd as [Hk1 Hnd].
    simpl in Hk1.
    destruct (bson.encode_value v1) as [e|bv1] eqn:Hv1; [done|].
    destruct (bson.encode_entries l) as [e|d0] eqn:Hd0; [done|].
    intros [= <-]. rewrite doc_lookup_cons.
    specialize (IH Hnd d0 eq_refl).
    destruct (decide (k1 = k)) as [->|Hne].
    + rewrite lookup_insert_eq, bool_decide_eq_true_2 by done. eauto.
    + by rewrite lookup_insert_ne, bool_decide_eq_false_2.
Qed.

(** With names that [$set] can assign, the fields are assigned one after
    the other. *)
Lemma apply_set_names sp (fields : bson.Document) d :
  Forall (λ k, settable_name k = true) fields.*1 →
  mongo.apply_set sp fields d
  = inr (foldl (λ d kv, mongo.doc_set kv.1 kv.2 d) d fields).
Proof.
  unfold mongo.apply_set. revert d.
  induction fields as [|[k v] fields IH]; intros d Hall; [done|].
  rewrite fmap_cons, Forall_cons in Hall. destruct Hall as [Hk Hall].
  simpl in Hk |- *. unfold mongo.set_field at 2.
  unfold settable_name, field_name in Hk.
  apply andb_true_iff in Hk as [Hne [Hdollar Hdot]%andb_true_iff].
  apply negb_true_iff in Hne, Hdollar, Hdot.
  rewrite Hne, Hdollar, Hdot. by apply IH.
Qed.

Section Setting.
Context {R : MapRange}.

Lemma list_to_map_range_of {V} (m : gmap string V) :
  (list_to_map (range_of m) : gmap string V) = m.
Proof.
  transitivity (list_to_map (map_to_list m) : gmap string V);
    [|apply list_to_map_to_list].
  apply list_to_map_proper; [|apply range_of_perm].
  rewrite range_of_perm. apply NoDup_fst_map_to_list.
Qed.

Lemma NoDup_fst_range_of {V} (m : gmap string V) : NoDup (range_of m).*1.
Proof. rewrite range_of_perm. apply NoDup_fst_map_to_list. Qed.

(** The map that [bson.Unmarshal] made of serialized data encodes to
    fields that hold what the data held. *)
Lemma fields_of_unmarshalled (data fields : bson.Document) :
  NoDup data.*1 →
  bson.encode_entries (range_of (unmarshalled data)) = inr fields →
  NoDup fields.*1
  ∧ ∀ k, bson.doc_lookup k fields = bson.doc_lookup k data.
Proof.
  intros Hnd Henc. split.
  { rewrite (encode_entries_keys _ _ Henc). apply NoDup_fst_range_of. }
  intros k.
  pose proof (encode_entries_lookup (unmarshalled data) _ fields k
                (NoDup_fst_range_of _) (list_to_map_range_of _) Henc)
    as Hlook.
  rewrite (lookup_unmarshalled data k Hnd) in Hlook.
  destruct (bson.doc_lookup k data) as [bv0|]; simpl in Hlook; [|done].
  destruct Hlook as (bv & Hbv & ->).
  rewrite encode_decode_any in Hbv. by injection Hbv as ->.
Qed.

(** The update document of [Update] and [UpdateAttributes] applied to a
    document: the fields of the data take the values of the data, the
    other fields of the document keep theirs. *)
Lemma set_doc_applied sp (data fields : bson.Document) d d' :
  NoDup data.*1 →
  Forall (λ k, settable_name k = true) data.*1 →
  bson.encode_entries (range_of (unmarshalled data)) = inr fields →
  mongo.update_doc sp [("$set", fields)] d = inr d' →
  (∀ k, bson.doc_lookup k d'
        = match bson.doc_lookup k data with
          | Some v => Some v
          | None => bson.doc_lookup k d
          end)
  ∧ bson.doc_lookup "_id" d' = bson.doc_lookup "_id" d.
Proof.
  intros Hnd Hnames Henc.
  destruct (fields_of_unmarshalled data fields Hnd Henc) as [Hndf Hlook].
  unfold mongo.update_doc, mongo.apply_update. simpl.
  rewrite apply_set_names.
  - case_bool_decide as Hid; [|done]. intros [= <-]. split; [|done].
    intros k. rewrite doc_lookup_foldl_set by done.
    by rewrite doc_lookup_list_to_map, Hlook.
  - apply Forall_forall. intros k Hk.
    rewrite Forall_forall in Hnames. apply Hnames.
    apply doc_lookup_None_not. rewrite <-Hlook.
    by apply doc_lookup_None_not.
Qed.

End Setting.

(* ===================================================================== *)
(** ** [UpdateAttributes]: the bulk update *)
(* ===================================================================== *)

(** A multi-document update that went through: every document was either
    left as it was or updated. *)
Lemma update_each_inv sp ixs f u before todo docs :
  mongo.update_each sp ixs f u before todo = (None, docs) →
  ∃ todo', docs = before ++ todo'
           ∧ Forall2 (λ d d', if mongo.matches f d
                              then mongo.update_doc sp u d = inr d'
                              else d' = d) todo todo'.
Proof.
  revert before. induction todo as [|d todo IH]; intros before; simpl.
  - intros [= <-]. exists []. rewrite app_nil_r. split; [done|constructor].
  - destruct (mongo.matches f d) eqn:Hm.
    + destruct (mongo.update_doc sp u d) as [e|d'] eqn:Hd; [done|].
      destruct (mongo.unique_ok _ _); [|done].
      intros (todo' & -> & Hall)%IH.
      exists (d' :: todo'). rewrite <-app_assoc. split; [done|].
      constructor; [by rewrite Hm|done].
    + intros (todo' & -> & Hall)%IH.
      exists (d :: todo'). rewrite <-app_assoc. split; [done|].
      constructor; [by rewrite Hm|done].
Qed.

Section BulkUpdate.
Context {R : MapRange}.

Lemma UpdateMany_success ctx filter u w r :
  (mongo.UpdateMany ctx filter u w).1 = Done (r, None) →
  ∃ f ops,
    mongo.encode_filter filter = inr f
    ∧ mongo.encode_update u = inr ops
    ∧ Forall2 (λ d d', if mongo.matches f d
                       then mongo.update_doc (set_path w) ops d = inr d'
                       else d' = d)
        (coll w) (coll (mongo.UpdateMany ctx filter u w).2).
Proof.
  unfold mongo.UpdateMany, exec_bind, mongo.log_call. cbn [fst snd].
  destruct (mongo.encode_filter filter) as [e|f]; [done|].
  destruct (mongo.encode_update u) as [e|ops]; [done|].
  destruct (mongo.round_trip ctx _); [done|].
  cbn [set_path indexes coll set_calls].
  destruct (mongo.update_each _ _ _ _ _ _) as [[e|] docs] eqn:Hall; [done|].
  intros _. exists f, ops. split; [done|]. split; [done|].
  apply update_each_inv in Hall as (todo' & -> & Hall). exact Hall.
Qed.

Lemma UpdateAttributes_run c ctx sels p m w :
  maps w !! p = Some m →
  UpdateAttributes c ctx sels (Some p) w =
    match bson.encode_entries
            (range_of (<["updated_at" := GTime (clock w)]> m)) with
    | inl err =>
        (Done (Some err),
         UpdateAttributes_finished (UpdateAttributes_world p m w))
    | inr dataByte =>
        let r := mongo.UpdateMany ctx (mongo.FilterD (filter_of_sels sels))
                   (Update_set_doc dataByte) (UpdateAttributes_world p m w) in
        (match r.1 with
         | Done x => Done x.2
         | Panic msg => Panic msg
         end, UpdateAttributes_finished r.2)
    end.
Proof.
  intros Hp. unfold UpdateAttributes.
  unfold exec_bind at 1. simpl. unfold with_defer.
  unfold exec_bind at 1. simpl.
  unfold exec_bind at 1, map_assign. simpl. rewrite Hp. simpl.
  unfold exec_bind at 1, map_read. simpl. rewrite lookup_insert_eq. simpl.
  fold (UpdateAttributes_world p m w).
  destruct (bson.encode_entries _) as [err|dataByte]; [done|].
  simpl. unfold exec_bind.
  fold (unmarshalled dataByte). fold (Update_set_doc dataByte).
  destruct (mongo.UpdateMany ctx (mongo.FilterD (filter_of_sels sels))
              (Update_set_doc dataByte) (UpdateAttributes_world p m w))
    as [[[res [e|]]|msg] w2]; done.
Qed.

(** X8. [UpdateAttributes] that returns no error, for a selector map whose
    keys are names of fields and an attribute map whose keys are names
    that [$set] can assign: the selector map was not empty, and the call
    has gone through the collection document by document.  A document
    that does not hold the values of the selector map is as it was; one
    that does holds, under each key of the attribute map, the encoding of
    its value, under [updated_at] the time of the call in milliseconds,
    and under every other key what it held. *)
Theorem UpdateAttributes_sets_the_attributes_on_every_match
    c ctx sels p m w :
  maps w !! p = Some m →
  map_Forall (λ k _, field_name k = true) sels →
  map_Forall (λ k _, settable_name k = true) m →
  (UpdateAttributes c ctx sels (Some p) w).1 = Done None →
  sels ≠ ∅
  ∧ Forall2
      (λ d d',
         if selected sels d then
           (∀ k v, k ≠ "updated_at" → m !! k = Some v →
                   ∃ bv, bson.encode_value v = inr bv
                         ∧ bson.doc_lookup k d' = Some bv)
           ∧ bson.doc_lookup "updated_at" d'
             = Some (bson.BDateTime (clock w `div` bson.nanos_per_milli))
           ∧ (∀ k, k ≠ "updated_at" → m !! k = None →
                   bson.doc_lookup k d' = bson.doc_lookup k d)
         else d' = d)
      (coll w) (coll (UpdateAttributes c ctx sels (Some p) w).2).
Proof.
  intros Hp _ Hnames. rewrite (UpdateAttributes_run c ctx sels p m w Hp).
  destruct (bson.encode_entries _) as [err|dataByte] eqn:Henc; [done|].
  cbv zeta. cbn [fst snd].
  destruct (mongo.UpdateMany ctx _ _ _) as [[[res [e|]]|msg] w2] eqn:HU;
    try done.
  intros _.
  assert ((mongo.UpdateMany ctx (mongo.FilterD (filter_of_sels sels))
             (Update_set_doc dataByte) (UpdateAttributes_world p m w)).1
          = Done (res, None)) as HU1 by (by rewrite HU).
  destruct (UpdateMany_success ctx _ _ _ res HU1)
    as (f & ops & Hf & Hops & Hall).
  rewrite HU in Hall. cbn [snd] in Hall. unfold UpdateAttributes_finished.
  cbn [coll set_logs].
  destruct (encode_filter_of_sels_inv sels f Hf) as [Hne _].
  split; [exact Hne|].
  destruct (encode_update_set_doc dataByte) as (fields & Hfields & Hops').
  rewrite Hops' in Hops. injection Hops as <-.
  assert (NoDup dataByte.*1) as Hnd.
  { rewrite (encode_entries_keys _ _ Henc). apply NoDup_fst_range_of. }
  pose proof (λ k, encode_entries_lookup
                     (<["updated_at" := GTime (clock w)]> m) _ dataByte k
                     (NoDup_fst_range_of _) (list_to_map_range_of _) Henc)
    as Hlook.
  assert (Forall (λ k, settable_name k = true) dataByte.*1) as Hsettable.
  { apply Forall_forall. intros k Hk.
    apply doc_lookup_None_not in Hk. specialize (Hlook k).
    destruct (decide (k = "updated_at")) as [->|Hkne]; [done|].
    rewrite lookup_insert_ne in Hlook by done.
    destruct (m !! k) as [v|] eqn:Hmk; [by apply (Hnames k v)|done]. }
  eapply Forall2_impl; [exact Hall|]. intros d d' Hd.
  cbn [coll UpdateAttributes_world set_maps set_clock set_logs set_path] in Hd.
  rewrite (matches_selected sels f d Hf) in Hd.
  destruct (selected sels d); [|done].
  destruct (set_doc_applied _ dataByte fields d d' Hnd Hsettable Hfields Hd)
    as [Hset _].
  split; [|split].
  - intros k v Hk Hv. specialize (Hlook k).
    rewrite lookup_insert_ne, Hv in Hlook by done.
    destruct Hlook as (bv & Hbv & Hl). exists bv. split; [done|].
    by rewrite Hset, Hl.
  - specialize (Hlook "updated_at"). rewrite lookup_insert_eq in Hlook.
    destruct Hlook as (bv & Hbv & Hl). rewrite Hset, Hl.
    by injection Hbv as <-.
  - intros k Hk Hv. specialize (Hlook k).
    rewrite lookup_insert_ne, Hv in Hlook by done.
    by rewrite Hset, Hlook.
Qed.

End BulkUpdate.

(* ===================================================================== *)
(** ** [Update] and what [Get] finds afterwards *)
(* ===================================================================== *)



Lemma find_None_none_matches f docs :
  find (mongo.matches f) docs = None → none_matches f docs = true.
Proof.
  intros Hn. unfold none_matches. apply forallb_forall. intros d Hd.
  apply negb_true_iff. by eapply find_none in Hn.
Qed.


Section Updating.
Context {R : MapRange}.



End Updating.

(* ===================================================================== *)
(** ** The order of a selector map does not matter *)
(* ===================================================================== *)

Lemma same_filter_trans a b c :
  same_filter a b → same_filter b c → same_filter a c.
Proof.
  destruct a, b, c; simpl; try done.
  intros ? ?. by etrans.
Qed.

Lemma encode_entries_perm l1 l2 :
  l1 ≡ₚ l2 → same_filter (bson.encode_entries l1) (bson.encode_entries l2).
Proof.
  induction 1 as [|[k v] l1 l2 Hp IH|[k1 v1] [k2 v2] l|l1 l2 l3 _ IH1 _ IH2].
  - simpl. reflexivity.
  - simpl. destruct (bson.encode_value v); [done|].
    destruct (bson.encode_entries l1), (bson.encode_entries l2);
      simpl in *; try done. by constructor.
  - simpl.
    destruct (bson.encode_value v1) as [e1|b1] eqn:H1,
             (bson.encode_value v2) as [e2|b2] eqn:H2; simpl; try done.
    destruct (bson.encode_entries l); simpl; [done|]. apply perm_swap.
  - by eapply same_filter_trans.
Qed.

Lemma matches_perm f1 f2 d :
  f1 ≡ₚ f2 → mongo.matches f1 d = mongo.matches f2 d.
Proof.
  unfold mongo.matches.
  induction 1 as [|x l1 l2 _ IH|x y l|l1 l2 l3 _ IH1 _ IH2]; simpl.
  - done.
  - by rewrite IH.
  - by rewrite !andb_assoc, (andb_comm (mongo.field_matches d y)).
  - congruence.
Qed.

Lemma find_ext {A} (p q : A → bool) l :
  (∀ x, p x = q x) → find p l = find q l.
Proof.
  intros Hpq. induction l as [|x l IH]; [done|]. simpl. by rewrite Hpq, IH.
Qed.

(** In two orders the filter of a selector map is refused both times, or
    encodes to the same constraints in some order. *)
Lemma encode_filter_of_sels_perm (R1 R2 : MapRange) (sels : gmap string GoValue) :
  same_filter
    (@mongo.encode_filter R1 (mongo.FilterD (@filter_of_sels R1 sels)))
    (@mongo.encode_filter R2 (mongo.FilterD (@filter_of_sels R2 sels))).
Proof.
  destruct (decide (sels = ∅)) as [->|Hne].
  { by rewrite !filter_of_sels_empty. }
  rewrite !encode_filter_of_sels by done.
  pose proof (encode_entries_perm (@range_of R1 _ sels) (@range_of R2 _ sels))
    as Hperm.
  destruct (bson.encode_entries (@range_of R1 _ sels)),
           (bson.encode_entries (@range_of R2 _ sels)); simpl in *;
    try done; apply Hperm;
    by rewrite (@range_of_perm R1), (@range_of_perm R2).
Qed.

(** With values the driver can encode, the filter is refused in both
    orders only when the map is empty, and then with the same error. *)
Lemma encode_filter_of_sels_refused (R1 R2 : MapRange)
    (sels : gmap string GoValue) e1 e2 :
  map_Forall (λ _ v, encodable v = true) sels →
  @mongo.encode_filter R1 (mongo.FilterD (@filter_of_sels R1 sels)) = inl e1 →
  @mongo.encode_filter R2 (mongo.FilterD (@filter_of_sels R2 sels)) = inl e2 →
  e1 = e2.
Proof.
  intros Hall H1 H2. destruct (decide (sels = ∅)) as [->|Hne].
  { rewrite (@filter_of_sels_empty R1) in H1.
    rewrite (@filter_of_sels_empty R2) in H2.
    unfold mongo.encode_filter in H1, H2. simpl in H1, H2. congruence. }
  destruct (@encode_filter_of_sels_ok R1 sels Hne Hall) as [f Hf]. congruence.
Qed.

(** X10. The order in which the runtime ranges over the selector map: with
    values the driver can encode, [Find], [List] and [DeleteRange] return
    the same in any two orders.  Whatever the values, [DeleteRange] leaves
    the same collection and succeeds in both orders or in neither, and a
    record or a list that one order returns without an error the other
    returns too; with values the driver cannot encode, the error returned
    is that of the first such value in the order, so it may differ. *)
Theorem the_order_of_a_selector_map_does_not_matter
    (R1 R2 : MapRange) T c ctx sels w :
  (map_Forall (λ _ v, encodable v = true) sels →
   (@Find R1 T c ctx sels w).1 = (@Find R2 T c ctx sels w).1
   ∧ (@List R1 T c ctx sels w).1 = (@List R2 T c ctx sels w).1
   ∧ (@DeleteRange R1 c ctx sels w).1 = (@DeleteRange R2 c ctx sels w).1)
  ∧ coll (@DeleteRange R1 c ctx sels w).2
    = coll (@DeleteRange R2 c ctx sels w).2
  ∧ ((@DeleteRange R1 c ctx sels w).1 = Done None
     ↔ (@DeleteRange R2 c ctx sels w).1 = Done None)
  ∧ (∀ r, (@Find R1 T c ctx sels w).1 = Done (r, None)
          ↔ (@Find R2 T c ctx sels w).1 = Done (r, None))
  ∧ (∀ l, (@List R1 T c ctx sels w).1 = Done (l, None)
          ↔ (@List R2 T c ctx sels w).1 = Done (l, None)).
Proof.
  pose proof (encode_filter_of_sels_perm R1 R2 sels) as Hsame.
  pose proof (encode_filter_of_sels_refused R1 R2 sels) as Hrefused.
  rewrite !Find_result, !List_result, !DeleteRange_run.
  unfold FindOne_answer, query_answer.
  destruct (@mongo.encode_filter R1 _) as [e1|f1],
           (@mongo.encode_filter R2 _) as [e2|f2]; simpl in Hsame; try done.
  { split; [|done].
    intros Hall. by rewrite (Hrefused e1 e2 Hall eq_refl eq_refl). }
  assert (∀ l, find (mongo.matches f1) l = find (mongo.matches f2) l) as Hfind.
  { intros l. apply find_ext. intros d. by apply matches_perm. }
  assert (∀ l, List.filter (mongo.matches f1) l
               = List.filter (mongo.matches f2) l) as Hfilter.
  { intros l. apply filter_ext. intros d. by apply matches_perm. }
  assert (∀ l, List.filter (λ d, negb (mongo.matches f1 d)) l
               = List.filter (λ d, negb (mongo.matches f2 d)) l) as Hrest.
  { intros l. apply filter_ext. intros d. f_equal. by apply matches_perm. }
  rewrite Hfind, Hfilter, Hrest. done.
Qed.

(** Two values the driver cannot encode, in two orders: the error names
    the type of the one that comes first. *)
Example the_error_is_that_of_the_first_value_in_the_order :
  let sels : gmap string GoValue :=
    {[ "a" := GFunc "func()"; "b" := GFunc "func(int)" ]} in
  let w := Sample.world [Sample.ann_doc] true in
  (@DeleteRange listed_order Sample.c Sample.live sels w).1
  = Done (Some (MarshalError "primitive.D" (ErrNoEncoder "func()")))
  ∧ (@DeleteRange reversed_order Sample.c Sample.live sels w).1
    = Done (Some (MarshalError "primitive.D" (ErrNoEncoder "func(int)"))).
Proof. split; vm_compute; reflexivity. Qed.

(* ===================================================================== *)
(** ** [CreateIndex]: the index it registers *)
(* ===================================================================== *)

Section Indexing.
Context {R : MapRange}.

(** X11. [CreateIndex] that returns no error has registered one index: its
    keys are the entries of the map, each once, with the given uniqueness
    flag, and the name returned is the name of that index.  With an error
    the name is empty and no index was registered.  The documents are not
    touched either way. *)
Theorem CreateIndex_registers_the_entries_of_the_map c ctx sels unique w :
  match (CreateIndex c ctx sels unique w).1 with
  | Done (name, None) =>
      ∃ model,
        indexes (CreateIndex c ctx sels unique w).2 = indexes w ++ [model]
        ∧ Unique model = unique
        ∧ map (λ e, (bson.Key e, bson.Value e)) (elems (Keys model))
          ≡ₚ map_to_list (GInt <$> sels)
        ∧ name = mongo.index_name (Keys model)
  | Done (name, Some e) =>
      name = "" ∧ indexes (CreateIndex c ctx sels unique w).2 = indexes w
  | Panic _ => False
  end
  ∧ coll (CreateIndex c ctx sels unique w).2 = coll w.
Proof.
  unfold CreateIndex, exec_bind, mongo.Indexes_CreateOne, exec_bind,
    mongo.log_call.
  cbn [fst snd]. cbv zeta.
  set (keys := foldl _ nil_slice (range_of sels)).
  assert (map (λ e, (bson.Key e, bson.Value e)) (elems keys)
          ≡ₚ map_to_list (GInt <$> sels)) as Hkeys.
  { unfold keys.
    rewrite (elems_foldl_append (λ kv, bson.mkE kv.1 (GInt kv.2))). simpl.
    rewrite map_map, map_to_list_fmap, <-(range_of_perm _ sels).
    simpl.
    assert (∀ l : list (string * Z),
              map (λ x, (x.1, GInt x.2)) l = prod_map id GInt <$> l) as ->;
      [|done].
    intros l. induction l as [|[k z] l IH]; [done|].
    simpl. by rewrite IH. }
  destruct (mongo.encode_filter _) as [e|ks]; [done|].
  destruct (mongo.round_trip Background _); simpl; [done|].
  case_bool_decide; [done|].
  destruct (mongo.unique_ok _ _); simpl; [|done].
  split; [|done]. by eexists.
Qed.

End Indexing.

(* ===================================================================== *)
(** ** [Connect]: what can be told from its error *)
(* ===================================================================== *)

(** X12. [Connect] returns a handle or an error, never both and never
    neither.  Its error is a plain text: [errors.Is] finds no cause in it,
    not the cancellation of the context either. *)
Theorem Connect_errors_carry_no_cause ctx url name n :
  match (connector.Connect ctx url name n).1 with
  | (None, Some e) =>
      (∃ s, e = errorString s)
      ∧ (∀ target, (∀ s, target ≠ errorString s) →
                   errors_Is e target = false)
  | (Some d, None) => connector.db_name d = name
  | _ => False
  end.
Proof.
  assert (∀ s target, (∀ s', target ≠ errorString s') →
                      errors_Is (errorString s) target = false) as HIs.
  { intros s target Hne. simpl. rewrite bool_decide_eq_false_2; [done|].
    intros Heq. by apply (Hne s). }
  unfold connector.Connect, connector.mongo_Connect, connector.Client_Ping,
    fmt_Errorf_s.
  destruct n as [cs ps calls0]. simpl.
  destruct cs as [|[e|] cs]; simpl; eauto.
  destruct (ctx_Err ctx) as [e|]; simpl; eauto.
  destruct ps as [|[e|] ps]; simpl; eauto.
Qed.

(* ===================================================================== *)
(** ** Listings: one record per delivered document, in order *)
(* ===================================================================== *)

Lemma decode_list_inv T l rs :
  decode_list T l = inr rs →
  Forall2 (λ d r, bson.decode_struct d (bson.zero_struct T) = inr r) l rs.
Proof.
  revert rs. induction l as [|d l IH]; intros rs; simpl.
  - intros [= <-]. constructor.
  - destruct (bson.decode_struct d (bson.zero_struct T)) as [e|r] eqn:Hd;
      [done|].
    destruct (decode_list T l) as [e|rs0]; [done|].
    intros [= <-]. constructor; [done|]. by apply IH.
Qed.

Lemma decode_list_fail T l d e :
  d ∈ l →
  bson.decode_struct d (bson.zero_struct T) = inl e →
  ∃ e', decode_list T l = inl e'.
Proof.
  induction l as [|x l IH]; intros Hd He.
  { by apply elem_of_nil in Hd. }
  simpl. apply elem_of_cons in Hd as [<-|Hd].
  - rewrite He. eauto.
  - destruct (bson.decode_struct x (bson.zero_struct T)); [eauto|].
    destruct (IH Hd He) as [e' ->]. eauto.
Qed.

Lemma decode_list_Forall2 T l rs :
  Forall2 (λ d r, bson.decode_struct d (bson.zero_struct T) = inr r) l rs →
  decode_list T l = inr rs.
Proof.
  induction 1 as [|d r l rs Hd _ IH]; simpl; [done|]. by rewrite Hd, IH.
Qed.

Section Listing.
Context {R : MapRange}.

Lemma query_answer_inv T ctx filter f w :
  mongo.encode_filter filter = inr f →
  (∀ s, query_answer T ctx filter w = (s, None) →
        Forall2 (λ d r, bson.decode_struct d (bson.zero_struct T) = inr r)
                (delivered w (List.filter (mongo.matches f) (coll w)))
                (elems s))
  ∧ (ctx_Err ctx = None → server_up w = true →
     (∀ rs,
        Forall2 (λ d r, bson.decode_struct d (bson.zero_struct T) = inr r)
                (delivered w (List.filter (mongo.matches f) (coll w))) rs →
        query_answer T ctx filter w = (make_slice rs, None))
     ∧ (∀ d e, d ∈ delivered w (List.filter (mongo.matches f) (coll w)) →
               bson.decode_struct d (bson.zero_struct T) = inl e →
               ∃ e', query_answer T ctx filter w = (nil_slice, Some e'))).
Proof.
  intros Hf. unfold query_answer. rewrite Hf. split.
  - intros s. destruct (mongo.round_trip ctx w); [done|].
    destruct (decode_list T _) as [e|rs] eqn:Hl; [done|].
    intros [= <-]. by apply decode_list_inv.
  - intros Hctx Hup. unfold mongo.round_trip. rewrite Hctx, Hup. split.
    + intros rs Hrs. by rewrite (decode_list_Forall2 T _ rs Hrs).
    + intros d e Hd He.
      destruct (decode_list_fail T _ d e Hd He) as [e' ->]. eauto.
Qed.

(** X13. A listing decodes what its cursor delivers and never asks the
    cursor why it ended.  A listing that returns no error returns one
    record per delivered document, in the order of the collection, each
    the decoding of its document; the delivered documents are those that
    satisfy the filter, or, where the cursor fails after its first batch,
    that batch alone.  On a served query the listing so returns the
    decodings of the first batch with no error, and a single delivered
    document that does not decode into [T] makes the whole listing fail,
    with the nil sequence. *)
Theorem listings_decode_what_the_cursor_delivers T c ctx sels f w :
  mongo.encode_filter (mongo.FilterD (filter_of_sels sels)) = inr f →
  let listed := List.filter (mongo.matches f) (coll w) in
  let all_listed := List.filter (mongo.matches [("", bson.BNull)]) (coll w) in
  let decodes := λ d r, bson.decode_struct d (bson.zero_struct T) = inr r in
  (∀ s, (List T c ctx sels w).1 = Done (s, None) →
        Forall2 decodes (delivered w listed) (elems s))
  ∧ (∀ s, (ListAll T c ctx w).1 = Done (s, None) →
          Forall2 decodes (delivered w all_listed) (elems s))
  ∧ (cursor_fault w = None →
     delivered w listed = listed ∧ delivered w all_listed = all_listed)
  ∧ (ctx_Err ctx = None → server_up w = true →
     (∀ n rs, cursor_fault w = Some n →
              Forall2 decodes (take (S n) listed) rs →
              (List T c ctx sels w).1 = Done (make_slice rs, None))
     ∧ (∀ n rs, cursor_fault w = Some n →
                Forall2 decodes (take (S n) all_listed) rs →
                (ListAll T c ctx w).1 = Done (make_slice rs, None))
     ∧ (∀ d e, bson.decode_struct d (bson.zero_struct T) = inl e →
               (d ∈ delivered w listed →
                ∃ e', (List T c ctx sels w).1 = Done (nil_slice, Some e'))
               ∧ (d ∈ delivered w all_listed →
                  ∃ e', (ListAll T c ctx w).1 = Done (nil_slice, Some e')))).
Proof.
  intros Hf listed all_listed decodes.
  destruct (query_answer_inv T ctx _ f w Hf) as [HL1 HL2].
  destruct (query_answer_inv T ctx _ _ w ListAll_filter_encoded)
    as [HA1 HA2].
  split; [|split; [|split]].
  - intros s. rewrite List_result. intros [= Hs]. by apply HL1.
  - intros s. rewrite ListAll_result. intros [= Hs]. by apply HA1.
  - intros Hnone. unfold delivered. by rewrite Hnone.
  - intros Hctx Hup.
    destruct (HL2 Hctx Hup) as [HL3 HL4].
    destruct (HA2 Hctx Hup) as [HA3 HA4].
    split; [|split].
    + intros n rs Hn Hrs. rewrite List_result. f_equal. apply HL3.
      unfold delivered. by rewrite Hn.
    + intros n rs Hn Hrs. rewrite ListAll_result. f_equal. apply HA3.
      unfold delivered. by rewrite Hn.
    + intros d e He. split; intros Hd.
      * rewrite List_result. destruct (HL4 d e Hd He) as [e' ->]. eauto.
      * rewrite ListAll_result. destruct (HA4 d e Hd He) as [e' ->]. eauto.
Qed.

End Listing.

(* ===================================================================== *)
(** ** A context that is done *)
(* ===================================================================== *)

Section Cancelling.
Context {R : MapRange}.

Lemma round_trip_done ctx e0 w :
  ctx_Err ctx = Some e0 → mongo.round_trip ctx w = Some e0.
Proof. unfold mongo.round_trip. by intros ->. Qed.

Lemma ctx_Err_not_ErrNoDocuments ctx e0 :
  ctx_Err ctx = Some e0 → errors_Is e0 ErrNoDocuments = false.
Proof. destruct ctx as [|n [|]]; simpl; intros [= <-]; done. Qed.

Lemma InsertOne_done ctx e0 p s w :
  ctx_Err ctx = Some e0 →
  heap w !! p = Some s →
  serializable s = true →
  (mongo.InsertOne ctx (Some p) w).1 = Done (Some e0)
  ∧ coll (mongo.InsertOne ctx (Some p) w).2 = coll w.
Proof.
  intros Hctx Hp Hs. unfold serializable in Hs.
  unfold mongo.InsertOne, exec_bind, mongo.log_call. simpl. rewrite Hp.
  destruct (bson.encode_struct s) as [e|d]; [done|].
  destruct (bson.doc_lookup "_id" d);
    by rewrite (round_trip_done ctx e0 _ Hctx).
Qed.

(** X14. Every operation but [CreateIndex] honours a context that is done: a
    call whose arguments encode returns the error of the context, and
    [Create], [Update], [Delete] and [DeleteRange] then leave the
    collection as it was. *)
Theorem a_done_context_fails_the_call T c ctx e0 w :
  ctx_Err ctx = Some e0 →
  (∀ id, encodable id = true →
     (Get T c ctx id w).1 = Done (None, Some e0)
     ∧ (Delete c ctx id w).1 = Done (Some e0)
     ∧ coll (Delete c ctx id w).2 = coll w)
  ∧ (∀ sels f,
       mongo.encode_filter (mongo.FilterD (filter_of_sels sels)) = inr f →
       (Find T c ctx sels w).1 = Done (None, Some e0)
       ∧ (Exists T c ctx sels w).1 = Done (None, false, Some e0)
       ∧ (List T c ctx sels w).1 = Done (nil_slice, Some e0)
       ∧ (DeleteRange c ctx sels w).1 = Done (Some e0)
       ∧ coll (DeleteRange c ctx sels w).2 = coll w)
  ∧ (ListAll T c ctx w).1 = Done (nil_slice, Some e0)
  ∧ (∀ p s, heap w !! p = Some s →
            timestamp_typed "CreatedAt" s = true →
            timestamp_typed "UpdatedAt" s = true →
            serializable s = true →
            (Create c ctx (Some p) w).1 = Done (Some e0)
            ∧ coll (Create c ctx (Some p) w).2 = coll w)
  ∧ (∀ id p s, heap w !! p = Some s →
               timestamp_typed "UpdatedAt" s = true →
               serializable s = true →
               encodable id = true →
               (Update c ctx id (Some p) w).1 = Done (Some e0)
               ∧ coll (Update c ctx id (Some p) w).2 = coll w).
Proof.
  intros Hctx. pose proof (round_trip_done ctx e0 w Hctx) as Hrt.
  split; [|split; [|split; [|split]]].
  - intros id Hid. unfold encodable in Hid.
    destruct (bson.encode_value id) as [e|bid] eqn:Hbid; [done|].
    rewrite Get_result, Delete_run, Hbid, Hrt. unfold FindOne_answer.
    by rewrite (encode_filter_D_id id bid Hbid), Hrt.
  - intros sels f Hf.
    assert ((Find T c ctx sels w).1 = Done (None, Some e0)) as HF.
    { rewrite Find_result. unfold FindOne_answer. by rewrite Hf, Hrt. }
    split; [exact HF|]. split.
    { rewrite Exists_result, HF.
      by rewrite (ctx_Err_not_ErrNoDocuments ctx e0 Hctx). }
    rewrite List_result, DeleteRange_run. unfold query_answer.
    by rewrite Hf, Hrt.
  - rewrite ListAll_result. unfold query_answer.
    by rewrite ListAll_filter_encoded, Hrt.
  - intros p s Hp Hc Hu Hs.
    rewrite (Create_run c ctx p s w Hp Hc Hu). simpl.
    destruct (InsertOne_done ctx e0 p _ (Create_stamped_world p s w) Hctx
                (heap_store_record _ _ _)) as [Hr Hcoll].
    { by do 2 apply serializable_stamped. }
    by rewrite Hr, Hcoll.
  - intros id p s Hp Hu Hs Hid. unfold encodable in Hid.
    destruct (bson.encode_value id) as [e|bid] eqn:Hbid; [done|].
    rewrite (Update_run c ctx id p s w Hp Hu).
    pose proof (serializable_stamped "UpdatedAt" (clock w) s Hs) as Hs'.
    unfold serializable in Hs'.
    destruct (bson.encode_struct (stamped "UpdatedAt" (clock w) s))
      as [err|dataByte]; [done|].
    destruct (encode_update_set_doc dataByte) as (fields & _ & Hops).
    unfold mongo.UpdateOne, exec_bind, mongo.log_call. cbv zeta.
    cbn [fst snd]. rewrite (encode_filter_id id bid Hbid), Hops.
    by rewrite (round_trip_done ctx e0 _ Hctx).
Qed.

End Cancelling.

(* ===================================================================== *)
(** ** How the lookups and the listings relate *)
(* ===================================================================== *)

Lemma find_head_filter {A} (p : A → bool) (l : list A) :
  find p l = head (List.filter p l).
Proof.
  induction l as [|x l IH]; [done|]. simpl. by destruct (p x).
Qed.

Section Relating.
Context {R : MapRange}.

Lemma filter_of_sels_singleton k v :
  filter_of_sels {[ k := v ]} = make_slice [bson.mkE k v].
Proof. unfold filter_of_sels. by rewrite range_of_singleton. Qed.

(** X15. [Get] is [Find] with the identifier as the one selector. *)
Theorem Get_is_Find_by_identifier T c ctx id w :
  (Get T c ctx id w).1 = (Find T c ctx {[ "_id" := id ]} w).1.
Proof.
  by rewrite Get_result, Find_result, filter_of_sels_singleton.
Qed.

(** X16. [Find] returns the first of the records [List] returns: when [List]
    returns a sequence, [Find] returns its head, or the no-documents
    condition when it is empty. *)
Theorem Find_returns_the_head_of_List T c ctx sels s w :
  (List T c ctx sels w).1 = Done (s, None) →
  (Find T c ctx sels w).1 =
    Done match elems s with
         | r :: _ => (Some r, None)
         | [] => (None, Some ErrNoDocuments)
         end.
Proof.
  rewrite List_result, Find_result. unfold query_answer, FindOne_answer.
  destruct (mongo.encode_filter _) as [e|f]; [done|].
  destruct (mongo.round_trip ctx w); [done|].
  rewrite find_head_filter.
  destruct (List.filter (mongo.matches f) (coll w)) as [|d l].
  - rewrite delivered_nil. simpl. by intros [= <-].
  - assert (∃ l', delivered w (d :: l) = d :: l') as [l' ->].
    { unfold delivered. destruct (cursor_fault w); simpl; eauto. }
    unfold mongo.SingleResult_Decode. simpl.
    destruct (bson.decode_struct d (bson.zero_struct T)) as [e|r]; [done|].
    destruct (decode_list T l'); [done|]. by intros [= <-].
Qed.

(** X17. [ListAll] is [List] with the one selector that BSON makes of an empty
    [bson.E]: a null under the empty field name.  It is not [List] with
    the empty selector map, which returns an error where [ListAll] returns
    a sequence. *)
Theorem ListAll_is_List_by_a_null_under_the_empty_name T c ctx w :
  (ListAll T c ctx w).1 = (List T c ctx {[ "" := GNil ]} w).1
  ∧ (∀ s, (ListAll T c ctx w).1 = Done (s, None) →
          (List T c ctx ∅ w).1 ≠ (ListAll T c ctx w).1).
Proof.
  split.
  - by rewrite ListAll_result, List_result, filter_of_sels_singleton.
  - intros s ->. rewrite List_result. unfold query_answer.
    by rewrite filter_of_sels_empty.
Qed.

End Relating.

(* ===================================================================== *)
(** ** [Update]: what it can change *)
(* ===================================================================== *)

Lemma update_first_split {A} (p : A → bool) (l : list A) d0 d' :
  find p l = Some d0 →
  ∃ l1 l2, l = l1 ++ d0 :: l2 ∧ find p l1 = None ∧ p d0 = true
           ∧ mongo.update_first p (λ _, d') l = Some (l1 ++ d' :: l2).
Proof.
  induction l as [|x l IH]; [done|]. simpl.
  destruct (p x) eqn:Hx.
  - intros [= ->]. exists [], l. by rewrite Hx.
  - intros Hl. destruct (IH Hl) as (l1 & l2 & -> & Hn & Hd & Hu).
    exists (x :: l1), l2. simpl. by rewrite Hx, Hu.
Qed.

Lemma coll_post_keeps {A} docs (Q : list bson.Document → Prop) (m : Exec A) :
  keeps_coll docs m → Q docs → coll_post docs Q m.
Proof. intros Hm HQ w Hw. by rewrite Hm. Qed.

Lemma coll_post_bind {A B} docs Q (m : Exec A) (k : A → Exec B) :
  keeps_coll docs m → Q docs → (∀ a, coll_post docs Q (k a)) →
  coll_post docs Q (exec_bind m k).
Proof.
  intros Hm HQ Hk w Hw. unfold exec_bind. specialize (Hm w Hw).
  destruct (m w) as [[a|msg] w1]; simpl in Hm.
  - by apply Hk.
  - simpl. by rewrite Hm.
Qed.

Lemma coll_post_defer_log {A} docs Q msg (body : Exec A) :
  coll_post docs Q body → coll_post docs Q (with_defer (log_Debug msg) body).
Proof.
  intros Hb w Hw. unfold with_defer. specialize (Hb w Hw).
  by destruct (body w) as [r w1].
Qed.

Section UpdateFrame.
Context {R : MapRange}.

Lemma coll_post_UpdateOne docs ctx id update :
  coll_post docs
    (λ docs', match bson.encode_value id with
              | inr bid => rewrites_one_id bid docs docs'
              | inl _ => docs' = docs
              end)
    (mongo.UpdateOne ctx (mongo.FilterM {[ "_id" := id ]}) update).
Proof.
  intros w Hw.
  unfold mongo.UpdateOne, exec_bind, mongo.log_call. cbn [fst snd].
  destruct (bson.encode_value id) as [e|bid] eqn:Hid.
  { unfold mongo.encode_filter, mongo.filter_entries.
    rewrite range_of_singleton. simpl. by rewrite Hid. }
  rewrite (encode_filter_id id bid Hid).
  destruct (mongo.encode_update update) as [e|ops]; [by left|].
  destruct (mongo.round_trip ctx _); [by left|].
  cbn [coll set_calls set_path indexes]. rewrite Hw.
  destruct (find (mongo.matches [("_id", bid)]) docs) as [d0|] eqn:Hfind;
    [|by left].
  destruct (mongo.update_doc _ ops d0) as [e|d'] eqn:Hd'; [by left|].
  assert (bson.doc_lookup "_id" d' = bson.doc_lookup "_id" d0) as Hsame.
  { unfold mongo.update_doc in Hd'.
    destruct (mongo.apply_update _ ops d0) as [e|d1]; [done|].
    case_bool_decide as Hsame; [|done]. by injection Hd' as <-. }
  destruct (update_first_split _ _ d0 d' Hfind)
    as (l1 & l2 & Hl & Hn & Hm & Hu).
  rewrite Hu. simpl.
  destruct (mongo.unique_ok _ _); [|by left]. simpl.
  right. exists l1, d0, d', l2. repeat split; try done.
  by apply find_None_none_matches.
Qed.

(** X18. [Update] never adds or removes a document and never touches one with
    another identifier: whatever the record, the context and the outcome,
    the collection is afterwards as it was, or its first document with the
    identifier has been rewritten in place, still under that identifier. *)
Theorem Update_rewrites_at_most_one_document c ctx id item w :
  match bson.encode_value id with
  | inr bid => rewrites_one_id bid (coll w) (coll (Update c ctx id item w).2)
  | inl _ => coll (Update c ctx id item w).2 = coll w
  end.
Proof.
  set (Q := λ docs', match bson.encode_value id with
                     | inr bid => rewrites_one_id bid (coll w) docs'
                     | inl _ => docs' = coll w
                     end).
  assert (Q (coll w)) as HQ.
  { unfold Q. destruct (bson.encode_value id); [done|by left]. }
  assert (coll_post (coll w) Q (Update c ctx id item)) as Hpost;
    [|by apply Hpost].
  unfold Update.
  repeat lazymatch goal with
    | |- coll_post _ _ (with_defer (log_Debug _) _) =>
        apply coll_post_defer_log
    | |- coll_post _ _ (mongo.UpdateOne _ _ _) => apply coll_post_UpdateOne
    | |- coll_post _ _ (exec_bind (mongo.UpdateOne _ _ _) _) =>
        intros w0 Hw0; unfold exec_bind;
        pose proof (coll_post_UpdateOne (coll w) ctx id
                      (make_slice
                         [mongo.mkUpdateE "$set" ltac:(assumption)]) w0 Hw0)
          as HU;
        destruct (mongo.UpdateOne _ _ _ w0) as [[[res [e|]]|msg] w2];
        exact HU
    | |- coll_post _ _ (exec_bind _ _) =>
        apply coll_post_bind; [|exact HQ|intros ?]
    | |- coll_post _ _ (match ?x with _ => _ end) => destruct x
    | |- coll_post _ _ (exec_ret _) =>
        apply coll_post_keeps; [by apply keeps_coll_silent|exact HQ]
    | |- keeps_coll _ (reflect.ValueOf_Elem_FieldByName _ _) =>
        apply keeps_coll_FieldByName
    | |- keeps_coll _ (reflect.Set_ _ _) => apply keeps_coll_Set
    | |- keeps_coll _ (bson_Marshal_ptr _) => apply keeps_coll_Marshal
    | |- keeps_coll _ (match ?x with _ => _ end) => destruct x
    | |- keeps_coll _ _ => by apply keeps_coll_silent
    end.
Qed.

End UpdateFrame.

(* ===================================================================== *)
(** ** A unique index and the next [Create] *)
(* ===================================================================== *)

Lemma key_of_ext fields d d' :
  (∀ k, k ∈ fields →
        default bson.BNull (bson.doc_lookup k d)
        = default bson.BNull (bson.doc_lookup k d')) →
  mongo.key_of fields d = mongo.key_of fields d'.
Proof.
  intros Hk. unfold mongo.key_of. apply map_ext_in. intros k Hin.
  f_equal. apply Hk. by apply list_elem_of_In.
Qed.

Section UniqueIndex.
Context {R : MapRange}.

Lemma CreateIndex_success_index c ctx sels unique name w :
  (CreateIndex c ctx sels unique w).1 = Done (name, None) →
  ∃ model,
    indexes (CreateIndex c ctx sels unique w).2 = indexes w ++ [model]
    ∧ Unique model = unique
    ∧ (∀ k, k ∈ mongo.index_fields model → k ∈ dom sels).
Proof.
  unfold CreateIndex, exec_bind, mongo.Indexes_CreateOne, exec_bind,
    mongo.log_call.
  cbn [fst snd]. cbv zeta.
  set (keys := foldl _ nil_slice (range_of sels)).
  assert (∀ k, k ∈ map bson.Key (elems keys) → k ∈ dom sels) as Hkeys.
  { unfold keys.
    rewrite (elems_foldl_append (λ kv, bson.mkE kv.1 (GInt kv.2))). simpl.
    rewrite map_map. simpl. intros k Hk.
    apply list_elem_of_In, in_map_iff in Hk as ([k' z] & <- & Hin).
    apply list_elem_of_In in Hin. rewrite range_of_perm in Hin.
    apply elem_of_map_to_list in Hin. apply elem_of_dom. eauto. }
  destruct (mongo.encode_filter _) as [e|ks]; [done|].
  destruct (mongo.round_trip Background _); simpl; [done|].
  case_bool_decide; [done|].
  destruct (mongo.unique_ok _ _); simpl; [|done].
  intros _. by eexists.
Qed.

(** X19. After [CreateIndex] with the uniqueness flag returned no error, a
    [Create] whose document agrees with a stored document on every key of
    the index is rejected, and the collection stays as it was. *)
Theorem Create_is_rejected_by_a_unique_index
    c ctx ctx' sels name p s d d0 w :
  (CreateIndex c ctx sels true w).1 = Done (name, None) →
  heap (CreateIndex c ctx sels true w).2 !! p = Some s →
  timestamp_typed "CreatedAt" s = true →
  timestamp_typed "UpdatedAt" s = true →
  bson.encode_struct
    (stamped "UpdatedAt" (clock (CreateIndex c ctx sels true w).2)
       (stamped "CreatedAt" (clock (CreateIndex c ctx sels true w).2) s))
  = inr d →
  d0 ∈ coll (CreateIndex c ctx sels true w).2 →
  (∀ k, k ∈ dom sels →
        default bson.BNull (bson.doc_lookup k d0)
        = default bson.BNull
            (bson.doc_lookup k
               (with_id (next_oid (CreateIndex c ctx sels true w).2) d))) →
  ∃ e, (Create c ctx' (Some p) (CreateIndex c ctx sels true w).2).1
       = Done (Some e)
       ∧ coll (Create c ctx' (Some p) (CreateIndex c ctx sels true w).2).2
         = coll (CreateIndex c ctx sels true w).2.
Proof.
  intros Hidx Hp Hc Hu Hd Hd0 Hagree.
  destruct (CreateIndex_success_index c ctx sels true name w Hidx)
    as (model & Hixs & Huniq & Hfields).
  set (w1 := (CreateIndex c ctx sels true w).2) in *.
  rewrite (Create_run c ctx' p s w1 Hp Hc Hu). simpl.
  destruct (InsertOne_error ctx' (Some p) (Create_stamped_world p s w1))
    as (r & Hr & Herr).
  destruct r as [e|].
  { exists e. split; [done|]. by rewrite Herr. }
  exfalso.
  destruct (InsertOne_success ctx' p _ (Create_stamped_world p s w1)
              (heap_store_record _ _ _) Hr)
    as (d' & Hd' & _ & Hok & _).
  rewrite Hd in Hd'. injection Hd' as <-.
  unfold mongo.unique_ok in Hok. apply andb_true_iff in Hok as [_ Hall].
  rewrite forallb_forall in Hall.
  specialize (Hall model). simpl in Hall. rewrite Hixs in Hall.
  rewrite Huniq in Hall. simpl in Hall.
  assert (In model (indexes w ++ [model])) as Hin
    by (apply in_or_app; right; by left).
  specialize (Hall Hin).
  apply (no_dup_keys_snoc _ _ _ Hall d0 Hd0).
  apply key_of_ext. intros k Hk. apply Hagree. by apply Hfields.
Qed.

End UniqueIndex.

(* ===================================================================== *)
(** ** The statements above at the sample collection *)
(* ===================================================================== *)

Lemma Create_appends_one_document_or_nothing_witness :
  heap (Sample.world [Sample.bob_doc] true) !! 1%nat
  = Some (Sample.user 7 "ann" 11 22)
  ∧ ∃ s' d,
      heap (Create Sample.c Sample.live (Some 1%nat)
              (Sample.world [Sample.bob_doc] true)).2 !! 1%nat = Some s'
      ∧ bson.encode_struct s' = inr d
      ∧ coll (Create Sample.c Sample.live (Some 1%nat)
                (Sample.world [Sample.bob_doc] true)).2
        = [Sample.bob_doc] ++ [with_id 0 d]
      ∧ (∀ bid, bson.doc_lookup "_id" (with_id 0 d) = Some bid →
                none_matches [("_id", bid)] [Sample.bob_doc] = true).
Proof.
  split; [reflexivity|].
  exact (Create_appends_one_document_or_nothing Sample.c Sample.live 1%nat
           (Sample.user 7 "ann" 11 22) (Sample.world [Sample.bob_doc] true)
           eq_refl eq_refl eq_refl).
Defined.

Lemma Get_after_Create_returns_the_record_witness :
  (Create Sample.c Sample.live (Some 1%nat)
     (Sample.world [Sample.bob_doc] true)).1 = Done None
  ∧ (@Get listed_order Sample.User Sample.c Sample.live (GInt 7)
       (Create Sample.c Sample.live (Some 1%nat)
          (Sample.world [Sample.bob_doc] true)).2).1
    = Done (Some Scene.ann_stored, None).
Proof.
  split; [reflexivity|].
  exact (@Get_after_Create_returns_the_record listed_order Sample.User
           Sample.c Sample.live (GInt 7) (bson.BInt32 7) 1%nat
           (Sample.user 7 "ann" 11 22) (Sample.world [Sample.bob_doc] true)
           eq_refl eq_refl eq_refl eq_refl eq_refl eq_refl eq_refl
           Scene.ann_stored eq_refl eq_refl).
Defined.

(** In a field of type [any] a time comes back as a [primitive.DateTime]
    and an [int] as an [int32]. *)
Example an_any_typed_field_comes_back_as_the_decoder_types_it :
  (@Get listed_order Scene.Note Sample.c Sample.live (GInt 6)
     (Create Sample.c Sample.live (Some 5%nat)
        (store_record 5 (Scene.note (GTime 7000000))
           (Sample.world [] true))).2).1
  = Done (Some (Scene.note (GDateTime 7)), None)
  ∧ (@Get listed_order Scene.Note Sample.c Sample.live (GInt 6)
       (Create Sample.c Sample.live (Some 5%nat)
          (store_record 5 (Scene.note (GInt 41))
             (Sample.world [] true))).2).1
    = Done (Some (Scene.note (GInt32 41)), None)
  ∧ as_stored (Scene.note (GTime 7000000)) = Scene.note (GDateTime 7).
Proof. repeat split; vm_compute; reflexivity. Qed.

Lemma Delete_removes_the_document_if_there_is_one_witness :
  (@Delete listed_order Sample.c Sample.live (GInt 7)
     (Sample.world [Sample.ann_doc; Sample.bob_doc] true)).1 = Done None
  ∧ coll (@Delete listed_order Sample.c Sample.live (GInt 7)
            (Sample.world [Sample.ann_doc; Sample.bob_doc] true)).2
    = [Sample.bob_doc]
  ∧ (@Get listed_order Sample.User Sample.c Sample.live (GInt 7)
       (@Delete listed_order Sample.c Sample.live (GInt 7)
          (Sample.world [Sample.ann_doc; Sample.bob_doc] true)).2).1
    = Done (None, Some ErrNoDocuments).
Proof.
  destruct (@Delete_removes_the_document_if_there_is_one listed_order
              Sample.User Sample.c Sample.live (GInt 7) (bson.BInt32 7)
              (Sample.world [Sample.ann_doc; Sample.bob_doc] true)
              eq_refl eq_refl eq_refl)
    as (Hret & _ & Hgone).
  split; [exact Hret|]. split; [reflexivity|].
  exact (proj2 (Hgone eq_refl)).
Defined.

Lemma DeleteRange_removes_the_matching_documents_witness :
  (@DeleteRange listed_order Sample.c Sample.live {[ "name" := GString "ann" ]}
     (Sample.world [Sample.ann_doc; Sample.bob_doc; Scene.ann_twin] true)).1
  = Done None
  ∧ coll (@DeleteRange listed_order Sample.c Sample.live
            {[ "name" := GString "ann" ]}
            (Sample.world [Sample.ann_doc; Sample.bob_doc; Scene.ann_twin]
               true)).2
    = [Sample.bob_doc]
  ∧ (@List listed_order Sample.User Sample.c Sample.live
       {[ "name" := GString "ann" ]}
       (@DeleteRange listed_order Sample.c Sample.live
          {[ "name" := GString "ann" ]}
          (Sample.world [Sample.ann_doc; Sample.bob_doc; Scene.ann_twin]
             true)).2).1
    = Done (make_slice [], None)
  ∧ (@DeleteRange listed_order Sample.c Sample.live ∅
       (Sample.world [Sample.ann_doc; Sample.bob_doc] true)).1
    = Done (Some (MarshalError "primitive.D" ErrWriteNull)).
Proof.
  assert (({[ "name" := GString "ann" ]} : gmap string GoValue) ≠ ∅) as Hne
    by apply map_non_empty_singleton.
  assert (map_Forall (λ k v, field_name k = true ∧ encodable v = true)
            ({[ "name" := GString "ann" ]} : gmap string GoValue)) as Hall
    by (apply map_Forall_singleton; split; reflexivity).
  destruct (@DeleteRange_removes_the_matching_documents listed_order
              Sample.User Sample.c Sample.live {[ "name" := GString "ann" ]}
              (Sample.world [Sample.ann_doc; Sample.bob_doc; Scene.ann_twin]
                 true))
    as [Hsome _].
  destruct (Hsome Hne Hall eq_refl eq_refl) as (Hret & _ & _ & _ & Hlist).
  split; [exact Hret|]. split; [vm_compute; reflexivity|].
  split; [exact Hlist|].
  destruct (@DeleteRange_removes_the_matching_documents listed_order
              Sample.User Sample.c Sample.live ∅
              (Sample.world [Sample.ann_doc; Sample.bob_doc] true))
    as [_ Hnone].
  exact (proj1 (Hnone eq_refl)).
Defined.

Lemma UpdateAttributes_sets_the_attributes_on_every_match_witness :
  (@UpdateAttributes listed_order Sample.c Sample.live
     {[ "name" := GString "ann" ]} (Some 1%nat)
     (Sample.world [Sample.ann_doc; Sample.bob_doc] true)).1 = Done None
  ∧ ∃ d', coll (@UpdateAttributes listed_order Sample.c Sample.live
                  {[ "name" := GString "ann" ]} (Some 1%nat)
                  (Sample.world [Sample.ann_doc; Sample.bob_doc] true)).2
          = [d'; Sample.bob_doc]
          ∧ bson.doc_lookup "name" d' = Some (bson.BString "eve")
          ∧ bson.doc_lookup "updated_at" d' = Some (bson.BDateTime 5)
          ∧ bson.doc_lookup "created_at" d' = Some (bson.BDateTime 1).
Proof.
  split; [vm_compute; reflexivity|].
  assert (map_Forall (λ k _, field_name k = true)
            ({[ "name" := GString "ann" ]} : gmap string GoValue)) as Hsels
    by (apply map_Forall_singleton; reflexivity).
  assert (map_Forall (λ k _, settable_name k = true)
            ({[ "name" := GString "eve"; "updated_at" := GString "stale" ]}
             : gmap string GoValue)) as Hattrs.
  { apply map_Forall_insert_2; [reflexivity|].
    apply map_Forall_singleton. reflexivity. }
  assert ((@UpdateAttributes listed_order Sample.c Sample.live
             {[ "name" := GString "ann" ]} (Some 1%nat)
             (Sample.world [Sample.ann_doc; Sample.bob_doc] true)).1
          = Done None) as Hdone
    by (vm_compute; reflexivity).
  assert (selected {[ "name" := GString "ann" ]} Sample.ann_doc = true)
    as Hann.
  { apply bool_decide_eq_true_2, map_Forall_singleton. reflexivity. }
  assert (selected {[ "name" := GString "ann" ]} Sample.bob_doc = false)
    as Hbob.
  { apply bool_decide_eq_false_2. intros Hb.
    apply map_Forall_singleton in Hb. discriminate Hb. }
  destruct (@UpdateAttributes_sets_the_attributes_on_every_match
              listed_order Sample.c Sample.live
              {[ "name" := GString "ann" ]} 1%nat
              {[ "name" := GString "eve"; "updated_at" := GString "stale" ]}
              (Sample.world [Sample.ann_doc; Sample.bob_doc] true)
              eq_refl Hsels Hattrs Hdone) as [_ Hall].
  apply Forall2_cons_inv_l in Hall as (d' & rest & Hd' & Hrest & Hcoll).
  apply Forall2_cons_inv_l in Hrest as (d2 & rest2 & Hd2 & Hnil & ->).
  apply Forall2_nil_inv_l in Hnil as ->.
  exists d'. cbn beta in Hd', Hd2. rewrite Hann in Hd'. rewrite Hbob in Hd2.
  subst d2. split; [exact Hcoll|].
  destruct Hd' as (Hattr & Hstamp & Hkeep).
  split; [|split; [exact Hstamp|]].
  - destruct (Hattr "name" (GString "eve")) as (bv & Hbv & Hl);
      [discriminate|vm_compute; reflexivity|].
    by injection Hbv as <-.
  - rewrite Hkeep; [reflexivity|discriminate|vm_compute; reflexivity].
Defined.


Lemma the_order_of_a_selector_map_does_not_matter_witness :
  (@Find listed_order Sample.User Sample.c Sample.live
     {[ "name" := GString "bob"; "_id" := GInt 8 ]}
     (Sample.world [Sample.ann_doc; Sample.bob_doc] true)).1
  = (@Find reversed_order Sample.User Sample.c Sample.live
       {[ "name" := GString "bob"; "_id" := GInt 8 ]}
       (Sample.world [Sample.ann_doc; Sample.bob_doc] true)).1
  ∧ coll (@DeleteRange listed_order Sample.c Sample.live
            {[ "name" := GString "bob"; "_id" := GInt 8 ]}
            (Sample.world [Sample.ann_doc; Sample.bob_doc] true)).2
    = coll (@DeleteRange reversed_order Sample.c Sample.live
              {[ "name" := GString "bob"; "_id" := GInt 8 ]}
              (Sample.world [Sample.ann_doc; Sample.bob_doc] true)).2.
Proof.
  assert (map_Forall (λ _ v, encodable v = true)
            ({[ "name" := GString "bob"; "_id" := GInt 8 ]}
             : gmap string GoValue)) as Hall.
  { apply map_Forall_insert_2; [reflexivity|].
    apply map_Forall_singleton. reflexivity. }
  destruct (the_order_of_a_selector_map_does_not_matter listed_order
              reversed_order Sample.User Sample.c Sample.live
              {[ "name" := GString "bob"; "_id" := GInt 8 ]}
              (Sample.world [Sample.ann_doc; Sample.bob_doc] true))
    as (Hsame & Hcoll & _).
  split; [exact (proj1 (Hsame Hall))|exact Hcoll].
Defined.

Lemma listings_decode_what_the_cursor_delivers_witness :
  Forall2 (λ d r, bson.decode_struct d (bson.zero_struct Sample.User) = inr r)
    [Sample.ann_doc; Scene.ann_twin]
    [Sample.user 7 "ann" 1000000 2000000;
     Sample.user 17 "ann" 5000000 6000000]
  ∧ (@List listed_order Sample.User Sample.c Sample.live
       {[ "name" := GString "ann" ]}
       (Scene.with_fault 0
          (Sample.world [Sample.ann_doc; Sample.bob_doc; Scene.ann_twin]
             true))).1
    = Done (make_slice [Sample.user 7 "ann" 1000000 2000000], None)
  ∧ ∃ e', (@List listed_order Sample.User Sample.c Sample.live
             {[ "name" := GString "ann" ]}
             (Sample.world [Sample.ann_doc; Scene.bad_ann] true)).1
          = Done (nil_slice, Some e').
Proof.
  assert (@mongo.encode_filter listed_order
            (mongo.FilterD
               (@filter_of_sels listed_order {[ "name" := GString "ann" ]}))
          = inr [("name", bson.BString "ann")]) as Hf
    by (vm_compute; reflexivity).
  split; [|split].
  - assert ((@List listed_order Sample.User Sample.c Sample.live
               {[ "name" := GString "ann" ]}
               (Sample.world [Sample.ann_doc; Sample.bob_doc; Scene.ann_twin]
                  true)).1
            = Done (make_slice [Sample.user 7 "ann" 1000000 2000000;
                                Sample.user 17 "ann" 5000000 6000000], None))
      as Hrun by (vm_compute; reflexivity).
    destruct (@listings_decode_what_the_cursor_delivers listed_order
                Sample.User Sample.c Sample.live
                {[ "name" := GString "ann" ]} [("name", bson.BString "ann")]
                (Sample.world [Sample.ann_doc; Sample.bob_doc; Scene.ann_twin]
                   true) Hf)
      as (HList & _).
    exact (HList _ Hrun).
  - destruct (@listings_decode_what_the_cursor_delivers listed_order
                Sample.User Sample.c Sample.live
                {[ "name" := GString "ann" ]} [("name", bson.BString "ann")]
                (Scene.with_fault 0
                   (Sample.world
                      [Sample.ann_doc; Sample.bob_doc; Scene.ann_twin] true))
                Hf)
      as (_ & _ & _ & Hlive).
    destruct (Hlive eq_refl eq_refl) as (Hbatch & _).
    apply (Hbatch 0%nat [Sample.user 7 "ann" 1000000 2000000] eq_refl).
    constructor; [vm_compute; reflexivity|constructor].
  - destruct (@listings_decode_what_the_cursor_delivers listed_order
                Sample.User Sample.c Sample.live
                {[ "name" := GString "ann" ]} [("name", bson.BString "ann")]
                (Sample.world [Sample.ann_doc; Scene.bad_ann] true) Hf)
      as (_ & _ & _ & Hlive).
    destruct (Hlive eq_refl eq_refl) as (_ & _ & Hfail).
    destruct (Hfail Scene.bad_ann
                (ErrDecode "cannot decode value into field"))
      as [HL _]; [vm_compute; reflexivity|].
    apply HL. right. left.
Defined.

Lemma a_done_context_fails_the_call_witness :
  (@Get listed_order Sample.User Sample.c Sample.cancelled (GInt 7)
     (Sample.world [Sample.ann_doc] true)).1 = Done (None, Some ErrCanceled)
  ∧ (Create Sample.c Sample.cancelled (Some 1%nat)
       (Sample.world [Sample.bob_doc] true)).1 = Done (Some ErrCanceled)
  ∧ coll (@Update listed_order Sample.c Sample.cancelled (GInt 7) (Some 1%nat)
            (Sample.world [Sample.ann_doc] true)).2 = [Sample.ann_doc].
Proof.
  split; [|split].
  - destruct (@a_done_context_fails_the_call listed_order Sample.User
                Sample.c Sample.cancelled ErrCanceled
                (Sample.world [Sample.ann_doc] true) eq_refl)
      as (Hid & _).
    exact (proj1 (Hid (GInt 7) eq_refl)).
  - destruct (@a_done_context_fails_the_call listed_order Sample.User
                Sample.c Sample.cancelled ErrCanceled
                (Sample.world [Sample.bob_doc] true) eq_refl)
      as (_ & _ & _ & HCreate & _).
    exact (proj1 (HCreate 1%nat (Sample.user 7 "ann" 11 22)
                    eq_refl eq_refl eq_refl eq_refl)).
  - destruct (@a_done_context_fails_the_call listed_order Sample.User
                Sample.c Sample.cancelled ErrCanceled
                (Sample.world [Sample.ann_doc] true) eq_refl)
      as (_ & _ & _ & _ & HUpdate).
    exact (proj2 (HUpdate (GInt 7) 1%nat (Sample.user 7 "ann" 11 22)
                    eq_refl eq_refl eq_refl eq_refl)).
Defined.

Lemma Find_returns_the_head_of_List_witness :
  (@List listed_order Sample.User Sample.c Sample.live
     {[ "name" := GString "ann" ]}
     (Sample.world [Sample.bob_doc; Sample.ann_doc; Scene.ann_twin] true)).1
  = Done (make_slice [Sample.user 7 "ann" 1000000 2000000;
                      Sample.user 17 "ann" 5000000 6000000], None)
  ∧ (@Find listed_order Sample.User Sample.c Sample.live
       {[ "name" := GString "ann" ]}
       (Sample.world [Sample.bob_doc; Sample.ann_doc; Scene.ann_twin] true)).1
    = Done (Some (Sample.user 7 "ann" 1000000 2000000), None).
Proof.
  assert ((@List listed_order Sample.User Sample.c Sample.live
             {[ "name" := GString "ann" ]}
             (Sample.world [Sample.bob_doc; Sample.ann_doc; Scene.ann_twin]
                true)).1
          = Done (make_slice [Sample.user 7 "ann" 1000000 2000000;
                              Sample.user 17 "ann" 5000000 6000000], None))
    as Hrun by (vm_compute; reflexivity).
  split; [exact Hrun|].
  exact (@Find_returns_the_head_of_List listed_order Sample.User Sample.c
           Sample.live {[ "name" := GString "ann" ]}
           (make_slice [Sample.user 7 "ann" 1000000 2000000;
                        Sample.user 17 "ann" 5000000 6000000])
           (Sample.world [Sample.bob_doc; Sample.ann_doc; Scene.ann_twin] true)
           Hrun).
Defined.

Lemma Create_is_rejected_by_a_unique_index_witness :
  (@CreateIndex listed_order Sample.c Sample.live {[ "name" := 1 ]} true
     (Sample.world [Scene.red_doc] true)).1 = Done ("name_1", None)
  ∧ ∃ e, (Create Sample.c Sample.live (Some 2%nat)
            (@CreateIndex listed_order Sample.c Sample.live {[ "name" := 1 ]}
               true (Sample.world [Scene.red_doc] true)).2).1
         = Done (Some e)
         ∧ coll (Create Sample.c Sample.live (Some 2%nat)
                   (@CreateIndex listed_order Sample.c Sample.live
                      {[ "name" := 1 ]} true
                      (Sample.world [Scene.red_doc] true)).2).2
           = [Scene.red_doc].
Proof.
  assert ((@CreateIndex listed_order Sample.c Sample.live {[ "name" := 1 ]}
             true (Sample.world [Scene.red_doc] true)).1
          = Done ("name_1", None)) as Hidx
    by (vm_compute; reflexivity).
  assert (coll (@CreateIndex listed_order Sample.c Sample.live
                  {[ "name" := 1 ]} true
                  (Sample.world [Scene.red_doc] true)).2
          = [Scene.red_doc]) as Hcoll
    by (vm_compute; reflexivity).
  split; [exact Hidx|].
  cut (∃ e, (Create Sample.c Sample.live (Some 2%nat)
               (@CreateIndex listed_order Sample.c Sample.live
                  {[ "name" := 1 ]} true
                  (Sample.world [Scene.red_doc] true)).2).1
            = Done (Some e)
            ∧ coll (Create Sample.c Sample.live (Some 2%nat)
                      (@CreateIndex listed_order Sample.c Sample.live
                         {[ "name" := 1 ]} true
                         (Sample.world [Scene.red_doc] true)).2).2
              = coll (@CreateIndex listed_order Sample.c Sample.live
                        {[ "name" := 1 ]} true
                        (Sample.world [Scene.red_doc] true)).2).
  { intros (e & He & Hkeep). exists e. split; [exact He|].
    exact (eq_trans Hkeep Hcoll). }
  apply (@Create_is_rejected_by_a_unique_index listed_order Sample.c
           Sample.live Sample.live {[ "name" := 1 ]} "name_1" 2%nat
           (Sample.tag 3 "red")
           [("_id", bson.BInt32 3); ("name", bson.BString "red")]
           Scene.red_doc (Sample.world [Scene.red_doc] true)).
  - exact Hidx.
  - vm_compute; reflexivity.
  - reflexivity.
  - reflexivity.
  - vm_compute; reflexivity.
  - rewrite Hcoll. left.
  - intros k Hk. rewrite dom_singleton_L in Hk.
    apply elem_of_singleton in Hk as ->. vm_compute; reflexivity.
Defined.
